(** * qt-func-grapher: the arithmetic parser and evaluator

    A shallow embedding of [qt_func_grapher/arithmetic_parser.py]
    (classes [_BinaryTreeNode] and [ArithmeticParser]) and the properties
    of the tokenizer, the parenthesis-inserting normalizer, the tree
    builder and the evaluator.

    - lexemes are strings, [self.lexems] is a [list string];
    - tree nodes are mutable objects: they live in a store (a list of node
      records indexed by address) and the methods of [_BinaryTreeNode] are
      operations of a small state-and-exception monad over that store;
    - Python exceptions are values of [exn];
    - numbers are IEEE binary64 floats ([PrimFloat]), as Python's [float]
      and numpy's [float64];
    - the recursive methods [evaluate] and [__str__] take the number of
      frames the interpreter still grants and raise [RecursionError]
      when it is used up; the other methods nest a fixed number of calls
      and are given no budget. *)

From Stdlib Require Import List String Ascii Arith ZArith Lia Bool PrimFloat Uint63.
From Stdlib Require Import DecimalString.
From stdpp Require Import base list.
Import ListNotations.

Local Open Scope string_scope.
Local Open Scope list_scope.

(** ** Python exceptions and outcomes *)

Inductive tok : Type :=
| TStr (s : string)      (* a lexeme: "=", "x" or an operator symbol *)
| TFloat (v : float).    (* the result of [float(tk)] *)

Inductive exn : Type :=
| SyntaxError (msg : string)
| NameError (msg : string)
| ValueError (msg : string)
| KeyError (key : tok)
| TypeError
| IndexError
| RecursionError.

(** [Stuck] is not a Python outcome: it marks a model run that followed a
    dangling address. [parse_never_stuck] and [evaluate_parsed_not_stuck]
    show it does not occur. *)
Inductive outcome (A : Type) : Type :=
| Return (a : A)
| Raise (e : exn)
| Stuck.
Arguments Return {A} a.
Arguments Raise {A} e.
Arguments Stuck {A}.

Definition obind {A B} (o : outcome A) (k : A -> outcome B) : outcome B :=
  match o with
  | Return a => k a
  | Raise e => Raise e
  | Stuck => Stuck
  end.

Notation "'let?' x ':=' c 'in' k" := (obind c (fun x => k))
  (at level 10, x pattern, c at level 100, k at level 200).

(** ** Lexemes *)

Definition L_open : string := "(".
Definition L_close : string := ")".
Definition L_eq : string := "=".
Definition L_x : string := "x".

Definition is_pow (t : string) : bool := String.eqb t "^".
Definition is_mul (t : string) : bool := String.eqb t "*" || String.eqb t "/".
Definition is_add (t : string) : bool := String.eqb t "+" || String.eqb t "-".

(** [tk in ["+", "-", "*", "/", "^"]] *)
Definition is_operator (t : string) : bool :=
  existsb (String.eqb t) ["+"; "-"; "*"; "/"; "^"].

(** ** [ArithmeticParser._tockenize]: the splitting part *)

(** The character class of the regular expression [([\+\-\*\/\^\(\)])]. *)
Definition is_delim (c : ascii) : bool :=
  existsb (Ascii.eqb c) ["+"; "-"; "*"; "/"; "^"; "("; ")"]%char.

(** [self.expr.replace(" ", EMPTY)]: every space character is dropped. *)
Fixpoint replace_space (s : string) : string :=
  match s with
  | EmptyString => EmptyString
  | String c s' =>
      if Ascii.eqb c " "%char then replace_space s' else String c (replace_space s')
  end.

(** [re.split] with one capturing group: the fragments between the
    delimiters, empty ones included, alternate with the delimiters. *)
Fixpoint re_split (s : string) : list string :=
  match s with
  | EmptyString => [EmptyString]
  | String c s' =>
      if is_delim c then EmptyString :: String c EmptyString :: re_split s'
      else match re_split s' with
           | f :: rest => String c f :: rest
           | [] => [String c EmptyString]
           end
  end.

Definition nonempty (t : string) : bool :=
  match t with EmptyString => false | _ => true end.

(** The list comprehension of [_tockenize]: split, keep [token != EMPTY]. *)
Definition lexems_of (expr : string) : list string :=
  List.filter nonempty (re_split (replace_space expr)).

(** ** [ArithmeticParser._insertParanthesesAround] *)

(** [list.insert(i, v)]: insertion before position [i], at the end when
    [i] is past the end. *)
Definition py_insert (i : nat) (v : string) (l : list string) : list string :=
  take i l ++ v :: drop i l.

(** The first loop, [for ptr in range(index - 1, -1, -1)]; [n] is [ptr + 1],
    so the call with [n = index] runs the whole range. The result is the
    list after the loop and the final [parantheses_count]. *)
Fixpoint scan_left (lexems : list string) (n : nat) (count : Z)
  : outcome (list string * Z) :=
  match n with
  | 0 => Return (lexems, count)
  | S ptr =>
      match lexems !! ptr with
      | None => Raise IndexError
      | Some t =>
          if String.eqb t L_close then scan_left lexems ptr (count + 1)%Z
          else
            let count := if String.eqb t L_open then (count - 1)%Z else count in
            if (count =? 0)%Z then Return (py_insert ptr L_open lexems, count)
            else scan_left lexems ptr count
      end
  end.

(** The second loop, [for ptr in range(index + 2, len(self.lexems), 1)];
    [todo] is the number of iterations left. *)
Fixpoint scan_right (lexems : list string) (todo ptr : nat) (count : Z)
  : outcome (list string * Z) :=
  match todo with
  | 0 => Return (lexems, count)
  | S todo' =>
      match lexems !! ptr with
      | None => Raise IndexError
      | Some t =>
          if String.eqb t L_open then scan_right lexems todo' (S ptr) (count + 1)%Z
          else
            let count := if String.eqb t L_close then (count - 1)%Z else count in
            if (count =? 0)%Z then Return (py_insert (ptr + 1) L_close lexems, count)
            else scan_right lexems todo' (S ptr) count
      end
  end.

Definition insertParanthesesAround (lexems : list string) (index : nat)
  : outcome (list string) :=
  let? (lexems, count) := scan_left lexems index 0%Z in
  if negb (count =? 0)%Z then Raise (SyntaxError "Too many closing parantheses")
  else if (List.length lexems <=? index + 2)%nat then
    Return (py_insert (index + 2) L_close lexems)
  else
    let? (lexems, count) :=
      scan_right lexems (List.length lexems - (index + 2)) (index + 2) count in
    if negb (count =? 0)%Z then Raise (SyntaxError "Too few closing parantheses")
    else Return lexems.

(** ** [ArithmeticParser._preprocess] *)

(** [[i for i, el in enumerate(self.lexems) if p(el)]], counting from [i]. *)
Fixpoint indices_from (p : string -> bool) (i : nat) (lexems : list string)
  : list nat :=
  match lexems with
  | [] => []
  | el :: rest =>
      if p el then i :: indices_from p (S i) rest else indices_from p (S i) rest
  end.

Definition indices_of (p : string -> bool) (lexems : list string) : list nat :=
  indices_from p 0 lexems.

(** [for i in range(len(indices)): self._insertParanthesesAround(indices[i] + 2 * i)],
    from iteration [i] on. *)
Fixpoint wrap_from (i : nat) (indices : list nat) (lexems : list string)
  : outcome (list string) :=
  match indices with
  | [] => Return lexems
  | idx :: rest =>
      let? lexems := insertParanthesesAround lexems (idx + 2 * i) in
      wrap_from (S i) rest lexems
  end.

(** One pass: record the indices, then wrap each. *)
Definition wrap_pass (p : string -> bool) (lexems : list string)
  : outcome (list string) :=
  wrap_from 0 (indices_of p lexems) lexems.

Definition preprocess (lexems : list string) : outcome (list string) :=
  let? lexems := wrap_pass is_pow lexems in
  let? lexems := wrap_pass is_mul lexems in
  wrap_pass is_add lexems.

(** [_tockenize]: strip spaces, split, normalize. *)
Definition tockenize (expr : string) : outcome (list string) :=
  preprocess (lexems_of expr).

(** ** The object store and [_BinaryTreeNode] *)

(** Objects are identified by their position in the store. *)
Abbreviation addr := nat.

(** The attributes of a [_BinaryTreeNode]; [None] is Python's [None]. *)
Record node : Type := Node {
  token : tok;
  left : option addr;
  right : option addr
}.

Abbreviation store := (list node).

(** Computations that read and write the store and may raise. *)
Definition M (A : Type) : Type := store -> outcome A * store.

Definition mret {A} (a : A) : M A := fun h => (Return a, h).
Definition mraise {A} (e : exn) : M A := fun h => (Raise e, h).
Definition mstuck {A} : M A := fun h => (Stuck, h).
Definition mlift {A} (o : outcome A) : M A := fun h => (o, h).
Definition mbind {A B} (c : M A) (k : A -> M B) : M B :=
  fun h =>
    match c h with
    | (Return a, h') => k a h'
    | (Raise e, h') => (Raise e, h')
    | (Stuck, h') => (Stuck, h')
    end.

(** A call of a Python function or method needs a frame: the interpreter
    refuses it with [RecursionError] when the recursion limit leaves none.
    [frames] is the number of frames still granted where the call is
    made. *)
Definition call {A} (frames : nat) (c : M A) : M A :=
  match frames with
  | 0 => mraise RecursionError
  | S _ => c
  end.

Notation "x <- c ;; k" := (mbind c (fun x => k))
  (at level 100, c at next level, right associativity).
Notation "c ;;; k" := (mbind c (fun _ => k))
  (at level 100, right associativity).

(** [_BinaryTreeNode(token)]: a fresh object with no children. *)
Definition new_node (tk : tok) : M addr :=
  fun h => (Return (List.length h), h ++ [Node tk None None]).

Definition read {A} (self : addr) (f : node -> A) : M A :=
  fun h => match h !! self with
           | Some n => (Return (f n), h)
           | None => (Stuck, h)
           end.

Definition write (self : addr) (f : node -> node) : M unit :=
  fun h => match h !! self with
           | Some n => (Return tt, <[self := f n]> h)
           | None => (Stuck, h)
           end.

Definition getToken (self : addr) : M tok := read self token.
Definition getLeft (self : addr) : M (option addr) := read self left.
Definition getRight (self : addr) : M (option addr) := read self right.

Definition setToken (self : addr) (tk : tok) : M unit :=
  write self (fun n => Node tk (left n) (right n)).

Definition insertLeft (self : addr) (tk : tok) : M unit :=
  a <- new_node tk ;;
  write self (fun n => Node (token n) (Some a) (right n)).

Definition insertRight (self : addr) (tk : tok) : M unit :=
  a <- new_node tk ;;
  write self (fun n => Node (token n) (left n) (Some a)).

(** ** Values and numpy's elementwise functions *)

(** What [evaluate] can return: a constant token (a [float], or a lexeme
    when an operator node has lost its left operand), an array, or the
    string numpy makes of lexeme operands where it has a loop for them. *)
Inductive value : Type :=
| VFloat (v : float)
| VArray (a : list float)
| VStr (s : string).

Definition value_of_tok (tk : tok) : value :=
  match tk with
  | TStr s => VStr s
  | TFloat v => VFloat v
  end.

Fixpoint zip_with_float (f : float -> float -> float) (a b : list float)
  : list float :=
  match a, b with
  | u :: a', v :: b' => f u v :: zip_with_float f a' b'
  | _, _ => []
  end.

(** A binary ufunc on scalars and one-dimensional arrays: scalars
    broadcast, arrays of equal length combine elementwise, an array of
    length one broadcasts, other shapes are rejected by numpy with a
    [ValueError] (its message, given here without the two shapes). When
    an operand is a lexeme, [text] tells what the installed numpy does:
    the string it returns, or [None] when the ufunc has no loop for the
    operands and raises [TypeError]. Inside [evaluate] every array is the
    sample array, so only the first three cases and the equal-length one
    arise among the numeric ones. *)
Definition ufunc (f : float -> float -> float)
           (text : value -> value -> option string) (a b : value) : outcome value :=
  match a, b with
  | VFloat u, VFloat v => Return (VFloat (f u v))
  | VFloat u, VArray l => Return (VArray (List.map (f u) l))
  | VArray l, VFloat v => Return (VArray (List.map (fun u => f u v) l))
  | VArray l1, VArray l2 =>
      if (List.length l1 =? List.length l2)%nat then
        Return (VArray (zip_with_float f l1 l2))
      else match l1, l2 with
           | [u], _ => Return (VArray (List.map (f u) l2))
           | _, [v] => Return (VArray (List.map (fun u => f u v) l1))
           | _, _ => Raise (ValueError "operands could not be broadcast together")
           end
  | _, _ => match text a b with
            | Some s => Return (VStr s)
            | None => Raise TypeError
            end
  end.

(** numpy before version 2: no ufunc has a loop for a string operand.
    An instance of [text] for concrete formulas. *)
Definition no_text_loop (op : string) (a b : value) : option string := None.

(** An instance in which [add] has a loop for two strings and
    concatenates them, as later versions of numpy do; the other ufuncs,
    and [add] on a string and a number, have none. *)
Definition text_concatenation (op : string) (a b : value) : option string :=
  match a, b with
  | VStr s, VStr t => if String.eqb op "+" then Some (String.append s t) else None
  | _, _ => None
  end.

(** A digit string as a float: the fragment of Python's [float] used to
    instantiate the builtin at concrete formulas (integers below 2^53 are
    exact in binary64). *)
Fixpoint digits_value (acc : Z) (s : string) : option Z :=
  match s with
  | EmptyString => Some acc
  | String c s' =>
      let n := nat_of_ascii c in
      if ((48 <=? n) && (n <=? 57))%nat
      then digits_value (10 * acc + Z.of_nat (n - 48))%Z s'
      else None
  end.

Definition float_of_digits (s : string) : option float :=
  match s with
  | EmptyString => None
  | _ => match digits_value 0%Z s with
         | Some z => if (z <? 2 ^ 53)%Z
                     then Some (PrimFloat.of_uint63 (Uint63.of_Z z)) else None
         | None => None
         end
  end.

(** [numpy.power] on an exponent that is a natural number up to 16, by
    repeated multiplication; [nan] elsewhere. Like [float_of_digits] it
    only instantiates the builtin at concrete formulas. *)
Fixpoint pow_iter (n : nat) (b : float) : float :=
  match n with
  | 0 => 1%float
  | S n' => PrimFloat.mul b (pow_iter n' b)
  end.

Definition small_power (b e : float) : float :=
  match List.find (fun n => PrimFloat.eqb (PrimFloat.of_uint63 (Uint63.of_Z (Z.of_nat n))) e)
                  (List.seq 0 17) with
  | Some n => pow_iter n b
  | None => PrimFloat.nan
  end.

(** [np.linspace(start, stop, 501)] for concrete limits: the points
    [start + i * step] with [step = (stop - start) / 500], the last one
    being [stop]. An instance of the builtin, as the two above. *)
Definition linspace_501 (start stop : float) : list float :=
  let step := PrimFloat.div (PrimFloat.sub stop start) 500 in
  List.map (fun i => PrimFloat.add start
                       (PrimFloat.mul (PrimFloat.of_uint63 (Uint63.of_Z (Z.of_nat i))) step))
           (List.seq 0 500)
  ++ [stop].

(** [str] on the floats that are natural numbers below 1000 ("3.0");
    an instance of the builtin. *)
Definition float_str (v : float) : string :=
  match List.find (fun n => PrimFloat.eqb (PrimFloat.of_uint63 (Uint63.of_Z (Z.of_nat n))) v)
                  (List.seq 0 1000) with
  | Some n => String.append (NilEmpty.string_of_uint (Nat.to_uint n)) ".0"
  | None => "nan"
  end.

(** [NameError(f"Unknown variable ('{tk}')")] *)
Definition unknown_variable (tk : string) : exn :=
  NameError (String.append "Unknown variable ('" (String.append tk "')")).

Section Parser.

(** Python's builtin [float] on strings ([None] when it raises
    [ValueError]), numpy's [power] on two doubles, and what the ufunc of
    an operator does when an operand is a lexeme (see [ufunc]). *)
Variable pyfloat : string -> option float.
Variable np_power : float -> float -> float.
Variable np_text : string -> value -> value -> option string.

(** The dictionary [ops] of [evaluate]; a missing key raises [KeyError]. *)
Definition ops (tk : tok) : outcome (value -> value -> outcome value) :=
  match tk with
  | TStr s =>
      if String.eqb s "+" then Return (ufunc PrimFloat.add (np_text "+"))
      else if String.eqb s "-" then Return (ufunc PrimFloat.sub (np_text "-"))
      else if String.eqb s "*" then Return (ufunc PrimFloat.mul (np_text "*"))
      else if String.eqb s "/" then Return (ufunc PrimFloat.div (np_text "/"))
      else if String.eqb s "^" then Return (ufunc np_power (np_text "^"))
      else Raise (KeyError tk)
  | TFloat _ => Raise (KeyError tk)
  end.

Definition tok_is (tk : tok) (s : string) : bool :=
  match tk with
  | TStr t => String.eqb t s
  | TFloat _ => false
  end.

(** ** [_BinaryTreeNode.evaluate] *)

(** [x] is the sample array. [frames] is the number of Python frames the
    interpreter still grants where [evaluate] is called (the recursion
    limit less the depth of the caller): the call takes one of them, a
    getter takes one more while it runs, and the calls on the children
    run with what the call left. *)
Fixpoint evaluate (frames : nat) (self : addr) (x : list float) : M value :=
  match frames with
  | 0 => mraise RecursionError
  | S frames' =>
      left_operand <- call frames' (getLeft self) ;;
      right_operand <- call frames' (getRight self) ;;
      match left_operand, right_operand with
      | Some l, Some r =>
          tk <- call frames' (getToken self) ;;
          fn <- mlift (ops tk) ;;
          lv <- evaluate frames' l x ;;
          rv <- evaluate frames' r x ;;
          mlift (fn lv rv)
      | Some l, None => evaluate frames' l x
      | None, _ =>
          tk <- call frames' (getToken self) ;;
          if negb (tok_is tk L_eq) then
            if tok_is tk L_x then mret (VArray x) else mret (value_of_tok tk)
          else mraise (ValueError "Missing Operand")
      end
  end.

(** ** [ArithmeticParser.parse] *)

(** One iteration of [for tk in self.lexems]; the local state is
    [current_node] and [nodes_stack] (the deque, its right end first). *)
Definition parse_step (st : addr * list addr) (tk : string)
  : M (addr * list addr) :=
  let '(current_node, nodes_stack) := st in
  if String.eqb tk L_open then
    l <- getLeft current_node ;;
    match l with
    | None =>
        insertLeft current_node (TStr L_eq) ;;;
        child <- getLeft current_node ;;
        match child with
        | Some c => mret (c, current_node :: nodes_stack)
        | None => mstuck
        end
    | Some _ =>
        insertRight current_node (TStr L_eq) ;;;
        child <- getRight current_node ;;
        match child with
        | Some c => mret (c, nodes_stack)
        | None => mstuck
        end
    end
  else if is_operator tk then
    setToken current_node (TStr tk) ;;;
    insertRight current_node (TStr L_eq) ;;;
    child <- getRight current_node ;;
    match child with
    | Some c => mret (c, nodes_stack)
    | None => mstuck
    end
  else if String.eqb tk L_close then
    match nodes_stack with
    | top :: rest => mret (top, rest)
    | [] => mret (current_node, nodes_stack)
    end
  else if String.eqb tk L_x then
    insertLeft current_node (TStr tk) ;;;
    mret (current_node, nodes_stack)
  else
    match pyfloat tk with
    | None =>
        mraise (unknown_variable tk)
    | Some v =>
        insertLeft current_node (TFloat v) ;;;
        mret (current_node, nodes_stack)
    end.

Fixpoint parse_loop (lexems : list string) (st : addr * list addr)
  : M (addr * list addr) :=
  match lexems with
  | [] => mret st
  | tk :: rest => st' <- parse_step st tk ;; parse_loop rest st'
  end.

(** The tree builder on an already normalized lexeme list. *)
Definition build (lexems : list string) (ast : addr) : M addr :=
  st <- parse_loop lexems (ast, []) ;;
  if (0 <? List.length (snd st))%nat
  then mraise (SyntaxError "Too few closing parantheses")
  else mret ast.

(** [parse]: the result is the root stored in [self.ast]. *)
Definition parse (expr : string) : M addr :=
  ast <- new_node (TStr L_eq) ;;
  lexems <- mlift (tockenize expr) ;;
  build lexems ast.

(** A parser object after a successful [parse]: the store and [self.ast]. *)
Record parsed : Type := Parsed { heap : store; ast : addr }.

Definition run_parse (expr : string) : outcome parsed :=
  match parse expr [] with
  | (Return a, h) => Return (Parsed h a)
  | (Raise e, _) => Raise e
  | (Stuck, _) => Stuck
  end.

(** [ArithmeticParser.evaluate]: [self.ast.evaluate(x)], a call that
    takes a frame itself; [frames] is what the interpreter grants where
    the method is called. *)
Definition AP_evaluate (frames : nat) (p : parsed) (x : list float)
  : outcome value * store :=
  match frames with
  | 0 => (Raise RecursionError, heap p)
  | S frames' => evaluate frames' (ast p) x (heap p)
  end.

(** [parse] followed by [evaluate], as the caller runs them. *)
Definition parse_then_evaluate (frames : nat) (expr : string) (x : list float)
  : outcome value :=
  let? p := run_parse expr in fst (AP_evaluate frames p x).


(** The caller's repeated use of one parsed formula: each sample array
    is evaluated in turn on the store the previous evaluation left. *)
Fixpoint evaluate_each (frames : nat) (p : parsed) (xs : list (list float))
  : list (outcome value) * parsed :=
  match xs with
  | [] => ([], p)
  | x :: xs' =>
      let '(r, h') := AP_evaluate frames p x in
      let '(rs, p') := evaluate_each frames (Parsed h' (ast p)) xs' in
      (r :: rs, p')
  end.

(** The parser state after [parse] of [3 + x], with [float("3") = 3.0]. *)
Definition sum_tree : parsed :=
  Parsed [Node (TStr "=") (Some 1) None;
          Node (TStr "+") (Some 2) (Some 3);
          Node (TFloat 3) None None;
          Node (TStr "=") (Some 4) None;
          Node (TStr "x") None None] 0.

(** ** Vocabulary of the statements *)

(** A well-formed formula over the lexemes: operands are [x] and the
    strings [float] accepts, every operator has two operands, and
    parentheses are balanced. *)
Definition is_operand (t : string) : bool :=
  String.eqb t L_x || match pyfloat t with Some _ => true | None => false end.

Inductive well_formed : list string -> Prop :=
| wf_operand t : is_operand t = true -> well_formed [t]
| wf_binary a op b :
    well_formed a -> is_operator op = true -> well_formed b ->
    well_formed (a ++ op :: b)
| wf_paren a : well_formed a -> well_formed (L_open :: a ++ [L_close]).

(** The index bookkeeping of a pass of [_preprocess]: once the first [i]
    recorded occurrences are wrapped, the next recorded one, found at
    [idx] when the pass began, sits at [idx + 2 * i]. *)
Definition offsets_track (p : string -> bool) (lexems : list string) : Prop :=
  forall (i idx : nat) (lexems_i : list string),
    indices_of p lexems !! i = Some idx ->
    wrap_from 0 (take i (indices_of p lexems)) lexems = Return lexems_i ->
    lexems_i !! (idx + 2 * i) = lexems !! idx.

Definition count_tok (t : string) (l : list string) : nat :=
  List.length (List.filter (String.eqb t) l).

(** Every opening parenthesis is the first lexeme or directly follows an
    opening parenthesis or an operator ([fresh] tells whether the lexeme
    before was one of those). *)
Fixpoint opens_tracked (fresh : bool) (l : list string) : bool :=
  match l with
  | [] => true
  | t :: l' =>
      if String.eqb t L_open then fresh && opens_tracked true l'
      else opens_tracked (is_operator t) l'
  end.

Fixpoint string_forallb (p : ascii -> bool) (s : string) : bool :=
  match s with
  | EmptyString => true
  | String c s' => p c && string_forallb p s'
  end.

(** ASCII white space, as [str.isspace] sees it. *)
Definition is_whitespace (c : ascii) : bool :=
  existsb (Nat.eqb (nat_of_ascii c)) [32; 9; 10; 11; 12; 13].

Definition is_space (c : ascii) : bool := Ascii.eqb c " "%char.

(** A lexeme that is one delimiter character. *)
Definition is_delim_tok (t : string) : bool :=
  match t with
  | String c EmptyString => is_delim c
  | _ => false
  end.

(** A non-empty fragment free of delimiter characters. *)
Definition is_fragment (t : string) : bool :=
  nonempty t && string_forallb (fun c => negb (is_delim c)) t.

Definition is_lexeme (t : string) : bool := is_delim_tok t || is_fragment t.

(** No two fragments are neighbours: fragments are maximal. *)
Fixpoint separated (l : list string) : bool :=
  match l with
  | t1 :: ((t2 :: _) as l') => (is_delim_tok t1 || is_delim_tok t2) && separated l'
  | _ => true
  end.

(** The concatenation of a list of lexemes. *)
Definition concat_str (l : list string) : string :=
  fold_right String.append EmptyString l.

Definition delim_free (t : string) : bool :=
  string_forallb (fun c => negb (is_delim c)) t.

Definition space_free (t : string) : bool :=
  string_forallb (fun c => negb (is_space c)) t.

(** The shape of a [re.split] result: delimiter-free fragments, possibly
    empty, with one delimiter between neighbours. *)
Inductive alternating : list string -> Prop :=
| alt_last f : delim_free f = true -> alternating [f]
| alt_cons f d r :
    delim_free f = true -> is_delim_tok d = true -> alternating r ->
    alternating (f :: d :: r).

(** The store after a fresh object [new] is created and [self] is
    replaced by [n'] (which refers to it). *)
Definition attach (h : store) (self : addr) (n' new : node) : store :=
  <[self := n']> (h ++ [new]).

Definition not_paren (t : string) : bool :=
  negb (String.eqb t L_open || String.eqb t L_close).

(** [l'] is [l] with parentheses added: the lexemes other than
    parentheses are the same, in the same order, and nothing was removed,
    that is, striking lexemes out of [l'] leaves [l]. *)
Definition adds_parens (l l' : list string) : Prop :=
  List.filter not_paren l' = List.filter not_paren l
  /\ sublist l l'.

(** Children of a node are objects created after it, inside the store. *)
Definition wf_store (h : store) : Prop :=
  forall (a : addr) (n : node) (c : addr),
    h !! a = Some n -> left n = Some c \/ right n = Some c ->
    a < c /\ c < List.length h.

(** The local state of the builder refers to objects of the store. *)
Definition wf_state (h : store) (st : addr * list addr) : Prop :=
  wf_store h /\ fst st < List.length h /\ Forall (fun a => a < List.length h) (snd st).


(** ** Vocabulary of the further properties *)

(** An array result has one element per sample. *)
Definition shaped (x : list float) (v : value) : Prop :=
  match v with
  | VArray a => List.length a = List.length x
  | _ => True
  end.

(** The exceptions [_BinaryTreeNode.evaluate] lets out. *)
Definition evaluate_exception (e : exn) : Prop :=
  e = ValueError "Missing Operand" \/ (exists key, e = KeyError key)
  \/ e = TypeError \/ e = RecursionError.

Definition is_array (v : value) : bool :=
  match v with VArray _ => true | _ => false end.


(** No node of the store carries the variable. *)
Definition variable_free (h : store) : Prop :=
  Forall (fun n => tok_is (token n) L_x = false) h.

(** The lexemes the builder accepts: parentheses, operators, [x] and the
    strings [float] parses. *)
Definition known (t : string) : bool :=
  String.eqb t L_open || is_operator t || String.eqb t L_close
  || String.eqb t L_x
  || match pyfloat t with Some _ => true | None => false end.

(** The lexemes for which the builder creates a node: all but [")"]. *)
Definition allocates (t : string) : bool := negb (String.eqb t L_close).



(** [l'] is [l] with at most [k] opening and at most [k] closing
    parentheses added, and nothing else changed. *)
Definition grows_by (k : nat) (l l' : list string) : Prop :=
  List.filter not_paren l' = List.filter not_paren l
  /\ count_tok L_open l <= count_tok L_open l' <= count_tok L_open l + k
  /\ count_tok L_close l <= count_tok L_close l' <= count_tok L_close l + k.


(** ** Fully parenthesized lexeme lists *)

(** The shape normalization aims at: an operand, an operation wrapped in
    its own pair of parentheses, or a parenthesized group. *)
Inductive term : Type :=
| Atom (t : string)
| Bin (l : term) (op : string) (r : term)
| Group (e : term).

Fixpoint flat (e : term) : list string :=
  match e with
  | Atom t => [t]
  | Bin l op r => L_open :: flat l ++ op :: flat r ++ [L_close]
  | Group e' => L_open :: flat e' ++ [L_close]
  end.

(** An operand lexeme: [x] or a string [float] parses, and no parenthesis
    or operator. *)
Definition is_atom (t : string) : bool :=
  negb (String.eqb t L_open) && negb (is_operator t)
  && negb (String.eqb t L_close) && is_operand t.

Fixpoint wf_term (e : term) : Prop :=
  match e with
  | Atom t => is_atom t = true
  | Bin l op r => wf_term l /\ is_operator op = true /\ wf_term r
  | Group e' => wf_term e'
  end.

(** The value of an expression on the sample array [x]: the operator
    table applied to the values of the operands, left operand first. *)
Fixpoint denote (e : term) (x : list float) : outcome value :=
  match e with
  | Atom t =>
      if String.eqb t L_x then Return (VArray x)
      else match pyfloat t with
           | Some v => Return (VFloat v)
           | None => Raise (unknown_variable t)
           end
  | Bin l op r =>
      let? fn := ops (TStr op) in
      let? lv := denote l x in
      let? rv := denote r x in
      fn lv rv
  | Group e' => denote e' x
  end.

(** The number of nested calls the nodes of [e] need: one for an operand,
    one more than its content for a group, and for an operation one more
    than its left operand or two more than its right operand, which hangs
    under a placeholder node. *)
Fixpoint depth (e : term) : nat :=
  match e with
  | Atom _ => 1
  | Bin l _ r => S (Nat.max (depth l) (S (depth r)))
  | Group e' => S (depth e')
  end.

(** The operations and groups of [e], and of the items of a chain with
    the operators between them. *)
Fixpoint inner (e : term) : nat :=
  match e with
  | Atom _ => 0
  | Bin l _ r => S (inner l + inner r)
  | Group e' => S (inner e')
  end.

Fixpoint tail_inner (rest : list (string * term)) : nat :=
  match rest with
  | [] => 0
  | (_, e) :: rest' => S (inner e + tail_inner rest')
  end.

(** The token of the leaf the builder creates for an operand. *)
Definition atom_tok (t : string) : tok :=
  if String.eqb t L_x then TStr t
  else match pyfloat t with
       | Some v => TFloat v
       | None => TStr t
       end.

(** The nodes the builder leaves for [e] under the left slot of the node
    it started from: [c] is that left child, and all nodes lie at
    addresses from [lo] on. *)
Fixpoint repr (lo : nat) (h : store) (c : addr) (e : term) : Prop :=
  lo <= c /\
  match e with
  | Atom t => h !! c = Some (Node (atom_tok t) None None)
  | Bin l op r =>
      exists cl b cr,
        h !! c = Some (Node (TStr op) (Some cl) (Some b))
        /\ lo <= b
        /\ h !! b = Some (Node (TStr L_eq) (Some cr) None)
        /\ repr lo h cl l /\ repr lo h cr r
  | Group e' =>
      exists c', h !! c = Some (Node (TStr L_eq) (Some c') None)
                 /\ repr lo h c' e'
  end.


(** ** Chains of items and one pass of the normalizer *)

(** The lexemes of [op1 e1 op2 e2 ...]. *)
Fixpoint flat_tail (rest : list (string * term)) : list string :=
  match rest with
  | [] => []
  | (op, e) :: rest' => op :: flat e ++ flat_tail rest'
  end.

(** A chain [e0 op1 e1 op2 e2 ...] of items separated by operators. *)
Definition flat_chain (c : term * list (string * term)) : list string :=
  flat (fst c) ++ flat_tail (snd c).

(** Grouping the operators of one tier, from left to right: an operator
    of the tier joins the item built so far with the next item. *)
Fixpoint group_tier (p : string -> bool) (acc : term)
         (rest : list (string * term)) : term * list (string * term) :=
  match rest with
  | [] => (acc, [])
  | (op, e) :: rest' =>
      if p op then group_tier p (Bin acc op e) rest'
      else let '(e', r') := group_tier p e rest' in (acc, (op, e') :: r')
  end.

(** No lexeme of [e] is an operator of the tier [p]. *)
Definition tier_free (p : string -> bool) (e : term) : Prop :=
  Forall (fun t => p t = false) (flat e).

(** The items after the first: operators between well-formed items that
    hold no operator of the tier [p]. *)
Definition tail_ok (p : string -> bool) (rest : list (string * term)) : Prop :=
  Forall (fun oe => is_operator (fst oe) = true
                    /\ wf_term (snd oe) /\ tier_free p (snd oe)) rest.

(** A parenthesis-free formula [t0 op1 t1 op2 t2 ...] as a chain. *)
Definition atoms (rest : list (string * string)) : list (string * term) :=
  List.map (fun ot => (fst ot, Atom (snd ot))) rest.

(** The tree of a parenthesis-free formula: [^] is grouped first, then
    [*] and [/], then [+] and [-], each tier from left to right. *)
Definition precedence_tree (t0 : string) (rest : list (string * string)) : term :=
  let '(e1, r1) := group_tier is_pow (Atom t0) (atoms rest) in
  let '(e2, r2) := group_tier is_mul e1 r1 in
  fst (group_tier is_add e2 r2).


(** The left-nested tree [((t0 op1 t1) op2 t2) ...]. *)
Definition left_nest (t0 : string) (rest : list (string * string)) : term :=
  fold_left (fun acc ot => Bin acc (fst ot) (Atom (snd ot))) rest (Atom t0).


(** ** [LimitsValidator] (validator.py) *)

(** A limit as the object holds it: the text the user typed, or the
    float [parse] stored in its place. *)
Inductive pyval : Type :=
| PStr (s : string)
| PFloat (v : float).

(** The two attributes set by [__init__], the names [parse] is called
    with. *)
Inductive limit_name : Type := lower_limit | upper_limit.

Definition name_str (name : limit_name) : string :=
  match name with
  | lower_limit => "lower_limit"
  | upper_limit => "upper_limit"
  end.

(** The exceptions of the validator. *)
Inductive verr : Type :=
| VValueError (msg : string)
| VAttributeError (name : limit_name).

Inductive vresult (A : Type) : Type :=
| VReturn (a : A)
| VRaise (e : verr).
Arguments VReturn {A} a.
Arguments VRaise {A} e.

(** The object: each attribute is present ([Some]) or deleted. *)
Record limits : Type := Limits {
  lower : option pyval;
  upper : option pyval
}.

(** [LimitsValidator(lower_limit, upper_limit)] *)
Definition LimitsValidator (lo up : pyval) : limits :=
  Limits (Some lo) (Some up).

Definition attr (name : limit_name) (o : limits) : option pyval :=
  match name with
  | lower_limit => lower o
  | upper_limit => upper o
  end.

(** [__getitem__]: [getattr(self, name)] *)
Definition getitem (name : limit_name) (o : limits) : vresult pyval :=
  match attr name o with
  | Some v => VReturn v
  | None => VRaise (VAttributeError name)
  end.

(** [__setitem__]: [setattr(self, name, value)] *)
Definition setitem (name : limit_name) (v : pyval) (o : limits) : limits :=
  match name with
  | lower_limit => Limits (Some v) (upper o)
  | upper_limit => Limits (lower o) (Some v)
  end.

(** [__delitem__]: [delattr(self, name)] *)
Definition delitem (name : limit_name) (o : limits) : vresult limits :=
  match attr name o with
  | None => VRaise (VAttributeError name)
  | Some _ =>
      VReturn match name with
              | lower_limit => Limits None (upper o)
              | upper_limit => Limits (lower o) None
              end
  end.

(** [__contains__]: [hasattr(self, name)] *)
Definition contains (name : limit_name) (o : limits) : bool :=
  match attr name o with Some _ => true | None => false end.

(** [float(v)]: a float is returned as it is, a string is parsed. *)
Definition float_of (v : pyval) : option float :=
  match v with
  | PStr s => pyfloat s
  | PFloat f => Some f
  end.

(** [LimitsValidator.parse]: the value returned ([self[name]] after the
    assignment) or the exception, and the new state of the object. Only
    [ValueError] is caught and replaced. *)
Definition parse_limit (name : limit_name) (o : limits) : vresult pyval * limits :=
  match getitem name o with
  | VRaise e => (VRaise e, o)
  | VReturn v =>
      match float_of v with
      | None =>
          (VRaise (VValueError (String.append (name_str name) " is not a valid number")), o)
      | Some f =>
          let o' := setitem name (PFloat f) o in
          (getitem name o', o')
      end
  end.

(** [LimitsValidator.validate]; [and] evaluates its operands from the
    left and stops at the first false one. [l >= u] on floats is
    [u <= l]. *)
Definition validate (o : limits) : vresult unit :=
  match getitem lower_limit o with
  | VRaise e => VRaise e
  | VReturn (PStr _) => VReturn tt
  | VReturn (PFloat l) =>
      match getitem upper_limit o with
      | VRaise e => VRaise e
      | VReturn (PStr _) => VReturn tt
      | VReturn (PFloat u) =>
          if PrimFloat.leb u l then VRaise (VValueError "From is greater than To")
          else VReturn tt
      end
  end.


(** ** [GrapherWidget.refresh] and [UpdateWorker.run] (widget.py) *)

(** [np.linspace(start, stop, 501)] *)
Variable np_linspace : float -> float -> list float.

(** What the window shows after [refresh]: the text of the error label
    and whether the text of each input is painted red. *)
Record display : Type := Display {
  error_label : string;
  from_red : bool;
  to_red : bool;
  func_red : bool
}.

(** The worker [refresh] starts: [UpdateWorker(arithmetic_parser, self._x)]. *)
Record job : Type := Job { job_parser : parsed; job_x : list float }.

(** How [refresh] ends: normally, with the display and the worker it
    started if any, or with an exception it does not catch. [NoOutcome]
    stands for the [Stuck] of the parser model. *)
Inductive refreshed : Type :=
| Refreshed (d : display) (started : option job)
| ParserRaises (e : exn)
| ValidatorRaises (e : verr)
| NoOutcome.

(** The local state of [refresh] after the three checks on the limits,
    each in its own [try]: the label, the two colours, [is_valid], and the
    local variables [lower_limit] and [upper_limit] (the text, or what
    [parse] returned). *)
Record checked : Type := Checked {
  label : string;
  from_colour : bool;
  to_colour : bool;
  is_valid : bool;
  lower_local : pyval;
  upper_local : pyval
}.

Definition check_limits (lower_text upper_text : string) : vresult checked :=
  let v0 := LimitsValidator (PStr lower_text) (PStr upper_text) in
  match parse_limit lower_limit v0 with
  | (VRaise (VAttributeError n), _) => VRaise (VAttributeError n)
  | (r1, v1) =>
      let bad1 := match r1 with VRaise _ => true | VReturn _ => false end in
      let label1 := match r1 with VRaise (VValueError m) => m | _ => EmptyString end in
      let lo := match r1 with VReturn v => v | VRaise _ => PStr lower_text end in
      match parse_limit upper_limit v1 with
      | (VRaise (VAttributeError n), _) => VRaise (VAttributeError n)
      | (r2, v2) =>
          let bad2 := match r2 with VRaise _ => true | VReturn _ => false end in
          let label2 := match r2 with VRaise (VValueError m) => m | _ => label1 end in
          let up := match r2 with VReturn v => v | VRaise _ => PStr upper_text end in
          match validate v2 with
          | VRaise (VAttributeError n) => VRaise (VAttributeError n)
          | r3 =>
              let bad3 := match r3 with VRaise _ => true | VReturn _ => false end in
              let label3 := match r3 with VRaise (VValueError m) => m | _ => label2 end in
              VReturn (Checked label3 (bad1 || bad3) (bad2 || bad3)
                               (negb bad1 && negb bad2 && negb bad3) lo up)
          end
      end
  end.

(** [GrapherWidget.refresh] on the texts of the three inputs; [d] is what
    the window showed before. The function is parsed only if the limits
    passed, and the worker is started only if the function parsed;
    [parse] is guarded by [except (SyntaxError, NameError)]. *)
Definition refresh (func lower_text upper_text : string) (d : display) : refreshed :=
  match check_limits lower_text upper_text with
  | VRaise e => ValidatorRaises e
  | VReturn c =>
      if negb (is_valid c)
      then Refreshed (Display (label c) (from_colour c) (to_colour c) (func_red d)) None
      else
        match lower_local c, upper_local c with
        | PFloat lo, PFloat up =>
            let x := np_linspace lo up in
            match run_parse func with
            | Return p =>
                Refreshed (Display (label c) (from_colour c) (to_colour c) false)
                          (Some (Job p x))
            | Raise (SyntaxError m) =>
                Refreshed (Display m (from_colour c) (to_colour c) true) None
            | Raise (NameError m) =>
                Refreshed (Display m (from_colour c) (to_colour c) true) None
            | Raise e => ParserRaises e
            | Stuck => NoOutcome
            end
        | _, _ => NoOutcome
        end
  end.

(** What [UpdateWorker.run] does with the outcome of the evaluation: the
    data signal, the error signal (for [ValueError] only), or an
    exception it does not catch. [frames] is what the interpreter grants
    inside [run], where [self._parser.evaluate] is called. *)
Inductive emitted : Type :=
| Data (y : value)
| Error (msg : string)
| RunRaises (e : exn)
| RunStuck.

Definition run (frames : nat) (j : job) : emitted :=
  match fst (AP_evaluate frames (job_parser j) (job_x j)) with
  | Return y => Data y
  | Raise (ValueError msg) => Error msg
  | Raise e => RunRaises e
  | Stuck => RunStuck
  end.


(** The exceptions [_preprocess] lets out. *)
Definition normalizer_exception (e : exn) : Prop :=
  e = SyntaxError "Too many closing parantheses"
  \/ e = SyntaxError "Too few closing parantheses"
  \/ e = IndexError.


(** ** [_BinaryTreeNode.__str__] *)

(** Python's [str] on a float. *)
Variable pystr_float : float -> string.

(** [str(self.token)] *)
Definition str_tok (tk : tok) : string :=
  match tk with
  | TStr s => s
  | TFloat v => pystr_float v
  end.

(** [__str__]: the left subtree, the token, the right subtree. [str] on
    a node calls its [__str__]; [frames] is the number of such nested
    calls the interpreter still grants where [str] is applied, and a call
    beyond it raises [RecursionError]. *)
Fixpoint to_str (frames : nat) (self : addr) : M string :=
  match frames with
  | 0 => mraise RecursionError
  | S frames' =>
      l <- read self left ;;
      res <- match l with
             | Some a => to_str frames' a
             | None => mret EmptyString
             end ;;
      tk <- read self token ;;
      r <- read self right ;;
      res' <- match r with
              | Some a => to_str frames' a
              | None => mret EmptyString
              end ;;
      mret (String.append (String.append res (str_tok tk)) res')
  end.

(** What [__str__] prints for the nodes that represent a term: operands
    and operators in order, and the placeholder [=] after every group. *)
Fixpoint render (e : term) : string :=
  match e with
  | Atom t => str_tok (atom_tok t)
  | Bin l op r =>
      String.append (String.append (render l) op) (String.append (render r) L_eq)
  | Group e' => String.append (render e') L_eq
  end.


(** * Properties *)

(** ** The tokenizer *)

Lemma re_split_alternating (s : string) : alternating (re_split s).
Proof.
  induction s as [|c s IH]; simpl.
  - now constructor.
  - destruct (is_delim c) eqn:Hc.
    + apply alt_cons; [reflexivity | simpl; exact Hc | exact IH].
    + inversion IH as [f Hf Heq | f d r Hf Hd Hr Heq].
      * constructor. unfold delim_free in *. simpl. now rewrite Hc, Hf.
      * constructor; auto. unfold delim_free in *. simpl. now rewrite Hc, Hf.
Qed.

Lemma concat_re_split (s : string) : concat_str (re_split s) = s.
Proof.
  induction s as [|c s IH]; simpl; [reflexivity|].
  destruct (is_delim c).
  - simpl. simpl in IH. now rewrite IH.
  - destruct (re_split s) as [|f rest]; simpl in *; now rewrite <- IH.
Qed.

Lemma concat_filter_nonempty (l : list string) :
  concat_str (List.filter nonempty l) = concat_str l.
Proof.
  induction l as [|t l IH]; simpl; [reflexivity|].
  destruct t; simpl; [exact IH | now rewrite IH].
Qed.

Lemma string_forallb_append (p : ascii -> bool) (s t : string) :
  string_forallb p (String.append s t) = string_forallb p s && string_forallb p t.
Proof.
  induction s as [|c s IH]; simpl; [reflexivity|].
  now rewrite IH, andb_assoc.
Qed.

Lemma string_forallb_concat (p : ascii -> bool) (l : list string) :
  string_forallb p (concat_str l) = true ->
  Forall (fun t => string_forallb p t = true) l.
Proof.
  induction l as [|t l IH]; simpl; intros H; constructor.
  - rewrite string_forallb_append in H. now apply andb_prop in H.
  - apply IH. rewrite string_forallb_append in H. now apply andb_prop in H.
Qed.

Lemma replace_space_free (s : string) : space_free (replace_space s) = true.
Proof.
  unfold space_free, is_space. induction s as [|c s IH]; simpl; [reflexivity|].
  destruct (Ascii.eqb c " ") eqn:Hc; [exact IH|].
  simpl. now rewrite Hc, IH.
Qed.

Lemma alternating_lexemes (r : list string) :
  alternating r ->
  Forall (fun t => is_lexeme t = true) (List.filter nonempty r).
Proof.
  assert (Hfrag : forall f, delim_free f = true ->
            Forall (fun t => is_lexeme t = true) (List.filter nonempty [f])).
  { intros f Hf. simpl. destruct (nonempty f) eqn:Hn; constructor; [|constructor].
    unfold is_lexeme, is_fragment. fold (delim_free f).
    rewrite Hn, Hf. apply orb_true_r. }
  induction 1 as [f Hf | f d r Hf Hd Hr IH].
  - now apply Hfrag.
  - change (f :: d :: r) with ([f] ++ d :: r).
    rewrite List.filter_app. apply Forall_app. split; [now apply Hfrag|].
    simpl. assert (Hn : nonempty d = true) by (destruct d; [discriminate | reflexivity]).
    rewrite Hn. constructor; [|exact IH].
    unfold is_lexeme. now rewrite Hd.
Qed.

Lemma separated_delim_cons (d : string) (l : list string) :
  is_delim_tok d = true -> separated l = true -> separated (d :: l) = true.
Proof.
  intros Hd Hl. destruct l as [|t l]; [reflexivity|].
  change (separated (d :: t :: l))
    with ((is_delim_tok d || is_delim_tok t) && separated (t :: l)).
  now rewrite Hd, Hl.
Qed.

Lemma alternating_separated (r : list string) :
  alternating r -> separated (List.filter nonempty r) = true.
Proof.
  induction 1 as [f Hf | f d r Hf Hd Hr IH].
  - simpl. now destruct (nonempty f).
  - assert (Hn : nonempty d = true) by (destruct d; [discriminate | reflexivity]).
    assert (Htl : separated (d :: List.filter nonempty r) = true)
      by now apply separated_delim_cons.
    simpl. rewrite Hn. destruct (nonempty f); [|exact Htl].
    change (separated (f :: d :: List.filter nonempty r))
      with ((is_delim_tok f || is_delim_tok d) && separated (d :: List.filter nonempty r)).
    now rewrite Hd, Htl, orb_true_r.
Qed.

(** C6 (amended). The tokenizer drops the space character only. For every
    input no lexeme contains a space, every lexeme is one delimiter or a
    non-empty delimiter-free fragment, no two fragments are neighbours,
    and the lexemes concatenated in order give the input without its
    spaces. *)
Theorem tockenize_lexemes (expr : string) :
  Forall (fun t => space_free t = true) (lexems_of expr)
  /\ Forall (fun t => is_lexeme t = true) (lexems_of expr)
  /\ separated (lexems_of expr) = true
  /\ concat_str (lexems_of expr) = replace_space expr.
Proof.
  unfold lexems_of.
  assert (Hcat : concat_str (List.filter nonempty (re_split (replace_space expr)))
                 = replace_space expr)
    by now rewrite concat_filter_nonempty, concat_re_split.
  repeat split.
  - apply string_forallb_concat. fold (space_free (concat_str
      (List.filter nonempty (re_split (replace_space expr))))).
    rewrite Hcat. apply replace_space_free.
  - apply alternating_lexemes, re_split_alternating.
  - apply alternating_separated, re_split_alternating.
  - exact Hcat.
Qed.

(** ** The normalizer on operator-free input *)

Lemma indices_from_no_match (p : string -> bool) (i : nat) (l : list string) :
  Forall (fun t => p t = false) l -> indices_from p i l = [].
Proof.
  intros H. revert i. induction H as [|t l Ht _ IH]; intros i; simpl.
  - reflexivity.
  - rewrite Ht. apply IH.
Qed.

Lemma operator_tiers (t : string) :
  is_operator t = false -> is_pow t = false /\ is_mul t = false /\ is_add t = false.
Proof.
  unfold is_operator, is_pow, is_mul, is_add. simpl.
  destruct (String.eqb t "+"), (String.eqb t "-"), (String.eqb t "*"),
    (String.eqb t "/"), (String.eqb t "^"); simpl; intros H;
    try discriminate H; auto.
Qed.

Lemma wrap_pass_no_match (p : string -> bool) (l : list string) :
  Forall (fun t => p t = false) l -> wrap_pass p l = Return l.
Proof.
  intros H. unfold wrap_pass, indices_of.
  now rewrite indices_from_no_match.
Qed.

Lemma preprocess_operator_free (lexems : list string) :
  Forall (fun t => is_operator t = false) lexems ->
  preprocess lexems = Return lexems.
Proof.
  intros H. unfold preprocess.
  rewrite wrap_pass_no_match; simpl.
  2:{ eapply Forall_impl; [exact H|]. intros t Ht. now apply operator_tiers in Ht. }
  rewrite wrap_pass_no_match; simpl.
  2:{ eapply Forall_impl; [exact H|]. intros t Ht. now apply operator_tiers in Ht. }
  apply wrap_pass_no_match.
  eapply Forall_impl; [exact H|]. intros t Ht. now apply operator_tiers in Ht.
Qed.

(** ** The normalizer only adds parentheses *)

Lemma adds_parens_refl (l : list string) : adds_parens l l.
Proof. split; reflexivity. Qed.

Lemma adds_parens_trans (l1 l2 l3 : list string) :
  adds_parens l1 l2 -> adds_parens l2 l3 -> adds_parens l1 l3.
Proof. intros [H1 H2] [H3 H4]. split; [congruence | now transitivity l2]. Qed.

Lemma adds_parens_insert (i : nat) (v : string) (l : list string) :
  not_paren v = false -> adds_parens l (py_insert i v l).
Proof.
  intros Hv. unfold adds_parens, py_insert. split.
  - rewrite List.filter_app. simpl. rewrite Hv.
    rewrite <- List.filter_app. now rewrite take_drop.
  - rewrite <- (take_drop i l) at 1.
    apply sublist_app; [reflexivity|]. now apply sublist_cons.
Qed.

Lemma scan_left_adds_parens (l l' : list string) (n : nat) (c c' : Z) :
  scan_left l n c = Return (l', c') -> adds_parens l l'.
Proof.
  revert c. induction n as [|n IH]; intros c; simpl.
  - intros [= <- _]. apply adds_parens_refl.
  - destruct (l !! n) as [t|]; [|discriminate].
    destruct (String.eqb t L_close); [apply IH|].
    destruct (_ =? 0)%Z; [|apply IH].
    intros [= <- _]. now apply adds_parens_insert.
Qed.

Lemma scan_right_adds_parens (l l' : list string) (todo ptr : nat) (c c' : Z) :
  scan_right l todo ptr c = Return (l', c') -> adds_parens l l'.
Proof.
  revert ptr c. induction todo as [|n IH]; intros ptr c; simpl.
  - intros [= <- _]. apply adds_parens_refl.
  - destruct (l !! ptr) as [t|]; [|discriminate].
    destruct (String.eqb t L_open); [apply IH|].
    destruct (_ =? 0)%Z; [|apply IH].
    intros [= <- _]. now apply adds_parens_insert.
Qed.

Lemma insertParanthesesAround_adds_parens (l l' : list string) (index : nat) :
  insertParanthesesAround l index = Return l' -> adds_parens l l'.
Proof.
  unfold insertParanthesesAround.
  destruct (scan_left l index 0) as [[l1 c1]|e|] eqn:Hl; simpl; try discriminate.
  apply scan_left_adds_parens in Hl.
  destruct (negb (c1 =? 0)%Z); [discriminate|].
  destruct (List.length l1 <=? index + 2)%nat.
  { intros [= <-]. eapply adds_parens_trans; [exact Hl|].
    now apply adds_parens_insert. }
  destruct (scan_right l1 _ _ c1) as [[l2 c2]|e|] eqn:Hr; simpl; try discriminate.
  apply scan_right_adds_parens in Hr.
  destruct (negb (c2 =? 0)%Z); [discriminate|].
  intros [= <-]. eapply adds_parens_trans; eassumption.
Qed.

Lemma wrap_from_adds_parens (indices : list nat) (i : nat) (l l' : list string) :
  wrap_from i indices l = Return l' -> adds_parens l l'.
Proof.
  revert i l. induction indices as [|idx rest IH]; intros i l; simpl.
  - intros [= <-]. apply adds_parens_refl.
  - destruct (insertParanthesesAround l _) as [l1|e|] eqn:H1; simpl; try discriminate.
    apply insertParanthesesAround_adds_parens in H1.
    intros H2. apply IH in H2. eapply adds_parens_trans; eassumption.
Qed.

Lemma preprocess_adds_parens (l l' : list string) :
  preprocess l = Return l' -> adds_parens l l'.
Proof.
  unfold preprocess, wrap_pass.
  destruct (wrap_from 0 (indices_of is_pow l) l) as [l1|e|] eqn:H1; simpl;
    try discriminate.
  destruct (wrap_from 0 (indices_of is_mul l1) l1) as [l2|e|] eqn:H2; simpl;
    try discriminate.
  intros H3.
  apply wrap_from_adds_parens in H1, H2, H3.
  eapply adds_parens_trans; [exact H1|].
  eapply adds_parens_trans; eassumption.
Qed.

(** C5 (amended). Normalizing a normalized lexeme list again, when it
    succeeds, only adds parentheses: operands and operators stay as they
    are, in order, and nothing is removed. The list comes back unchanged
    when it holds no operator. *)
Theorem renormalize_adds_parens (lexems l1 l2 : list string) :
  preprocess lexems = Return l1 ->
  preprocess l1 = Return l2 ->
  adds_parens l1 l2
  /\ (Forall (fun t => is_operator t = false) l1 -> l2 = l1).
Proof.
  intros H1 H2. split.
  - now apply preprocess_adds_parens.
  - intros Hfree. apply preprocess_operator_free in Hfree. congruence.
Qed.

(** ** The evaluator reads the store and never writes it *)

Lemma read_run {A} (self : addr) (f : node -> A) (h : store) (n : node) :
  h !! self = Some n -> read self f h = (Return (f n), h).
Proof. intros H. unfold read. now rewrite H. Qed.

Lemma call_run {A} (frames : nat) (c : M A) : 0 < frames -> call frames c = c.
Proof. destruct frames; [lia | reflexivity]. Qed.

(** With one frame [evaluate] starts and its first getter is refused. *)
Lemma evaluate_one_frame (self : addr) (x : list float) (h : store) :
  evaluate 1 self x h = (Raise RecursionError, h).
Proof. reflexivity. Qed.

(** The body of [evaluate] when the getters get their frame. *)
Lemma evaluate_step (frames : nat) (self : addr) (x : list float) :
  0 < frames ->
  evaluate (S frames) self x =
  (left_operand <- getLeft self ;;
   right_operand <- getRight self ;;
   match left_operand, right_operand with
   | Some l, Some r =>
       tk <- getToken self ;;
       fn <- mlift (ops tk) ;;
       lv <- evaluate frames l x ;;
       rv <- evaluate frames r x ;;
       mlift (fn lv rv)
   | Some l, None => evaluate frames l x
   | None, _ =>
       tk <- getToken self ;;
       if negb (tok_is tk L_eq) then
         if tok_is tk L_x then mret (VArray x) else mret (value_of_tok tk)
       else mraise (ValueError "Missing Operand")
   end).
Proof. intros H. destruct frames; [lia | reflexivity]. Qed.

Lemma evaluate_store (frames : nat) (self : addr) (x : list float) (h : store) :
  snd (evaluate frames self x h) = h.
Proof.
  revert self h. induction frames as [|frames IH]; intros self h; [reflexivity|].
  destruct (Nat.eq_dec frames 0) as [->|Hpos]; [reflexivity|].
  rewrite evaluate_step by lia.
  unfold mbind, getLeft, getRight, getToken, read, mlift, mret, mraise.
  destruct (h !! self) as [n|] eqn:Hn; [|reflexivity].
  simpl; rewrite Hn.
  destruct (left n) as [l|], (right n) as [r|]; rewrite ?Hn; simpl.
  - destruct (ops (token n)) as [fn| |]; try reflexivity.
    pose proof (IH l h) as Hl.
    destruct (evaluate frames l x h) as [[lv| |] h1]; simpl in Hl; subst h1;
      try reflexivity.
    pose proof (IH r h) as Hr.
    destruct (evaluate frames r x h) as [[rv| |] h2]; simpl in Hr; subst h2;
      reflexivity.
  - apply IH.
  - destruct (negb (tok_is (token n) L_eq)); [|reflexivity].
    now destruct (tok_is (token n) L_x).
  - destruct (negb (tok_is (token n) L_eq)); [|reflexivity].
    now destruct (tok_is (token n) L_x).
Qed.

Lemma ops_not_stuck (tk : tok) : ops tk <> Stuck.
Proof.
  destruct tk as [s|v]; simpl; [|discriminate].
  repeat (match goal with |- context [String.eqb ?a ?b] => destruct (String.eqb a b) end;
          try discriminate).
Qed.

Lemma ufunc_not_stuck (f : float -> float -> float)
      (text : value -> value -> option string) (a b : value) :
  ufunc f text a b <> Stuck.
Proof.
  destruct a as [u|l1|s1], b as [v|l2|s2]; simpl;
    try (destruct (text _ _); discriminate); try discriminate.
  destruct (List.length l1 =? List.length l2)%nat; [discriminate|].
  destruct l1 as [|u [|u' l1]], l2 as [|v [|v' l2]]; discriminate.
Qed.

Lemma ops_fn_not_stuck (tk : tok) (fn : value -> value -> outcome value)
      (a b : value) :
  ops tk = Return fn -> fn a b <> Stuck.
Proof.
  destruct tk as [s|v]; simpl; [|discriminate].
  repeat (match goal with |- context [String.eqb ?a ?b] => destruct (String.eqb a b) end;
          try (intros [= <-]; apply ufunc_not_stuck)).
Qed.

(** In a well-formed store [evaluate] follows no dangling address,
    whatever the number of frames. *)
Lemma evaluate_not_stuck (frames : nat) (self : addr) (x : list float) (h : store) :
  wf_store h -> self < List.length h ->
  fst (evaluate frames self x h) <> Stuck.
Proof.
  intros Hwf. revert self. induction frames as [|frames IH]; intros self Hlt.
  - discriminate.
  - destruct (Nat.eq_dec frames 0) as [->|Hpos]; [discriminate|].
    rewrite evaluate_step by lia.
    destruct (lookup_lt_is_Some_2 h self Hlt) as [n Hn].
    unfold mbind, getLeft, getRight, getToken, read, mlift, mret, mraise.
    rewrite Hn; simpl; rewrite Hn; simpl.
    destruct (left n) as [l|] eqn:Hl, (right n) as [r|] eqn:Hr; rewrite ?Hn; simpl.
    + destruct (Hwf self n l Hn (or_introl Hl)) as [Hl1 Hl2].
      destruct (Hwf self n r Hn (or_intror Hr)) as [Hr1 Hr2].
      destruct (ops (token n)) as [fn|e|] eqn:Hops; simpl;
        [| discriminate | now apply ops_not_stuck in Hops].
      pose proof (IH l Hl2) as Hnl.
      pose proof (evaluate_store frames l x h) as Hsl.
      destruct (evaluate frames l x h) as [[lv| |] h1]; simpl in *; subst;
        try discriminate; try congruence.
      pose proof (IH r Hr2) as Hnr.
      pose proof (evaluate_store frames r x h) as Hsr.
      destruct (evaluate frames r x h) as [[rv| |] h2]; simpl in *; subst;
        try discriminate; try congruence.
      eapply ops_fn_not_stuck; eassumption.
    + destruct (Hwf self n l Hn (or_introl Hl)) as [Hl1 Hl2].
      apply IH; lia.
    + destruct (negb (tok_is (token n) L_eq)); [|discriminate].
      destruct (tok_is (token n) L_x); discriminate.
    + destruct (negb (tok_is (token n) L_eq)); [|discriminate].
      destruct (tok_is (token n) L_x); discriminate.
Qed.

Lemma ops_no_recursion_error (tk : tok) : ops tk <> Raise RecursionError.
Proof.
  destruct tk as [s|v]; simpl; [|discriminate].
  repeat (match goal with |- context [String.eqb ?a ?b] => destruct (String.eqb a b) end;
          try discriminate).
Qed.

Lemma ufunc_no_recursion_error (f : float -> float -> float)
      (text : value -> value -> option string) (a b : value) :
  ufunc f text a b <> Raise RecursionError.
Proof.
  destruct a as [u|l1|s1], b as [v|l2|s2]; simpl;
    try (destruct (text _ _); discriminate); try discriminate.
  destruct (List.length l1 =? List.length l2)%nat; [discriminate|].
  destruct l1 as [|u [|u' l1]], l2 as [|v [|v' l2]]; discriminate.
Qed.

Lemma ops_fn_no_recursion_error (tk : tok) (fn : value -> value -> outcome value)
      (a b : value) :
  ops tk = Return fn -> fn a b <> Raise RecursionError.
Proof.
  destruct tk as [s|v]; simpl; [|discriminate].
  repeat (match goal with |- context [String.eqb ?a ?b] => destruct (String.eqb a b) end;
          try (intros [= <-]; apply ufunc_no_recursion_error)).
Qed.

(** A path from a node down its children passes each object of the store
    at most once, so [length h - self] calls of [evaluate] and the frame
    of a getter are enough: the recursion limit is not met. *)
Lemma evaluate_enough_frames (frames : nat) (self : addr) (x : list float)
      (h : store) :
  wf_store h -> self < List.length h -> List.length h + 1 <= frames + self ->
  fst (evaluate frames self x h) <> Raise RecursionError.
Proof.
  intros Hwf. revert self. induction frames as [|frames IH]; intros self Hlt Hfuel.
  - lia.
  - rewrite evaluate_step by lia.
    destruct (lookup_lt_is_Some_2 h self Hlt) as [n Hn].
    unfold mbind, getLeft, getRight, getToken, read, mlift, mret, mraise.
    rewrite Hn; simpl; rewrite Hn; simpl.
    destruct (left n) as [l|] eqn:Hl, (right n) as [r|] eqn:Hr; rewrite ?Hn; simpl.
    + destruct (Hwf self n l Hn (or_introl Hl)) as [Hl1 Hl2].
      destruct (Hwf self n r Hn (or_intror Hr)) as [Hr1 Hr2].
      destruct (ops (token n)) as [fn|e|] eqn:Hops; simpl;
        [| intros [= ->]; now apply ops_no_recursion_error in Hops | discriminate].
      pose proof (IH l Hl2 ltac:(lia)) as Hnl.
      pose proof (evaluate_store frames l x h) as Hsl.
      destruct (evaluate frames l x h) as [[lv| |] h1]; simpl in *; subst;
        try discriminate; try congruence.
      pose proof (IH r Hr2 ltac:(lia)) as Hnr.
      pose proof (evaluate_store frames r x h) as Hsr.
      destruct (evaluate frames r x h) as [[rv| |] h2]; simpl in *; subst;
        try discriminate; try congruence.
      eapply ops_fn_no_recursion_error; eassumption.
    + destruct (Hwf self n l Hn (or_introl Hl)) as [Hl1 Hl2].
      apply IH; lia.
    + destruct (negb (tok_is (token n) L_eq)); [|discriminate].
      destruct (tok_is (token n) L_x); discriminate.
    + destruct (negb (tok_is (token n) L_eq)); [|discriminate].
      destruct (tok_is (token n) L_x); discriminate.
Qed.

(** ** The methods of [_BinaryTreeNode] on the store *)

Lemma write_run (self : addr) (f : node -> node) (h : store) (n : node) :
  h !! self = Some n -> write self f h = (Return tt, <[self := f n]> h).
Proof. intros H. unfold write. now rewrite H. Qed.

Lemma insertLeft_run (self : addr) (tk : tok) (h : store) (n : node) :
  h !! self = Some n ->
  insertLeft self tk h
  = (Return tt,
     attach h self (Node (token n) (Some (List.length h)) (right n)) (Node tk None None)).
Proof.
  intros H. unfold insertLeft, mbind, new_node.
  now rewrite (write_run _ _ _ n) by now apply lookup_app_l_Some.
Qed.

Lemma insertRight_run (self : addr) (tk : tok) (h : store) (n : node) :
  h !! self = Some n ->
  insertRight self tk h
  = (Return tt,
     attach h self (Node (token n) (left n) (Some (List.length h))) (Node tk None None)).
Proof.
  intros H. unfold insertRight, mbind, new_node.
  now rewrite (write_run _ _ _ n) by now apply lookup_app_l_Some.
Qed.

Lemma attach_length (h : store) (self : addr) (n' new : node) :
  List.length (attach h self n' new) = S (List.length h).
Proof. unfold attach. rewrite length_insert, length_app. simpl. lia. Qed.

Lemma attach_lookup_self (h : store) (self : addr) (n' new : node) :
  self < List.length h -> attach h self n' new !! self = Some n'.
Proof.
  intros H. unfold attach. apply list_lookup_insert_eq.
  rewrite length_app. simpl. lia.
Qed.

Lemma attach_lookup_new (h : store) (self : addr) (n' new : node) :
  self < List.length h -> attach h self n' new !! List.length h = Some new.
Proof.
  intros H. unfold attach. rewrite list_lookup_insert_ne by lia.
  now rewrite lookup_app_r, Nat.sub_diag by lia.
Qed.

Lemma attach_lookup_other (h : store) (self a : addr) (n' new : node) :
  a <> self -> a < List.length h -> attach h self n' new !! a = h !! a.
Proof.
  intros Hne Hlt. unfold attach. rewrite list_lookup_insert_ne by congruence.
  now apply lookup_app_l.
Qed.

(** One iteration of the builder, written out on the store. *)
Lemma parse_step_run (h : store) (cur : addr) (stack : list addr) (tk : string)
      (n : node) :
  h !! cur = Some n ->
  parse_step (cur, stack) tk h =
    let a := List.length h in
    let group := Node (TStr L_eq) None None in
    if String.eqb tk L_open then
      match left n with
      | None =>
          (Return (a, cur :: stack),
           attach h cur (Node (token n) (Some a) (right n)) group)
      | Some _ =>
          (Return (a, stack),
           attach h cur (Node (token n) (left n) (Some a)) group)
      end
    else if is_operator tk then
      (Return (a, stack), attach h cur (Node (TStr tk) (left n) (Some a)) group)
    else if String.eqb tk L_close then
      (Return (match stack with top :: rest => (top, rest) | [] => (cur, stack) end), h)
    else if String.eqb tk L_x then
      (Return (cur, stack),
       attach h cur (Node (token n) (Some a) (right n)) (Node (TStr tk) None None))
    else
      match pyfloat tk with
      | None => (Raise (unknown_variable tk), h)
      | Some v =>
          (Return (cur, stack),
           attach h cur (Node (token n) (Some a) (right n)) (Node (TFloat v) None None))
      end.
Proof.
  intros Hn. pose proof (lookup_lt_Some _ _ _ Hn) as Hlt.
  unfold parse_step. cbv zeta.
  destruct (String.eqb tk L_open).
  { unfold mbind at 1. unfold getLeft at 1. rewrite (read_run _ _ _ n Hn).
    destruct (left n) as [l|] eqn:Hl.
    - unfold mbind. rewrite (insertRight_run _ _ _ n Hn).
      unfold getRight. erewrite read_run by now apply attach_lookup_self.
      simpl. now rewrite Hl.
    - unfold mbind. rewrite (insertLeft_run _ _ _ n Hn).
      unfold getLeft. erewrite read_run by now apply attach_lookup_self.
      reflexivity. }
  destruct (is_operator tk).
  { unfold mbind, setToken. rewrite (write_run _ _ _ n Hn).
    erewrite insertRight_run by (apply list_lookup_insert_eq; exact Hlt).
    unfold getRight. erewrite read_run
      by (apply attach_lookup_self; now rewrite length_insert).
    simpl. unfold attach, mret. rewrite length_insert. f_equal.
    rewrite <- insert_app_l by exact Hlt. apply list_insert_insert_eq. }
  destruct (String.eqb tk L_close).
  { now destruct stack. }
  destruct (String.eqb tk L_x).
  { unfold mbind. now rewrite (insertLeft_run _ _ _ n Hn). }
  destruct (pyfloat tk) as [v|]; [|reflexivity].
  unfold mbind. now rewrite (insertLeft_run _ _ _ n Hn).
Qed.

(** ** The builder keeps the store a forest of valid references *)

Lemma wf_store_attach (h : store) (cur : addr) (n n' new : node) :
  wf_store h -> h !! cur = Some n ->
  left new = None -> right new = None ->
  (forall c, left n' = Some c \/ right n' = Some c ->
             c = List.length h \/ left n = Some c \/ right n = Some c) ->
  wf_store (attach h cur n' new).
Proof.
  intros Hwf Hn Hnl Hnr Hch a m c Ha Hc.
  pose proof (lookup_lt_Some _ _ _ Hn) as Hlt.
  pose proof (lookup_lt_Some _ _ _ Ha) as Hlta.
  rewrite attach_length in *.
  destruct (decide (a = cur)) as [->|Hne].
  - rewrite attach_lookup_self in Ha by exact Hlt. injection Ha as <-.
    destruct (Hch c Hc) as [-> | Hold]; [lia|].
    destruct (Hwf cur n c Hn Hold). lia.
  - destruct (decide (a = List.length h)) as [->|Hne'].
    + rewrite attach_lookup_new in Ha by exact Hlt. injection Ha as <-.
      destruct Hc; congruence.
    + rewrite attach_lookup_other in Ha by (try exact Hne; lia).
      destruct (Hwf a m c Ha Hc). lia.
Qed.

Lemma Forall_lt_S (l : list addr) (k : nat) :
  Forall (fun a => a < k) l -> Forall (fun a => a < S k) l.
Proof. intros H. eapply Forall_impl; [exact H|]. intros a Ha. simpl in Ha. lia. Qed.

Lemma parse_step_wf (h h' : store) (st : addr * list addr) (tk : string)
      (o : outcome (addr * list addr)) :
  wf_state h st -> parse_step st tk h = (o, h') ->
  match o with
  | Return st' => wf_state h' st'
  | Raise _ => True
  | Stuck => False
  end.
Proof.
  destruct st as [cur stack]. intros (Hwf & Hcur & Hstack). simpl in Hcur, Hstack.
  destruct (lookup_lt_is_Some_2 h cur Hcur) as [n Hn].
  rewrite (parse_step_run _ _ _ _ n Hn). cbv zeta.
  destruct (String.eqb tk L_open).
  { destruct (left n) as [l|] eqn:Hl; intros [= <- <-]; unfold wf_state; simpl;
      rewrite attach_length; (split; [|split; [lia|]]).
    - eapply wf_store_attach; [exact Hwf | exact Hn | reflexivity | reflexivity |].
      simpl. intros c [Hc|Hc]; [right; left; congruence | left; congruence].
    - now apply Forall_lt_S.
    - eapply wf_store_attach; [exact Hwf | exact Hn | reflexivity | reflexivity |].
      simpl. intros c [Hc|Hc]; [left; congruence | right; right; congruence].
    - constructor; [lia | now apply Forall_lt_S]. }
  destruct (is_operator tk).
  { intros [= <- <-]. unfold wf_state; simpl. rewrite attach_length.
    split; [|split; [lia | now apply Forall_lt_S]].
    eapply wf_store_attach; [exact Hwf | exact Hn | reflexivity | reflexivity |].
    simpl. intros c [Hc|Hc]; [right; left; congruence | left; congruence]. }
  destruct (String.eqb tk L_close).
  { intros [= <- <-]. destruct stack as [|top rest]; unfold wf_state; simpl.
    - auto.
    - inversion Hstack; subst. auto. }
  assert (Hleaf : forall new, left new = None -> right new = None ->
            wf_state (attach h cur (Node (token n) (Some (List.length h)) (right n)) new)
                     (cur, stack)).
  { intros new Hnl Hnr. unfold wf_state; simpl. rewrite attach_length.
    split; [|split; [lia | now apply Forall_lt_S]].
    eapply wf_store_attach; [exact Hwf | exact Hn | exact Hnl | exact Hnr |].
    simpl. intros c [Hc|Hc]; [left; congruence | right; right; congruence]. }
  destruct (String.eqb tk L_x).
  { intros [= <- <-]. now apply Hleaf. }
  destruct (pyfloat tk) as [v|]; intros [= <- <-]; [now apply Hleaf | exact I].
Qed.

Lemma parse_loop_wf (lexems : list string) (h h' : store) (st : addr * list addr)
      (o : outcome (addr * list addr)) :
  wf_state h st -> parse_loop lexems st h = (o, h') ->
  match o with
  | Return st' => wf_state h' st'
  | Raise _ => True
  | Stuck => False
  end.
Proof.
  revert h st. induction lexems as [|tk rest IH]; intros h st Hst; simpl.
  - intros [= <- <-]. exact Hst.
  - unfold mbind. destruct (parse_step st tk h) as [o1 h1] eqn:Hstep.
    pose proof (parse_step_wf _ _ _ _ _ Hst Hstep) as H1.
    destruct o1 as [st1|e|]; [| intros [= <- <-]; exact I | destruct H1].
    apply IH. exact H1.
Qed.

Lemma wf_state_initial :
  wf_state [Node (TStr L_eq) None None] (0, []).
Proof.
  unfold wf_state; simpl. split; [|split; [lia | constructor]].
  intros a n c Ha Hc. destruct a as [|a]; simpl in Ha; [|discriminate].
  injection Ha as <-. destruct Hc; discriminate.
Qed.

(** A successful [parse] yields a well-formed store that holds the root. *)
Lemma run_parse_wf (expr : string) (p : parsed) :
  run_parse expr = Return p ->
  wf_store (heap p) /\ ast p < List.length (heap p).
Proof.
  unfold run_parse, parse, build, mbind, new_node, mlift. simpl.
  destruct (tockenize expr) as [lexems|e|]; try discriminate.
  destruct (parse_loop lexems (0, []) [Node (TStr L_eq) None None])
    as [o h'] eqn:Hloop.
  pose proof (parse_loop_wf _ _ _ _ _ wf_state_initial Hloop) as Hwf.
  destruct o as [[cur stack]|e|]; try discriminate.
  simpl. destruct (0 <? List.length stack)%nat; simpl; try discriminate.
  intros [= <-]. simpl. destruct Hwf as (Hwf & Hcur & _). simpl in Hcur.
  split; [exact Hwf | lia].
Qed.

(** The normalizer never gets stuck: it has no [Stuck] outcome at all. *)
Lemma scan_left_not_stuck (lexems : list string) (n : nat) (count : Z) :
  scan_left lexems n count <> Stuck.
Proof.
  revert count. induction n as [|n IH]; intros count; simpl; [discriminate|].
  destruct (lexems !! n) as [t|]; [|discriminate].
  destruct (String.eqb t L_close); [apply IH|].
  destruct (_ =? 0)%Z; [discriminate | apply IH].
Qed.

Lemma scan_right_not_stuck (lexems : list string) (todo ptr : nat) (count : Z) :
  scan_right lexems todo ptr count <> Stuck.
Proof.
  revert ptr count. induction todo as [|n IH]; intros ptr count; simpl; [discriminate|].
  destruct (lexems !! ptr) as [t|]; [|discriminate].
  destruct (String.eqb t L_open); [apply IH|].
  destruct (_ =? 0)%Z; [discriminate | apply IH].
Qed.

Lemma insertParanthesesAround_not_stuck (lexems : list string) (index : nat) :
  insertParanthesesAround lexems index <> Stuck.
Proof.
  unfold insertParanthesesAround.
  pose proof (scan_left_not_stuck lexems index 0) as Hl.
  destruct (scan_left lexems index 0) as [[l1 c1]|e|]; simpl; try discriminate;
    [|congruence].
  destruct (negb (c1 =? 0)%Z); [discriminate|].
  destruct (List.length l1 <=? index + 2)%nat; [discriminate|].
  pose proof (scan_right_not_stuck l1 (List.length l1 - (index + 2)) (index + 2) c1) as Hr.
  destruct (scan_right l1 _ _ c1) as [[l2 c2]|e|]; simpl; try discriminate;
    [|congruence].
  destruct (negb (c2 =? 0)%Z); discriminate.
Qed.

Lemma wrap_from_not_stuck (indices : list nat) (i : nat) (lexems : list string) :
  wrap_from i indices lexems <> Stuck.
Proof.
  revert i lexems. induction indices as [|idx rest IH]; intros i lexems; simpl;
    [discriminate|].
  pose proof (insertParanthesesAround_not_stuck lexems (idx + (i + (i + 0)))) as H.
  destruct (insertParanthesesAround lexems _) as [l|e|]; simpl;
    [apply IH | discriminate | congruence].
Qed.

Lemma tockenize_not_stuck (expr : string) : tockenize expr <> Stuck.
Proof.
  unfold tockenize, preprocess, wrap_pass.
  generalize (lexems_of expr). intros l0.
  pose proof (wrap_from_not_stuck (indices_of is_pow l0) 0 l0) as H1.
  destruct (wrap_from 0 (indices_of is_pow l0) l0) as [l1|e|]; simpl;
    [|discriminate|congruence].
  pose proof (wrap_from_not_stuck (indices_of is_mul l1) 0 l1) as H2.
  destruct (wrap_from 0 (indices_of is_mul l1) l1) as [l2|e|]; simpl;
    [|discriminate|congruence].
  apply wrap_from_not_stuck.
Qed.

(** [parse] returns a tree or raises: the model never follows a dangling
    reference. *)
Lemma parse_never_stuck (expr : string) : run_parse expr <> Stuck.
Proof.
  unfold run_parse, parse, build, mbind, new_node, mlift. simpl.
  pose proof (tockenize_not_stuck expr) as Ht.
  destruct (tockenize expr) as [lexems|e|]; [|discriminate|congruence].
  destruct (parse_loop lexems (0, []) [Node (TStr L_eq) None None])
    as [o h'] eqn:Hloop.
  pose proof (parse_loop_wf _ _ _ _ _ wf_state_initial Hloop) as Hwf.
  destruct o as [[cur stack]|e|]; [|discriminate|destruct Hwf].
  simpl. destruct (0 <? List.length stack)%nat; discriminate.
Qed.

(** Evaluating a parsed tree returns or raises, whatever the number of
    frames. *)
Lemma evaluate_parsed_not_stuck (frames : nat) (expr : string) (p : parsed)
      (x : list float) :
  run_parse expr = Return p -> fst (AP_evaluate frames p x) <> Stuck.
Proof.
  intros Hp. destruct (run_parse_wf _ _ Hp) as [Hwf Hlt].
  unfold AP_evaluate. destruct frames as [|frames]; [discriminate|].
  apply evaluate_not_stuck; [exact Hwf | exact Hlt].
Qed.

(** ** Repeated evaluation *)

Lemma AP_evaluate_store (frames : nat) (p : parsed) (x : list float) :
  snd (AP_evaluate frames p x) = heap p.
Proof. destruct frames; [reflexivity | apply evaluate_store]. Qed.

Lemma evaluate_each_frame (frames : nat) (p : parsed) (xs : list (list float)) :
  evaluate_each frames p xs
  = (List.map (fun x => fst (AP_evaluate frames p x)) xs, p).
Proof.
  induction xs as [|x xs IH]; simpl; [reflexivity|].
  pose proof (AP_evaluate_store frames p x) as Hs.
  destruct (AP_evaluate frames p x) as [r h'] eqn:Hx. simpl in Hs. subst h'.
  replace (Parsed (heap p) (ast p)) with p by now destruct p.
  now rewrite IH.
Qed.

(** C9. Evaluating a parsed tree leaves the store, hence every node's
    token and children, as it was: a run of evaluations over any sample
    arrays ends on the same parser state, each evaluation gives the
    outcome a first evaluation on that array gives, and that outcome is a
    value or a Python exception. This holds whatever the number of frames
    the interpreter grants, also when the evaluation ends in
    [RecursionError]. *)
Theorem evaluate_leaves_tree_unchanged (frames : nat) (expr : string)
        (p : parsed) (xs : list (list float)) :
  run_parse expr = Return p ->
  evaluate_each frames p xs
  = (List.map (fun x => fst (AP_evaluate frames p x)) xs, p)
  /\ (forall x, snd (AP_evaluate frames p x) = heap p)
  /\ (forall x, fst (AP_evaluate frames p x) <> Stuck).
Proof.
  intros Hp. split; [apply evaluate_each_frame|].
  split; intros x; [apply AP_evaluate_store|].
  eapply evaluate_parsed_not_stuck; exact Hp.
Qed.

(** ** Groups left open at the end of the input *)

Lemma count_tok_cons (t tk : string) (l : list string) :
  count_tok t (tk :: l) = (if String.eqb t tk then 1 else 0) + count_tok t l.
Proof. unfold count_tok. simpl. now destruct (String.eqb t tk). Qed.

Lemma is_operator_not_paren (tk : string) :
  is_operator tk = true ->
  String.eqb L_open tk = false /\ String.eqb L_close tk = false.
Proof.
  intros H. split.
  - destruct (String.eqb L_open tk) eqn:E; [|reflexivity].
    apply String.eqb_eq in E. subst tk. discriminate H.
  - destruct (String.eqb L_close tk) eqn:E; [|reflexivity].
    apply String.eqb_eq in E. subst tk. discriminate H.
Qed.

(** The frame stack grows by one at every tracked opening parenthesis and
    shrinks by at most one at a closing one. *)
Lemma parse_loop_depth (lexems : list string) :
  forall (h h' : store) (cur : addr) (stack : list addr) (fresh : bool)
         (o : outcome (addr * list addr)),
    wf_state h (cur, stack) ->
    opens_tracked fresh lexems = true ->
    (fresh = true -> exists n, h !! cur = Some n /\ left n = None) ->
    parse_loop lexems (cur, stack) h = (o, h') ->
    match o with
    | Return st' =>
        List.length stack + count_tok L_open lexems
        <= List.length (snd st') + count_tok L_close lexems
    | Raise e => exists tk, In tk lexems /\ pyfloat tk = None /\ e = unknown_variable tk
    | Stuck => False
    end.
Proof.
  induction lexems as [|tk rest IH]; intros h h' cur stack fresh o Hst Htr Hfresh.
  { simpl. intros [= <- <-]. simpl. unfold count_tok. simpl. lia. }
  change (parse_loop (tk :: rest) (cur, stack) h)
    with (mbind (parse_step (cur, stack) tk) (fun st' => parse_loop rest st') h).
  unfold mbind.
  destruct (parse_step (cur, stack) tk h) as [o1 h1] eqn:Hstep.
  pose proof (parse_step_wf _ _ _ _ _ Hst Hstep) as Hwf1.
  assert (Hcur : cur < List.length h) by (destruct Hst as (_ & Hc & _); exact Hc).
  destruct (lookup_lt_is_Some_2 h cur Hcur) as [n Hn].
  rewrite (parse_step_run _ _ _ _ n Hn) in Hstep. cbv zeta in Hstep.
  rewrite !count_tok_cons. simpl in Htr.
  rewrite (String.eqb_sym L_open tk), (String.eqb_sym L_close tk).
  destruct (String.eqb tk L_open) eqn:Eopen.
  { apply String.eqb_eq in Eopen. subst tk.
    apply andb_prop in Htr. destruct Htr as [-> Htr].
    destruct (Hfresh eq_refl) as (n0 & Hn0 & Hleft).
    assert (n0 = n) by congruence. subst n0. rewrite Hleft in Hstep.
    injection Hstep as <- <-. intros Hloop.
    eapply (IH _ _ _ _ true) in Hloop; [| exact Hwf1 | exact Htr |].
    - destruct o as [st'|e|]; [| |exact Hloop].
      + simpl in *. lia.
      + destruct Hloop as (t & Hin & Hrest). exists t. split; [now right | exact Hrest].
    - intros _. eexists. split; [now apply attach_lookup_new | reflexivity]. }
  destruct (is_operator tk) eqn:Eop.
  { destruct (is_operator_not_paren tk Eop) as [_ Hnc].
    rewrite (String.eqb_sym L_close tk) in Hnc. rewrite Hnc.
    injection Hstep as <- <-. intros Hloop.
    eapply (IH _ _ _ _ true) in Hloop; [| exact Hwf1 | exact Htr |].
    - destruct o as [st'|e|]; [| |exact Hloop].
      + simpl in *. lia.
      + destruct Hloop as (t & Hin & Hrest). exists t. split; [now right | exact Hrest].
    - intros _. eexists. split; [now apply attach_lookup_new | reflexivity]. }
  assert (Hnofresh : false = true -> exists n1 : node, h1 !! fst (cur, stack) = Some n1 /\ left n1 = None)
    by discriminate.
  destruct (String.eqb tk L_close) eqn:Eclose.
  { injection Hstep as <- <-. intros Hloop.
    destruct stack as [|top stack'].
    - eapply (IH _ _ _ _ false) in Hloop; [| exact Hwf1 | exact Htr | discriminate].
      destruct o as [st'|e|]; [| |exact Hloop].
      + simpl in *. lia.
      + destruct Hloop as (t & Hin & Hrest). exists t. split; [now right | exact Hrest].
    - eapply (IH _ _ _ _ false) in Hloop; [| exact Hwf1 | exact Htr | discriminate].
      destruct o as [st'|e|]; [| |exact Hloop].
      + simpl in *. lia.
      + destruct Hloop as (t & Hin & Hrest). exists t. split; [now right | exact Hrest]. }
  destruct (String.eqb tk L_x) eqn:Ex.
  { injection Hstep as <- <-. intros Hloop.
    eapply (IH _ _ _ _ false) in Hloop; [| exact Hwf1 | exact Htr | discriminate].
    destruct o as [st'|e|]; [| |exact Hloop].
    - simpl in *. lia.
    - destruct Hloop as (t & Hin & Hrest). exists t. split; [now right | exact Hrest]. }
  destruct (pyfloat tk) as [v|] eqn:Efloat.
  { injection Hstep as <- <-. intros Hloop.
    eapply (IH _ _ _ _ false) in Hloop; [| exact Hwf1 | exact Htr | discriminate].
    destruct o as [st'|e|]; [| |exact Hloop].
    - simpl in *. lia.
    - destruct Hloop as (t & Hin & Hrest). exists t. split; [now right | exact Hrest]. }
  injection Hstep as <- <-. intros [= <- <-].
  exists tk. split; [now left | auto].
Qed.

(** X21. What the builder's final check does catch. If the normalized
    lexeme list has more opening than closing parentheses and every
    opening parenthesis is the first lexeme or directly follows an opening
    parenthesis or an operator, [parse] raises and stores no tree:
    [SyntaxError("Too few closing parantheses")], or the [NameError] of
    an unknown lexeme met first. *)
Theorem unclosed_groups_rejected (expr : string) (lexems : list string) :
  tockenize expr = Return lexems ->
  opens_tracked true lexems = true ->
  count_tok L_close lexems < count_tok L_open lexems ->
  exists e, run_parse expr = Raise e
    /\ (e = SyntaxError "Too few closing parantheses"
        \/ exists tk, In tk lexems /\ pyfloat tk = None /\ e = unknown_variable tk).
Proof.
  intros Htok Htr Hcount.
  unfold run_parse, parse, build, mbind, new_node, mlift. simpl. rewrite Htok.
  destruct (parse_loop lexems (0, []) [Node (TStr L_eq) None None])
    as [o h'] eqn:Hloop.
  eapply (parse_loop_depth _ _ _ _ _ true) in Hloop;
    [| exact wf_state_initial | exact Htr
     | intros _; eexists; split; reflexivity].
  destruct o as [[cur stack]|e|]; [| |destruct Hloop].
  - simpl in Hloop. cbn [snd].
    destruct (0 <? List.length stack)%nat eqn:E.
    + eexists. split; [reflexivity | now left].
    + apply Nat.ltb_ge in E. lia.
  - exists e. split; [reflexivity | now right].
Qed.

(** ** The documented examples *)

(** C7. The two mismatched inputs of the test suite fail during
    normalization, each with the message of its side. *)
Theorem mismatched_parentheses_sides :
  tockenize "(3 + 2))^2" = Raise (SyntaxError "Too many closing parantheses")
  /\ run_parse "(3 + 2))^2" = Raise (SyntaxError "Too many closing parantheses")
  /\ tockenize "2^((2)" = Raise (SyntaxError "Too few closing parantheses")
  /\ run_parse "2^((2)" = Raise (SyntaxError "Too few closing parantheses").
Proof. repeat split; reflexivity. Qed.

(** C8. With [float("3") = 3.0] and [float("2") = 2.0], the formula
    [3 + x * 2] parses and evaluates at [1, 2, 3, 4, 5] to
    [5, 7, 9, 11, 13]: the product is grouped before the sum. The
    evaluation nests eight calls, and any larger number of frames gives
    the same. *)
Theorem precedence_example (frames : nat) :
  pyfloat "3" = Some 3%float -> pyfloat "2" = Some 2%float ->
  tockenize "3 + x * 2" = Return ["("; "3"; "+"; "("; "x"; "*"; "2"; ")"; ")"]
  /\ parse_then_evaluate (8 + frames) "3 + x * 2" [1; 2; 3; 4; 5]%float
     = Return (VArray [5; 7; 9; 11; 13]%float).
Proof.
  intros H3 H2. split; [reflexivity|].
  eassert (Hp : run_parse "3 + x * 2" = _).
  { unfold run_parse, parse. cbv. rewrite H3. cbv. rewrite H2. reflexivity. }
  unfold parse_then_evaluate. rewrite Hp. reflexivity.
Qed.

(** C10. The empty formula parses to the bare root placeholder, and every
    evaluation of it raises [ValueError("Missing Operand")]: on every
    sample array and with any number of frames from the three that the
    method, the root's [evaluate] and a getter take. *)
Theorem parse_empty :
  run_parse EmptyString = Return (Parsed [Node (TStr "=") None None] 0)
  /\ forall (frames : nat) (x : list float),
       AP_evaluate (3 + frames) (Parsed [Node (TStr "=") None None] 0) x
       = (Raise (ValueError "Missing Operand"), [Node (TStr "=") None None]).
Proof. split; [reflexivity | intros frames x; reflexivity]. Qed.

(** The other cases of the repository's test suite. *)
Example test_unkown_variable :
  pyfloat "z" = None ->
  run_parse "z + 10" = Raise (NameError "Unknown variable ('z')").
Proof.
  intros Hz. unfold run_parse, parse. cbv. rewrite Hz. reflexivity.
Qed.

Example test_missing_operand (frames : nat) (x : list float) :
  pyfloat "3" = Some 3%float ->
  parse_then_evaluate (5 + frames) "3 + " x = Raise (ValueError "Missing Operand").
Proof.
  intros H3.
  eassert (Hp : run_parse "3 + " = _).
  { unfold run_parse, parse. cbv. rewrite H3. reflexivity. }
  unfold parse_then_evaluate. rewrite Hp. reflexivity.
Qed.

Example test_parantheses :
  pyfloat "3" = Some 3%float -> pyfloat "2" = Some 2%float ->
  parse_then_evaluate 8 "(3 + x) * 2" [1; 2; 3; 4; 5]%float
  = Return (VArray [8; 10; 12; 14; 16]%float).
Proof.
  intros H3 H2.
  eassert (Hp : run_parse "(3 + x) * 2" = _).
  { unfold run_parse, parse. cbv. rewrite H3. cbv. rewrite H2. reflexivity. }
  unfold parse_then_evaluate. rewrite Hp. reflexivity.
Qed.

(** ** Where the code departs from its intent *)

(** C1 (the code at the failing input). [x+(x+x)] is a well-formed
    formula, yet [parse] raises [SyntaxError]: the second [+], nested in
    the right operand of the first, is looked up two places to the right
    of where it is. *)
Theorem nested_same_tier_rejected :
  well_formed (lexems_of "x+(x+x)")
  /\ run_parse "x+(x+x)" = Raise (SyntaxError "Too few closing parantheses").
Proof.
  split; [|reflexivity].
  change (lexems_of "x+(x+x)")
    with (["x"] ++ "+" :: (L_open :: (["x"] ++ "+" :: ["x"]) ++ [L_close])).
  assert (Hx : well_formed ["x"]) by (apply wf_operand; reflexivity).
  apply wf_binary; [exact Hx | reflexivity |].
  apply wf_paren. apply wf_binary; [exact Hx | reflexivity | exact Hx].
Qed.

(** The same slip on other everyday formulas. *)
Example nested_same_tier_more :
  tockenize "1+(2+3)" = Raise (SyntaxError "Too few closing parantheses")
  /\ tockenize "(x+1)-(x+2)" = Raise (SyntaxError "Too few closing parantheses")
  /\ tockenize "x+2*(x+1)" = Raise (SyntaxError "Too few closing parantheses").
Proof. repeat split; reflexivity. Qed.

(** C2 (the code at the failing input). In the [+ -] pass over
    [x + ( x + x )] the recorded indices are 1 and 4; once the first
    occurrence is wrapped, its closing parenthesis lies after the second
    one, which has moved by one place only: position [4 + 2 * 1] holds
    the operand [x], and the operator is at position 5. *)
Theorem offsets_lose_track :
  indices_of is_add (lexems_of "x+(x+x)") = [1; 4]
  /\ insertParanthesesAround (lexems_of "x+(x+x)") (1 + 2 * 0)
     = Return ["("; "x"; "+"; "("; "x"; "+"; "x"; ")"; ")"]
  /\ ["("; "x"; "+"; "("; "x"; "+"; "x"; ")"; ")"] !! (4 + 2 * 1) = Some "x"
  /\ ["("; "x"; "+"; "("; "x"; "+"; "x"; ")"; ")"] !! 5 = Some "+"
  /\ ~ offsets_track is_add (lexems_of "x+(x+x)").
Proof.
  repeat split; try reflexivity.
  intros H.
  specialize (H 1 4 ["("; "x"; "+"; "("; "x"; "+"; "x"; ")"; ")"] eq_refl eq_refl).
  discriminate H.
Qed.

(** C3 (the code at the failing input). [x(x)] parses: the opening
    parenthesis met at a node whose left slot is filled gives that node a
    right child and leaves its token [=]. Evaluation then looks [=] up in
    the operator table and raises [KeyError], on every sample array and
    with any number of frames from the three it takes to get there. *)
Theorem juxtaposition_key_error (frames : nat) (x : list float) :
  run_parse "x(x)"
  = Return (Parsed [Node (TStr "=") (Some 1) (Some 2);
                    Node (TStr "x") None None;
                    Node (TStr "=") (Some 3) None;
                    Node (TStr "x") None None] 0)
  /\ parse_then_evaluate (3 + frames) "x(x)" x = Raise (KeyError (TStr "=")).
Proof. split; reflexivity. Qed.

(** C4 (the code at the failing inputs). The lexemes of [x+x)], [(x+x))]
    and [x)] hold a closing parenthesis that nothing opened, those of
    [x(x] an opening one that nothing closes, and [parse] returns a tree
    for each:
    the normalizer lets [x+x)] through with its spare parenthesis, the
    builder skips a closing parenthesis met with an empty frame stack, and
    it pushes no frame for an opening parenthesis met at a node whose left
    slot is filled. The tree of [x(x] is the one of [x(x)], on which
    evaluation raises [KeyError]. The sibling input of the test suite,
    [(3 + 2))^2], is rejected, as the docstrings promise for every
    mismatch. *)
Theorem unbalanced_inputs_accepted (frames : nat) (x : list float) :
  count_tok L_open (lexems_of "x+x)") < count_tok L_close (lexems_of "x+x)")
  /\ tockenize "x+x)" = Return ["("; "x"; "+"; "x"; ")"; ")"]
  /\ run_parse "x+x)"
     = Return (Parsed [Node (TStr "=") (Some 1) None;
                       Node (TStr "+") (Some 2) (Some 3);
                       Node (TStr "x") None None;
                       Node (TStr "=") (Some 4) None;
                       Node (TStr "x") None None] 0)
  /\ count_tok L_open (lexems_of "(x+x))") < count_tok L_close (lexems_of "(x+x))")
  /\ run_parse "(x+x))"
     = Return (Parsed [Node (TStr "=") (Some 1) None;
                       Node (TStr "=") (Some 2) None;
                       Node (TStr "+") (Some 3) (Some 4);
                       Node (TStr "x") None None;
                       Node (TStr "=") (Some 5) None;
                       Node (TStr "x") None None] 0)
  /\ count_tok L_open (lexems_of "x)") < count_tok L_close (lexems_of "x)")
  /\ run_parse "x)"
     = Return (Parsed [Node (TStr "=") (Some 1) None;
                       Node (TStr "x") None None] 0)
  /\ count_tok L_close (lexems_of "x(x") < count_tok L_open (lexems_of "x(x")
  /\ run_parse "x(x"
     = Return (Parsed [Node (TStr "=") (Some 1) (Some 2);
                       Node (TStr "x") None None;
                       Node (TStr "=") (Some 3) None;
                       Node (TStr "x") None None] 0)
  /\ run_parse "x(x" = run_parse "x(x)"
  /\ parse_then_evaluate (3 + frames) "x(x" x = Raise (KeyError (TStr "="))
  /\ run_parse "(3 + 2))^2" = Raise (SyntaxError "Too many closing parantheses").
Proof.
  split; [apply Nat.lt_0_1|]. split; [reflexivity|]. split; [reflexivity|].
  split; [apply Nat.lt_succ_diag_r|]. split; [reflexivity|].
  split; [apply Nat.lt_0_1|]. split; [reflexivity|].
  split; [apply Nat.lt_0_1|]. repeat split; reflexivity.
Qed.

(** An operator with no left operand keeps its lexeme as the node's
    token and its left slot empty: [evaluate] returns the lexeme. *)
Example evaluate_returns_lexeme (frames : nat) (x : list float) :
  parse_then_evaluate (3 + frames) "-(x" x = Return (VStr "-").
Proof. reflexivity. Qed.

(** * Further properties of the evaluator *)

Lemma zip_with_float_length (f : float -> float -> float) (a b : list float) :
  List.length a = List.length b ->
  List.length (zip_with_float f a b) = List.length a.
Proof.
  revert b. induction a as [|u a IH]; intros [|v b]; simpl; try discriminate;
    [reflexivity|].
  intros [= H]. now rewrite IH.
Qed.

Lemma ufunc_shaped (f : float -> float -> float)
      (text : value -> value -> option string) (x : list float) (a b : value) :
  shaped x a -> shaped x b ->
  match ufunc f text a b with
  | Return v => shaped x v
  | Raise e => e = TypeError
  | Stuck => False
  end.
Proof.
  destruct a as [u|l1|s1], b as [v|l2|s2]; simpl; intros Ha Hb; try exact I;
    try (destruct (text _ _); simpl; [exact I | reflexivity]).
  - now rewrite length_map.
  - now rewrite length_map.
  - rewrite Ha, Hb, Nat.eqb_refl. simpl.
    rewrite zip_with_float_length; congruence.
Qed.

Lemma ops_ufunc (tk : tok) (fn : value -> value -> outcome value) :
  ops tk = Return fn -> exists f text, fn = ufunc f text.
Proof.
  destruct tk as [s|v]; simpl; [|discriminate].
  repeat (match goal with |- context [String.eqb ?a ?b] => destruct (String.eqb a b) end;
          try (intros [= <-]; eexists; eexists; reflexivity)).
Qed.

Lemma ops_raises_key (tk : tok) (e : exn) : ops tk = Raise e -> e = KeyError tk.
Proof.
  destruct tk as [s|v]; simpl; [|now intros [= <-]].
  repeat (match goal with |- context [String.eqb ?a ?b] => destruct (String.eqb a b) end;
          try discriminate).
  now intros [= <-].
Qed.

Lemma evaluate_outcomes (frames : nat) (self : addr) (x : list float)
      (h : store) :
  match fst (evaluate frames self x h) with
  | Return v => shaped x v
  | Raise e => evaluate_exception e
  | Stuck => True
  end.
Proof.
  assert (Hrec : evaluate_exception RecursionError) by (right; right; now right).
  revert self. induction frames as [|frames IH]; intros self; [exact Hrec|].
  destruct (Nat.eq_dec frames 0) as [->|Hpos]; [exact Hrec|].
  rewrite evaluate_step by lia.
  unfold mbind, getLeft, getRight, getToken, read, mlift, mret, mraise.
  destruct (h !! self) as [n|] eqn:Hn; [|exact I].
  simpl; rewrite Hn.
  destruct (left n) as [l|], (right n) as [r|]; rewrite ?Hn; simpl.
  - destruct (ops (token n)) as [fn|e|] eqn:Hops; simpl; [| |exact I].
    2:{ apply ops_raises_key in Hops. right. left. now exists (token n). }
    destruct (ops_ufunc _ _ Hops) as (f & text & ->).
    pose proof (IH l) as Hl. pose proof (evaluate_store frames l x h) as Hsl.
    destruct (evaluate frames l x h) as [[lv|e|] h1]; simpl in *; subst h1;
      [|exact Hl|exact I].
    pose proof (IH r) as Hr. pose proof (evaluate_store frames r x h) as Hsr.
    destruct (evaluate frames r x h) as [[rv|e|] h2]; simpl in *; subst h2;
      [|exact Hr|exact I].
    pose proof (ufunc_shaped f text x lv rv Hl Hr) as Hu.
    destruct (ufunc f text lv rv) as [v|e|]; simpl; [exact Hu| |destruct Hu].
    right. right. left. exact Hu.
  - apply IH.
  - destruct (negb (tok_is (token n) L_eq)); [|now left].
    destruct (tok_is (token n) L_x); simpl; [reflexivity|].
    now destruct (token n).
  - destruct (negb (tok_is (token n) L_eq)); [|now left].
    destruct (tok_is (token n) L_x); simpl; [reflexivity|].
    now destruct (token n).
Qed.

(** X1. On a tree returned by [parse], whatever the sample array and the
    number of frames the interpreter grants, [evaluate] returns a float, a
    string or an array with exactly one element per sample, or raises one
    of [ValueError("Missing Operand")], [KeyError], [TypeError] and
    [RecursionError]; numpy never rejects the operand shapes.
    [RecursionError] needs a tree deeper than the frames granted: it is
    not raised when these exceed the number of nodes created by more than
    one. *)
Theorem evaluate_result_shape (frames : nat) (formula : string) (p : parsed)
        (x : list float) :
  run_parse formula = Return p ->
  match fst (AP_evaluate frames p x) with
  | Return v => shaped x v
  | Raise e =>
      evaluate_exception e
      /\ (e = RecursionError -> frames <= List.length (heap p) + 1)
  | Stuck => False
  end.
Proof.
  intros Hp.
  pose proof (evaluate_parsed_not_stuck frames formula p x Hp) as Hns.
  destruct (run_parse_wf _ _ Hp) as [Hwf Hlt].
  unfold AP_evaluate in *. destruct frames as [|frames].
  { split; [right; right; now right | intros _; lia]. }
  pose proof (evaluate_outcomes frames (ast p) x (heap p)) as Ho.
  pose proof (evaluate_enough_frames frames (ast p) x (heap p) Hwf Hlt) as Hen.
  destruct (fst (evaluate _ _ _ _)) as [v|e|]; [exact Ho | | now contradiction Hns].
  split; [exact Ho|]. intros ->.
  destruct (le_gt_dec (S frames) (List.length (heap p) + 1)) as [Hle|Hgt];
    [exact Hle|].
  exfalso. apply Hen; [lia | reflexivity].
Qed.

Lemma ufunc_no_array (f : float -> float -> float)
      (text : value -> value -> option string) (a b : value) :
  is_array a = false -> is_array b = false ->
  match ufunc f text a b with
  | Return v => is_array v = false
  | _ => True
  end.
Proof.
  destruct a, b; simpl; try discriminate; auto;
    intros _ _; now destruct (text _ _).
Qed.

Lemma evaluate_variable_free (frames : nat) (self : addr) (x : list float)
      (h : store) :
  variable_free h ->
  match fst (evaluate frames self x h) with
  | Return v => is_array v = false
  | _ => True
  end.
Proof.
  intros Hfree. revert self. induction frames as [|frames IH]; intros self; [exact I|].
  destruct (Nat.eq_dec frames 0) as [->|Hpos]; [exact I|].
  rewrite evaluate_step by lia.
  unfold mbind, getLeft, getRight, getToken, read, mlift, mret, mraise.
  destruct (h !! self) as [n|] eqn:Hn; [|exact I].
  simpl; rewrite Hn.
  assert (Hx : tok_is (token n) L_x = false).
  { unfold variable_free in Hfree. rewrite Forall_forall in Hfree.
    apply Hfree. eapply list_elem_of_lookup_2. exact Hn. }
  destruct (left n) as [l|], (right n) as [r|]; rewrite ?Hn; simpl.
  - destruct (ops (token n)) as [fn|e|] eqn:Hops; simpl; try exact I.
    destruct (ops_ufunc _ _ Hops) as (f & text & ->).
    pose proof (IH l) as Hl. pose proof (evaluate_store frames l x h) as Hsl.
    destruct (evaluate frames l x h) as [[lv|e|] h1]; simpl in *; subst h1;
      try exact I.
    pose proof (IH r) as Hr. pose proof (evaluate_store frames r x h) as Hsr.
    destruct (evaluate frames r x h) as [[rv|e|] h2]; simpl in *; subst h2;
      try exact I.
    pose proof (ufunc_no_array f text lv rv Hl Hr) as Hu.
    now destruct (ufunc f text lv rv).
  - apply IH.
  - destruct (negb (tok_is (token n) L_eq)); [|exact I].
    rewrite Hx. simpl. now destruct (token n).
  - destruct (negb (tok_is (token n) L_eq)); [|exact I].
    rewrite Hx. simpl. now destruct (token n).
Qed.

Lemma variable_free_attach (h : store) (cur : addr) (n' new : node) :
  variable_free h ->
  tok_is (token n') L_x = false -> tok_is (token new) L_x = false ->
  variable_free (attach h cur n' new).
Proof.
  intros Hh Hn Hnew. unfold variable_free, attach.
  apply Forall_insert; [|exact Hn].
  apply Forall_app. split; [exact Hh|]. now constructor.
Qed.

Lemma is_operator_not_x (tk : string) :
  String.eqb tk L_x = false -> tok_is (TStr tk) L_x = false.
Proof. auto. Qed.

Lemma parse_step_variable_free (h h' : store) (st : addr * list addr)
      (tk : string) (o : outcome (addr * list addr)) :
  wf_state h st -> variable_free h -> String.eqb tk L_x = false ->
  parse_step st tk h = (o, h') -> variable_free h'.
Proof.
  destruct st as [cur stack]. intros (Hwf & Hcur & Hstack) Hfree Htk.
  simpl in Hcur.
  destruct (lookup_lt_is_Some_2 h cur Hcur) as [n Hn].
  assert (Hx : tok_is (token n) L_x = false).
  { unfold variable_free in Hfree. rewrite Forall_forall in Hfree.
    apply Hfree. eapply list_elem_of_lookup_2. exact Hn. }
  rewrite (parse_step_run _ _ _ _ n Hn). cbv zeta.
  destruct (String.eqb tk L_open).
  { destruct (left n); intros [= <- <-]; now apply variable_free_attach. }
  destruct (is_operator tk).
  { intros [= <- <-]. now apply variable_free_attach. }
  destruct (String.eqb tk L_close).
  { now intros [= <- <-]. }
  rewrite Htk.
  destruct (pyfloat tk); intros [= <- <-]; [|exact Hfree].
  now apply variable_free_attach.
Qed.

Lemma parse_loop_variable_free (lexems : list string) (h h' : store)
      (st : addr * list addr) (o : outcome (addr * list addr)) :
  wf_state h st -> variable_free h ->
  Forall (fun t => String.eqb t L_x = false) lexems ->
  parse_loop lexems st h = (o, h') -> variable_free h'.
Proof.
  intros Hst Hfree Hl. revert h st Hst Hfree.
  induction Hl as [|tk rest Htk _ IH]; intros h st Hst Hfree; simpl.
  - now intros [= <- <-].
  - unfold mbind. destruct (parse_step st tk h) as [o1 h1] eqn:Hstep.
    pose proof (parse_step_wf _ _ _ _ _ Hst Hstep) as Hwf1.
    pose proof (parse_step_variable_free _ _ _ _ _ Hst Hfree Htk Hstep) as Hf1.
    destruct o1 as [st1|e|]; [|now intros [= <- <-]|destruct Hwf1].
    now apply IH.
Qed.

Lemma adds_parens_In (l l' : list string) (t : string) :
  adds_parens l l' -> not_paren t = true -> In t l' -> In t l.
Proof.
  intros [Hf _] Ht Hin.
  assert (H : In t (List.filter not_paren l')) by (apply List.filter_In; auto).
  rewrite Hf in H. now apply List.filter_In in H.
Qed.

(** X2. A formula in which [x] does not occur never evaluates to an
    array: whatever the sample array, the result of a successful
    evaluation is a single float (or a string), not one value per
    sample. *)
Theorem constant_formula_scalar (frames : nat) (expr : string) (p : parsed)
        (x : list float) :
  run_parse expr = Return p ->
  ~ In L_x (lexems_of expr) ->
  match fst (AP_evaluate frames p x) with
  | Return v => is_array v = false
  | _ => True
  end.
Proof.
  intros Hp Hx. unfold AP_evaluate. destruct frames as [|frames]; [exact I|].
  apply evaluate_variable_free.
  revert Hp. unfold run_parse, parse, build, mbind, new_node, mlift. simpl.
  destruct (tockenize expr) as [lexems|e|] eqn:Htok; try discriminate.
  destruct (parse_loop lexems (0, []) [Node (TStr L_eq) None None])
    as [o h'] eqn:Hloop.
  assert (Hfree : variable_free h').
  { eapply parse_loop_variable_free; [exact wf_state_initial | | | exact Hloop].
    - repeat constructor.
    - apply Forall_forall. intros t Ht.
      destruct (String.eqb t L_x) eqn:E; [|reflexivity].
      apply String.eqb_eq in E. subst t. exfalso. apply Hx.
      apply list_elem_of_In in Ht.
      eapply adds_parens_In; [| reflexivity | exact Ht].
      apply preprocess_adds_parens. exact Htok. }
  destruct o as [[cur stack]|e|]; try discriminate.
  simpl. destruct (0 <? List.length stack)%nat; simpl; try discriminate.
  now intros [= <-].
Qed.

(** * Further properties of the builder *)

Lemma parse_loop_app (l1 l2 : list string) (st : addr * list addr) (h : store) :
  parse_loop (l1 ++ l2) st h
  = mbind (parse_loop l1 st) (fun st' => parse_loop l2 st') h.
Proof.
  revert st h. induction l1 as [|tk l1 IH]; intros st h; simpl.
  - unfold mbind, mret. reflexivity.
  - unfold mbind. destruct (parse_step st tk h) as [[st1|e|] h1]; try reflexivity.
    rewrite IH. reflexivity.
Qed.

Lemma parse_step_known (h : store) (st : addr * list addr) (tk : string) :
  wf_state h st -> known tk = true ->
  exists st' h', parse_step st tk h = (Return st', h')
                 /\ List.length h' = List.length h + (if allocates tk then 1 else 0).
Proof.
  destruct st as [cur stack]. intros (Hwf & Hcur & Hstack) Hk. simpl in Hcur.
  destruct (lookup_lt_is_Some_2 h cur Hcur) as [n Hn].
  rewrite (parse_step_run _ _ _ _ n Hn). cbv zeta.
  unfold known in Hk. unfold allocates.
  destruct (String.eqb tk L_open) eqn:Eo.
  { apply String.eqb_eq in Eo. subst tk. simpl.
    destruct (left n); eexists; eexists; (split; [reflexivity|]);
      rewrite attach_length; lia. }
  destruct (is_operator tk) eqn:Eop.
  { destruct (is_operator_not_paren tk Eop) as [_ Hc].
    rewrite String.eqb_sym in Hc. rewrite Hc. simpl.
    eexists; eexists; (split; [reflexivity|]). rewrite attach_length; lia. }
  destruct (String.eqb tk L_close) eqn:Ec.
  { simpl. eexists; eexists; (split; [reflexivity|]). lia. }
  simpl in Hk. destruct (String.eqb tk L_x) eqn:Ex.
  { simpl. eexists; eexists; (split; [reflexivity|]). rewrite attach_length; lia. }
  simpl in Hk. destruct (pyfloat tk); [|discriminate].
  simpl. eexists; eexists; (split; [reflexivity|]). rewrite attach_length; lia.
Qed.

Lemma parse_step_unknown (h : store) (st : addr * list addr) (tk : string) :
  wf_state h st -> known tk = false ->
  parse_step st tk h = (Raise (unknown_variable tk), h).
Proof.
  destruct st as [cur stack]. intros (Hwf & Hcur & Hstack) Hk. simpl in Hcur.
  destruct (lookup_lt_is_Some_2 h cur Hcur) as [n Hn].
  rewrite (parse_step_run _ _ _ _ n Hn). cbv zeta.
  unfold known in Hk.
  destruct (String.eqb tk L_open); [discriminate|].
  destruct (is_operator tk); [discriminate|].
  destruct (String.eqb tk L_close); [discriminate|].
  destruct (String.eqb tk L_x); [discriminate|].
  now destruct (pyfloat tk).
Qed.

(** Known lexemes never make the loop raise; it creates one node for each
    lexeme but the closing parentheses. *)
Lemma parse_loop_known (lexems : list string) (h : store) (st : addr * list addr) :
  wf_state h st -> Forall (fun t => known t = true) lexems ->
  exists st' h', parse_loop lexems st h = (Return st', h')
                 /\ wf_state h' st'
                 /\ List.length h'
                    = List.length h + List.length (List.filter allocates lexems).
Proof.
  intros Hst Hk. revert h st Hst.
  induction Hk as [|tk rest Htk _ IH]; intros h st Hst; simpl.
  - exists st, h. split; [reflexivity|]. split; [exact Hst | lia].
  - destruct (parse_step_known h st tk Hst Htk) as (st1 & h1 & Hstep & Hlen).
    unfold mbind. rewrite Hstep.
    pose proof (parse_step_wf _ _ _ _ _ Hst Hstep) as Hwf1. simpl in Hwf1.
    destruct (IH h1 st1 Hwf1) as (st' & h' & Hloop & Hwf' & Hlen').
    exists st', h'. split; [exact Hloop|]. split; [exact Hwf'|].
    rewrite Hlen', Hlen. destruct (allocates tk); simpl; lia.
Qed.

(** X3. When normalization succeeds, [parse] raises [NameError] exactly
    for a lexeme that is no parenthesis, operator, [x] or number: the
    error names the first such lexeme, and without one [parse] returns a
    tree or raises the too-few-closing-parentheses error. *)
Theorem unknown_lexeme_reported (expr : string) (lexems : list string) :
  tockenize expr = Return lexems ->
  (forall pre tk post,
      lexems = pre ++ tk :: post ->
      Forall (fun t => known t = true) pre -> known tk = false ->
      run_parse expr = Raise (unknown_variable tk))
  /\ (Forall (fun t => known t = true) lexems ->
      (exists p, run_parse expr = Return p)
      \/ run_parse expr = Raise (SyntaxError "Too few closing parantheses")).
Proof.
  intros Htok. split.
  - intros pre tk post -> Hpre Htk.
    unfold run_parse, parse, build, mbind, new_node, mlift. simpl. rewrite Htok.
    rewrite parse_loop_app. unfold mbind.
    destruct (parse_loop_known pre _ _ wf_state_initial Hpre)
      as (st1 & h1 & Hloop & Hwf1 & _).
    rewrite Hloop. simpl. unfold mbind.
    now rewrite (parse_step_unknown h1 st1 tk Hwf1 Htk).
  - intros Hk.
    unfold run_parse, parse, build, mbind, new_node, mlift. simpl. rewrite Htok.
    destruct (parse_loop_known lexems _ _ wf_state_initial Hk)
      as ([cur stack] & h1 & Hloop & _ & _).
    rewrite Hloop. cbn [snd].
    destruct (0 <? List.length stack)%nat; [right | left; eexists]; reflexivity.
Qed.

Lemma parse_loop_size (lexems : list string) (h h' : store)
      (st st' : addr * list addr) :
  wf_state h st -> parse_loop lexems st h = (Return st', h') ->
  List.length h' = List.length h + List.length (List.filter allocates lexems).
Proof.
  revert st h. induction lexems as [|tk rest IH]; intros st h Hst; simpl.
  - intros [= <- <-]. lia.
  - unfold mbind. destruct (parse_step st tk h) as [o1 h1] eqn:Hstep.
    pose proof (parse_step_wf _ _ _ _ _ Hst Hstep) as Hwf1.
    destruct o1 as [st1|e|]; try discriminate.
    intros Hloop. rewrite (IH st1 h1 Hwf1 Hloop).
    destruct st as [c s]. destruct Hst as (_ & Hc & _). simpl in Hc.
    destruct (lookup_lt_is_Some_2 h c Hc) as [n Hn].
    rewrite (parse_step_run _ _ _ _ n Hn) in Hstep. cbv zeta in Hstep.
    unfold allocates.
    destruct (String.eqb tk L_open) eqn:Eo.
    { apply String.eqb_eq in Eo. subst tk. simpl.
      destruct (left n); injection Hstep as _ <-; rewrite attach_length; lia. }
    destruct (is_operator tk) eqn:Eop.
    { destruct (is_operator_not_paren tk Eop) as [_ Hc'].
      rewrite String.eqb_sym in Hc'. rewrite Hc'. simpl.
      injection Hstep as _ <-. rewrite attach_length; lia. }
    destruct (String.eqb tk L_close) eqn:Ec.
    { simpl. injection Hstep as _ <-. lia. }
    simpl. destruct (String.eqb tk L_x).
    { injection Hstep as _ <-. rewrite attach_length; lia. }
    destruct (pyfloat tk); [|discriminate].
    injection Hstep as _ <-. rewrite attach_length; lia.
Qed.

(** X4. When [parse] succeeds it has created the root and exactly one
    [_BinaryTreeNode] object for every lexeme of the normalized list
    other than a closing parenthesis. The count is of objects created,
    not of nodes in the tree: [insertLeft] on a filled slot replaces the
    node that was there, which is created all the same (see
    [replaced_node_is_created]). *)
Theorem parse_store_size (expr : string) (lexems : list string) (p : parsed) :
  tockenize expr = Return lexems ->
  run_parse expr = Return p ->
  List.length (heap p) = 1 + List.length (List.filter allocates lexems).
Proof.
  intros Htok.
  unfold run_parse, parse, build, mbind, new_node, mlift. simpl. rewrite Htok.
  destruct (parse_loop lexems (0, []) [Node (TStr L_eq) None None])
    as [o h'] eqn:Hloop.
  destruct o as [[cur stack]|e|]; try discriminate.
  cbn [snd]. destruct (0 <? List.length stack)%nat; simpl; try discriminate.
  intros [= <-]. simpl.
  now rewrite (parse_loop_size _ _ _ _ _ wf_state_initial Hloop).
Qed.

(** In [x)x] the second [x] takes the slot of the first: three objects
    are created and the tree holds two of them. *)
Example replaced_node_is_created :
  run_parse "x)x"
  = Return (Parsed [Node (TStr "=") (Some 2) None;
                    Node (TStr "x") None None;
                    Node (TStr "x") None None] 0).
Proof. reflexivity. Qed.

(** * Further properties of the normalizer and the tokenizer *)



Lemma grows_by_weaken (k k' : nat) (l l' : list string) :
  k <= k' -> grows_by k l l' -> grows_by k' l l'.
Proof. intros Hk (H1 & H2 & H3). unfold grows_by. split; [exact H1|]. split; lia. Qed.

Lemma count_tok_insert (t v : string) (i : nat) (l : list string) :
  count_tok t (py_insert i v l)
  = count_tok t l + (if String.eqb t v then 1 else 0).
Proof.
  unfold count_tok, py_insert.
  rewrite <- (take_drop i l) at 3.
  rewrite !List.filter_app, !length_app. simpl.
  destruct (String.eqb t v); simpl; lia.
Qed.

Lemma grows_by_insert_open (i : nat) (l : list string) :
  grows_by 1 l (py_insert i L_open l).
Proof.
  unfold grows_by. rewrite !count_tok_insert. simpl.
  split; [|split; lia].
  now destruct (adds_parens_insert i L_open l eq_refl).
Qed.

Lemma grows_by_insert_close (i : nat) (l : list string) :
  grows_by 1 l (py_insert i L_close l).
Proof.
  unfold grows_by. rewrite !count_tok_insert. simpl.
  split; [|split; lia].
  now destruct (adds_parens_insert i L_close l eq_refl).
Qed.










Lemma replace_space_append (s1 s2 : string) :
  replace_space (String.append s1 s2)
  = String.append (replace_space s1) (replace_space s2).
Proof.
  induction s1 as [|c s1 IH]; simpl; [reflexivity|].
  destruct (Ascii.eqb c " "); simpl; now rewrite IH.
Qed.

(** X6. Spaces are insignificant wherever they stand, between lexemes or
    inside an operand: a formula with a space inserted at any position has
    the same lexemes and the same [parse] outcome. *)
Theorem space_insignificant (s1 s2 : string) :
  lexems_of (String.append s1 (String " " s2)) = lexems_of (String.append s1 s2)
  /\ run_parse (String.append s1 (String " " s2)) = run_parse (String.append s1 s2).
Proof.
  assert (H : lexems_of (String.append s1 (String " " s2))
              = lexems_of (String.append s1 s2)).
  { unfold lexems_of. now rewrite !replace_space_append. }
  split; [exact H|].
  unfold run_parse, parse, tockenize. now rewrite H.
Qed.


(** * The builder and the evaluator on fully parenthesized input *)

Lemma evaluate_leaf (frames : nat) (c : addr) (x : list float) (h : store)
      (tk : tok) (r : option addr) :
  0 < frames ->
  h !! c = Some (Node tk None r) ->
  fst (evaluate (S frames) c x h)
  = if negb (tok_is tk L_eq)
    then (if tok_is tk L_x then Return (VArray x) else Return (value_of_tok tk))
    else Raise (ValueError "Missing Operand").
Proof.
  intros Hpos Hc. rewrite evaluate_step by exact Hpos.
  unfold mbind, getLeft, getRight, getToken, read, mlift, mret, mraise.
  rewrite Hc. simpl. rewrite Hc. simpl.
  destruct r; rewrite Hc; simpl;
    destruct (negb (tok_is tk L_eq)); try reflexivity;
    destruct (tok_is tk L_x); reflexivity.
Qed.

Lemma evaluate_unary (frames : nat) (c l : addr) (x : list float) (h : store)
      (tk : tok) :
  0 < frames ->
  h !! c = Some (Node tk (Some l) None) ->
  evaluate (S frames) c x h = evaluate frames l x h.
Proof.
  intros Hpos Hc. rewrite evaluate_step by exact Hpos.
  unfold mbind, getLeft, getRight, getToken, read, mlift, mret, mraise.
  rewrite Hc. simpl. rewrite Hc. reflexivity.
Qed.

Lemma evaluate_binary (frames : nat) (c l r : addr) (x : list float) (h : store)
      (tk : tok) :
  0 < frames ->
  h !! c = Some (Node tk (Some l) (Some r)) ->
  fst (evaluate (S frames) c x h)
  = let? fn := ops tk in
    let? lv := fst (evaluate frames l x h) in
    let? rv := fst (evaluate frames r x h) in
    fn lv rv.
Proof.
  intros Hpos Hc. rewrite evaluate_step by exact Hpos.
  unfold mbind, getLeft, getRight, getToken, read, mlift, mret, mraise.
  rewrite Hc. simpl. rewrite Hc. simpl. rewrite Hc. simpl.
  destruct (ops tk) as [fn|e|]; simpl; try reflexivity.
  pose proof (evaluate_store frames l x h) as Hsl.
  destruct (evaluate frames l x h) as [[lv|e|] h1]; simpl in *; subst h1;
    try reflexivity.
  destruct (evaluate frames r x h) as [[rv|e|] h2]; reflexivity.
Qed.

(** With at most one frame [evaluate] cannot call its first getter. *)
Lemma evaluate_no_frames (frames : nat) (c : addr) (x : list float) (h : store) :
  frames <= 1 -> fst (evaluate frames c x h) = Raise RecursionError.
Proof. intros H. destruct frames as [|[|frames]]; [reflexivity | reflexivity | lia]. Qed.

Lemma ops_operator (op : string) :
  is_operator op = true -> exists f text, ops (TStr op) = Return (ufunc f text).
Proof.
  unfold is_operator. simpl.
  destruct (String.eqb op "+"); [eexists; eexists; reflexivity|].
  destruct (String.eqb op "-"); [eexists; eexists; reflexivity|].
  destruct (String.eqb op "*"); [eexists; eexists; reflexivity|].
  destruct (String.eqb op "/"); [eexists; eexists; reflexivity|].
  destruct (String.eqb op "^"); [eexists; eexists; reflexivity|].
  discriminate.
Qed.

Lemma is_atom_cases (t : string) :
  is_atom t = true ->
  String.eqb t L_open = false /\ is_operator t = false
  /\ String.eqb t L_close = false
  /\ (String.eqb t L_x = true \/
      String.eqb t L_x = false /\ exists v, pyfloat t = Some v).
Proof.
  unfold is_atom, is_operand. intros H.
  apply andb_prop in H. destruct H as [H H4].
  apply andb_prop in H. destruct H as [H H3].
  apply andb_prop in H. destruct H as [H1 H2].
  apply negb_true_iff in H1, H2, H3.
  repeat split; auto.
  destruct (String.eqb t L_x); [now left|]. right. split; [reflexivity|].
  simpl in H4. destruct (pyfloat t) as [v|]; [now exists v | discriminate].
Qed.

(** The value of a well-formed expression is a float or an array with
    one element per sample: no operand is a lexeme, so no ufunc fails. *)
Lemma denote_returns (e : term) (x : list float) :
  wf_term e ->
  exists v, denote e x = Return v /\ shaped x v
            /\ match v with VStr _ => False | _ => True end.
Proof.
  induction e as [t | l IHl op r IHr | e IH]; intros Hwf.
  - simpl in Hwf. destruct (is_atom_cases t Hwf) as (_ & _ & _ & Hx).
    simpl. destruct Hx as [Hx | [Hx [v Hv]]]; rewrite Hx.
    + eexists. repeat split.
    + rewrite Hv. eexists. repeat split.
  - destruct Hwf as (Hwl & Hop & Hwr).
    destruct (IHl Hwl) as (lv & Hl & Sl & Nl).
    destruct (IHr Hwr) as (rv & Hr & Sr & Nr).
    destruct (ops_operator op Hop) as (f & text & Hf).
    change (denote (Bin l op r) x)
      with (obind (ops (TStr op)) (fun fn =>
              obind (denote l x) (fun lv =>
                obind (denote r x) (fun rv => fn lv rv)))).
    rewrite Hf, Hl, Hr. cbn [obind].
    destruct lv as [u|a|s], rv as [v|b|s']; try contradiction; simpl in Sl, Sr.
    + eexists. repeat split.
    + eexists. split; [reflexivity|]. split; [|exact I].
      simpl. now rewrite length_map.
    + eexists. split; [reflexivity|]. split; [|exact I].
      simpl. now rewrite length_map.
    + simpl. rewrite Sl, Sr, Nat.eqb_refl. eexists. split; [reflexivity|].
      split; [|exact I]. simpl. rewrite zip_with_float_length; congruence.
  - simpl in *. now apply IH.
Qed.

Lemma depth_positive (e : term) : 0 < depth e.
Proof. destruct e; simpl; lia. Qed.

(** A tree that represents [e] evaluates to the value of [e] when the
    frames granted exceed the depth of [e], and ends in [RecursionError]
    otherwise. *)
Lemma repr_evaluate (e : term) (x : list float) (h : store) :
  wf_term e ->
  forall (lo : nat) (c : addr) (frames : nat),
    repr lo h c e ->
    fst (evaluate frames c x h)
    = if (depth e <? frames)%nat then denote e x else Raise RecursionError.
Proof.
  induction e as [t | l IHl op r IHr | e IH]; intros Hwf lo c frames Hrepr.
  - simpl depth. destruct (Nat.ltb_spec 1 frames) as [Hf|Hf];
      [|now apply evaluate_no_frames].
    destruct frames as [|frames']; [lia|].
    destruct Hrepr as [_ Hc]. simpl in Hwf.
    destruct (is_atom_cases t Hwf) as (_ & _ & _ & Hx).
    rewrite (evaluate_leaf frames' c x h _ _ ltac:(lia) Hc). unfold atom_tok. simpl denote.
    destruct Hx as [Hx | [Hx [v Hv]]]; rewrite Hx.
    + apply String.eqb_eq in Hx. subst t. reflexivity.
    + rewrite Hv. reflexivity.
  - destruct Hrepr as [_ (cl & b & cr & Hc & _ & Hb & Hl & Hr)].
    destruct Hwf as (Hwl & Hop & Hwr).
    pose proof (depth_positive l) as Hdl. pose proof (depth_positive r) as Hdr.
    destruct (Nat.le_gt_cases frames 1) as [Hsmall|Hbig].
    { rewrite evaluate_no_frames by exact Hsmall.
      destruct (Nat.ltb_spec (depth (Bin l op r)) frames) as [H|H];
        [simpl in H; lia | reflexivity]. }
    destruct frames as [|frames']; [lia|].
    destruct (ops_operator op Hop) as (f & text & Hf).
    destruct (denote_returns l x Hwl) as (lv & Hlv & _).
    destruct (denote_returns r x Hwr) as (rv & Hrv & _).
    change (denote (Bin l op r) x)
      with (obind (ops (TStr op)) (fun fn =>
              obind (denote l x) (fun lv =>
                obind (denote r x) (fun rv => fn lv rv)))).
    rewrite (evaluate_binary frames' c cl b x h _ ltac:(lia) Hc).
    rewrite Hf. cbn [obind].
    rewrite (IHl Hwl lo cl frames' Hl), Hlv, Hrv.
    assert (Hright : fst (evaluate frames' b x h)
                     = if (S (depth r) <? frames')%nat then Return rv
                       else Raise RecursionError).
    { destruct (Nat.le_gt_cases frames' 1) as [H1|H1].
      - rewrite evaluate_no_frames by exact H1.
        destruct (Nat.ltb_spec (S (depth r)) frames'); [lia | reflexivity].
      - destruct frames' as [|g]; [lia|].
        rewrite (evaluate_unary g b cr x h _ ltac:(lia) Hb).
        rewrite (IHr Hwr lo cr g Hr), Hrv.
        destruct (Nat.ltb_spec (depth r) g), (Nat.ltb_spec (S (depth r)) (S g));
          try lia; reflexivity. }
    rewrite Hright. simpl depth.
    destruct (Nat.ltb_spec (depth l) frames') as [H1|H1],
             (Nat.ltb_spec (S (depth r)) frames') as [H2|H2],
             (Nat.ltb_spec (S (Nat.max (depth l) (S (depth r)))) (S frames')) as [H3|H3];
      try lia; reflexivity.
  - destruct Hrepr as [_ (c' & Hc & He)]. simpl in Hwf.
    pose proof (depth_positive e) as Hd.
    destruct (Nat.le_gt_cases frames 1) as [Hsmall|Hbig].
    { rewrite evaluate_no_frames by exact Hsmall.
      destruct (Nat.ltb_spec (depth (Group e)) frames) as [H|H];
        [simpl in H; lia | reflexivity]. }
    destruct frames as [|frames']; [lia|].
    rewrite (evaluate_unary frames' c c' x h _ ltac:(lia) Hc).
    rewrite (IH Hwf lo c' frames' He). simpl.
    destruct (Nat.ltb_spec (depth e) frames'), (Nat.ltb_spec (S (depth e)) (S frames'));
      try lia; reflexivity.
Qed.

Lemma repr_weaken (e : term) (lo lo' : nat) (h : store) (c : addr) :
  lo <= lo' -> repr lo' h c e -> repr lo h c e.
Proof.
  intros Hlo. revert c.
  induction e as [t | l IHl op r IHr | e IH]; intros c [Hc H]; (split; [lia|]).
  - exact H.
  - destruct H as (cl & b & cr & H1 & H2 & H3 & H4 & H5).
    exists cl, b, cr. repeat split; auto. lia.
  - destruct H as (c' & H1 & H2). exists c'. split; auto.
Qed.

Lemma repr_frame (e : term) (lo : nat) (h h' : store) (c : addr) :
  (forall a m, lo <= a -> h !! a = Some m -> h' !! a = Some m) ->
  repr lo h c e -> repr lo h' c e.
Proof.
  intros Hag. revert c.
  induction e as [t | l IHl op r IHr | e IH]; intros c [Hc H]; (split; [exact Hc|]).
  - now apply Hag.
  - destruct H as (cl & b & cr & H1 & H2 & H3 & H4 & H5).
    exists cl, b, cr. repeat split; auto.
  - destruct H as (c' & H1 & H2). exists c'. split; auto.
Qed.

Lemma parse_loop_cons (tk : string) (rest : list string)
      (st : addr * list addr) (h : store) :
  parse_loop (tk :: rest) st h
  = mbind (parse_step st tk) (fun st' => parse_loop rest st') h.
Proof. reflexivity. Qed.

(** The builder on the lexemes of [e], started at a node with an empty
    left slot: it comes back to that node with the same stack, has
    touched no other existing node, and has hung a representation of [e]
    under the left slot. *)
Lemma parse_loop_flat (e : term) :
  wf_term e ->
  forall (rest : list string) (h : store) (cur : addr) (stack : list addr)
         (n : node),
    h !! cur = Some n -> left n = None ->
    exists h',
      parse_loop (flat e ++ rest) (cur, stack) h = parse_loop rest (cur, stack) h'
      /\ List.length h < List.length h'
      /\ (forall a m, a <> cur -> h !! a = Some m -> h' !! a = Some m)
      /\ h' !! cur = Some (Node (token n) (Some (List.length h)) (right n))
      /\ repr (List.length h) h' (List.length h) e.
Proof.
  induction e as [t | l IHl op r IHr | e IH]; intros Hwf rest h cur stack n Hn Hleft;
    pose proof (lookup_lt_Some _ _ _ Hn) as Hcur.
  - simpl in Hwf. destruct (is_atom_cases t Hwf) as (H1 & H2 & H3 & Hx).
    simpl flat. simpl app. rewrite parse_loop_cons. unfold mbind.
    rewrite (parse_step_run _ _ _ _ n Hn). cbv zeta. rewrite H1, H2, H3.
    assert (Hgen : forall new, left new = None -> right new = None ->
              token new = atom_tok t ->
              let h' := attach h cur (Node (token n) (Some (List.length h)) (right n)) new in
              List.length h < List.length h'
              /\ (forall a m, a <> cur -> h !! a = Some m -> h' !! a = Some m)
              /\ h' !! cur = Some (Node (token n) (Some (List.length h)) (right n))
              /\ repr (List.length h) h' (List.length h) (Atom t)).
    { intros new Hl Hr Ht h'. subst h'. rewrite attach_length.
      split; [lia|]. split; [|split].
      - intros a m Ha Hm. rewrite attach_lookup_other; auto.
        eapply lookup_lt_Some; exact Hm.
      - now apply attach_lookup_self.
      - split; [lia|]. rewrite attach_lookup_new by exact Hcur.
        destruct new as [tk' l' r']. simpl in *. now subst. }
    destruct Hx as [Hx | [Hx [v Hv]]]; rewrite Hx.
    + eexists. split; [reflexivity|]. apply Hgen; try reflexivity.
      unfold atom_tok. now rewrite Hx.
    + rewrite Hv. eexists. split; [reflexivity|]. apply Hgen; try reflexivity.
      unfold atom_tok. now rewrite Hx, Hv.
  - destruct Hwf as (Hwl & Hop & Hwr).
    destruct (is_operator_not_paren op Hop) as [Hno Hnc].
    rewrite String.eqb_sym in Hno.
    replace (flat (Bin l op r) ++ rest)
      with (L_open :: flat l ++ op :: flat r ++ L_close :: rest)
      by (simpl; repeat (rewrite <- app_assoc; simpl); reflexivity).
    rewrite parse_loop_cons. unfold mbind.
    rewrite (parse_step_run _ _ _ _ n Hn). cbv zeta.
    rewrite String.eqb_refl, Hleft.
    set (a := List.length h).
    set (h1 := attach h cur (Node (token n) (Some a) (right n))
                      (Node (TStr L_eq) None None)).
    assert (Ha1 : h1 !! a = Some (Node (TStr L_eq) None None))
      by now apply attach_lookup_new.
    destruct (IHl Hwl (op :: flat r ++ L_close :: rest) h1 a (cur :: stack)
                  _ Ha1 eq_refl)
      as (h2 & Hrun2 & Hlen2 & Hfr2 & Ha2 & Hrep2).
    rewrite Hrun2. simpl token in Ha2. simpl right in Ha2.
    rewrite parse_loop_cons. unfold mbind.
    rewrite (parse_step_run _ _ _ _ _ Ha2). cbv zeta. rewrite Hno, Hop.
    simpl left.
    set (b := List.length h2).
    set (h3 := attach h2 a (Node (TStr op) (Some (List.length h1)) (Some b))
                      (Node (TStr L_eq) None None)).
    assert (Ha_lt : a < List.length h2) by (eapply lookup_lt_Some; exact Ha2).
    assert (Hb3 : h3 !! b = Some (Node (TStr L_eq) None None))
      by now apply attach_lookup_new.
    destruct (IHr Hwr (L_close :: rest) h3 b (cur :: stack) _ Hb3 eq_refl)
      as (h4 & Hrun4 & Hlen4 & Hfr4 & Hb4 & Hrep4).
    rewrite Hrun4. simpl token in Hb4. simpl right in Hb4.
    rewrite parse_loop_cons. unfold mbind.
    rewrite (parse_step_run _ _ _ _ _ Hb4). cbv zeta. simpl.
    assert (Hlen1 : List.length h1 = S a) by apply attach_length.
    assert (Hlen3 : List.length h3 = S b) by apply attach_length.
    assert (Hcur_a : cur <> a) by (unfold a; lia).
    assert (Ha3 : h3 !! a = Some (Node (TStr op) (Some (List.length h1)) (Some b)))
      by now apply attach_lookup_self.
    exists h4. split; [reflexivity|]. split; [lia|]. split; [|split].
    + intros a' m Hne Hm.
      assert (Hlt : a' < a) by (eapply lookup_lt_Some; exact Hm).
      apply Hfr4; [unfold b; lia|].
      unfold h3. rewrite attach_lookup_other by lia.
      apply Hfr2; [lia|].
      unfold h1. rewrite attach_lookup_other by (auto; lia). exact Hm.
    + apply Hfr4; [unfold b; lia|].
      unfold h3. rewrite attach_lookup_other by lia.
      apply Hfr2; [lia|]. now apply attach_lookup_self.
    + split; [lia|]. exists (List.length h1), b, (List.length h3).
      split; [apply Hfr4; [unfold b; lia | exact Ha3]|].
      split; [unfold b; lia|]. split; [exact Hb4|]. split.
      * apply (repr_weaken _ a (List.length h1)); [lia|].
        apply (repr_frame _ _ h2); [|exact Hrep2].
        intros a' m Hlo Hm.
        assert (Hlt : a' < b) by (eapply lookup_lt_Some; exact Hm).
        apply Hfr4; [lia|].
        unfold h3. rewrite attach_lookup_other by lia. exact Hm.
      * apply (repr_weaken _ a (List.length h3)); [lia | exact Hrep4].
  - simpl in Hwf.
    replace (flat (Group e) ++ rest) with (L_open :: flat e ++ L_close :: rest)
      by (simpl; repeat (rewrite <- app_assoc; simpl); reflexivity).
    rewrite parse_loop_cons. unfold mbind.
    rewrite (parse_step_run _ _ _ _ n Hn). cbv zeta.
    rewrite String.eqb_refl, Hleft.
    set (a := List.length h).
    set (h1 := attach h cur (Node (token n) (Some a) (right n))
                      (Node (TStr L_eq) None None)).
    assert (Ha1 : h1 !! a = Some (Node (TStr L_eq) None None))
      by now apply attach_lookup_new.
    destruct (IH Hwf (L_close :: rest) h1 a (cur :: stack) _ Ha1 eq_refl)
      as (h2 & Hrun2 & Hlen2 & Hfr2 & Ha2 & Hrep2).
    rewrite Hrun2. simpl token in Ha2. simpl right in Ha2.
    rewrite parse_loop_cons. unfold mbind.
    rewrite (parse_step_run _ _ _ _ _ Ha2). cbv zeta. simpl.
    assert (Hlen1 : List.length h1 = S a) by apply attach_length.
    exists h2. split; [reflexivity|]. split; [lia|]. split; [|split].
    + intros a' m Hne Hm.
      assert (Hlt : a' < a) by (eapply lookup_lt_Some; exact Hm).
      apply Hfr2; [lia|].
      unfold h1. rewrite attach_lookup_other by (auto; lia). exact Hm.
    + apply Hfr2; [unfold a; lia|]. now apply attach_lookup_self.
    + split; [lia|]. exists (List.length h1). split; [exact Ha2|].
      apply (repr_weaken _ a (List.length h1)); [lia | exact Hrep2].
Qed.

Lemma parse_flat_repr (formula : string) (e : term) :
  tockenize formula = Return (flat e) ->
  wf_term e ->
  exists p c, run_parse formula = Return p
              /\ heap p !! ast p = Some (Node (TStr L_eq) (Some c) None)
              /\ repr 1 (heap p) c e.
Proof.
  intros Htok Hwf.
  unfold run_parse, parse, build, mbind, new_node, mlift. simpl. rewrite Htok.
  destruct (parse_loop_flat e Hwf [] [Node (TStr L_eq) None None] 0 []
              (Node (TStr L_eq) None None) eq_refl eq_refl)
    as (h' & Hrun & Hlen & _ & Hroot & Hrep).
  rewrite app_nil_r in Hrun. rewrite Hrun. simpl.
  eexists. exists 1. split; [reflexivity|]. simpl. split; [exact Hroot | exact Hrep].
Qed.

(** The root placeholder above the nodes of [e]: the method, the root
    and the nodes of [e] each take a frame, and a getter one more. *)
Lemma root_evaluate (e : term) (p : parsed) (c : addr) (frames : nat)
      (x : list float) :
  wf_term e ->
  heap p !! ast p = Some (Node (TStr L_eq) (Some c) None) ->
  repr 1 (heap p) c e ->
  fst (AP_evaluate frames p x)
  = if (depth e + 2 <? frames)%nat then denote e x else Raise RecursionError.
Proof.
  intros Hwf Hroot Hrep. pose proof (depth_positive e) as Hd.
  unfold AP_evaluate.
  destruct (Nat.le_gt_cases frames 2) as [Hsmall|Hbig].
  { destruct (Nat.ltb_spec (depth e + 2) frames) as [H|_]; [lia|].
    destruct frames as [|[|[|g]]]; [reflexivity | reflexivity | reflexivity | lia]. }
  destruct frames as [|[|[|g]]]; try lia.
  rewrite (evaluate_unary (S g) (ast p) c x (heap p) _ ltac:(lia) Hroot).
  rewrite (repr_evaluate e x (heap p) Hwf 1 c (S g) Hrep).
  destruct (Nat.ltb_spec (depth e) (S g)), (Nat.ltb_spec (depth e + 2) (S (S (S g))));
    try lia; reflexivity.
Qed.

Lemma parse_flat_term (formula : string) (e : term) :
  tockenize formula = Return (flat e) ->
  wf_term e ->
  exists p, run_parse formula = Return p
            /\ forall frames x,
                 fst (AP_evaluate frames p x)
                 = if (depth e + 2 <? frames)%nat then denote e x
                   else Raise RecursionError.
Proof.
  intros Htok Hwf.
  destruct (parse_flat_repr formula e Htok Hwf) as (p & c & Hp & Hroot & Hrep).
  exists p. split; [exact Hp|]. intros frames x.
  now apply (root_evaluate e p c).
Qed.

(** X7. If normalization yields the lexemes of a well-formed fully
    parenthesized expression, [parse] returns a tree. On every sample
    array [evaluate] gives the value of that expression (the operator
    table applied to the values of the two operands, the left one first),
    a float or an array with one element per sample, provided the
    interpreter grants more frames than the depth of the expression plus
    two; with fewer it raises [RecursionError]. *)
Theorem parse_fully_parenthesized (formula : string) (e : term) :
  tockenize formula = Return (flat e) ->
  wf_term e ->
  exists p, run_parse formula = Return p
            /\ forall frames x,
                 (depth e + 2 < frames ->
                  exists v, fst (AP_evaluate frames p x) = Return v
                            /\ denote e x = Return v /\ shaped x v)
                 /\ (frames <= depth e + 2 ->
                     fst (AP_evaluate frames p x) = Raise RecursionError).
Proof.
  intros Htok Hwf.
  destruct (parse_flat_repr formula e Htok Hwf) as (p & c & Hp & Hroot & Hrep).
  exists p. split; [exact Hp|]. intros frames x.
  rewrite (root_evaluate e p c frames x Hwf Hroot Hrep).
  destruct (denote_returns e x Hwf) as (v & Hv & Hs & _).
  destruct (Nat.ltb_spec (depth e + 2) frames) as [H|H]; split; intros H';
    try lia; [|reflexivity].
  exists v. auto.
Qed.

(** * The normalizer on parenthesis-free formulas *)

Lemma py_insert_app (pre rest : list string) (v : string) :
  py_insert (List.length pre) v (pre ++ rest) = pre ++ v :: rest.
Proof.
  unfold py_insert. now rewrite take_app_length, drop_app_length.
Qed.

Lemma flat_nonempty (e : term) : 0 < List.length (flat e).
Proof. destruct e; simpl; lia. Qed.

Lemma wf_term_op_not_paren (op : string) :
  is_operator op = true ->
  String.eqb op L_open = false /\ String.eqb op L_close = false.
Proof.
  intros H. destruct (is_operator_not_paren op H) as [H1 H2].
  now rewrite String.eqb_sym in H1; rewrite String.eqb_sym in H2.
Qed.

(** The backward scan over the lexemes of a term: with a zero count it
    inserts the opening parenthesis in front of the term, with a positive
    count it passes over the term. *)
Lemma scan_left_term (e : term) :
  wf_term e ->
  forall (L pre rest : list string) (c : Z),
    L = pre ++ flat e ++ rest -> (0 <= c)%Z ->
    scan_left L (List.length pre + List.length (flat e)) c
    = if (c =? 0)%Z then Return (py_insert (List.length pre) L_open L, 0%Z)
      else scan_left L (List.length pre) c.
Proof.
  induction e as [t | l IHl op r IHr | e IH]; intros Hwf L pre rest c HL Hc.
  - simpl in Hwf. destruct (is_atom_cases t Hwf) as (H1 & _ & H3 & _).
    simpl flat. simpl List.length. rewrite Nat.add_1_r. simpl scan_left.
    assert (Hlk : L !! List.length pre = Some t)
      by (subst L; now apply list_lookup_middle).
    rewrite Hlk, H3, H1. destruct (c =? 0)%Z eqn:E; [|reflexivity].
    apply Z.eqb_eq in E. now subst c.
  - destruct Hwf as (Hwl & Hop & Hwr).
    destruct (wf_term_op_not_paren op Hop) as [Ho1 Ho2].
    assert (Hlen : List.length pre + List.length (flat (Bin l op r))
                   = S (List.length (pre ++ L_open :: flat l ++ [op])
                        + List.length (flat r))).
    { simpl. rewrite !length_app. simpl. rewrite !length_app. simpl. lia. }
    rewrite Hlen. simpl scan_left.
    assert (HL1 : L = (pre ++ L_open :: flat l ++ [op]) ++ flat r ++ L_close :: rest).
    { subst L. simpl. repeat (rewrite <- app_assoc; simpl). reflexivity. }
    assert (Hlk : L !! (List.length (pre ++ L_open :: flat l ++ [op])
                        + List.length (flat r)) = Some L_close).
    { rewrite HL1 at 1. rewrite app_assoc. apply list_lookup_middle.
      symmetry. apply length_app. }
    rewrite Hlk. simpl String.eqb at 1.
    rewrite (IHr Hwr L _ (L_close :: rest) (c + 1)%Z HL1) by lia.
    replace (c + 1 =? 0)%Z with false by (symmetry; apply Z.eqb_neq; lia).
    assert (Hlen2 : List.length (pre ++ L_open :: flat l ++ [op])
                    = S (List.length (pre ++ [L_open]) + List.length (flat l))).
    { rewrite !length_app. simpl. rewrite !length_app. simpl. lia. }
    rewrite Hlen2. simpl scan_left.
    assert (HL2 : L = (pre ++ [L_open]) ++ flat l ++ op :: flat r ++ L_close :: rest).
    { subst L. simpl. repeat (rewrite <- app_assoc; simpl). reflexivity. }
    assert (Hlk2 : L !! (List.length (pre ++ [L_open]) + List.length (flat l))
                   = Some op).
    { rewrite HL2 at 1. rewrite app_assoc. apply list_lookup_middle.
      symmetry. apply length_app. }
    rewrite Hlk2, Ho2, Ho1.
    replace (c + 1 =? 0)%Z with false by (symmetry; apply Z.eqb_neq; lia).
    rewrite (IHl Hwl L _ (op :: flat r ++ L_close :: rest) (c + 1)%Z HL2) by lia.
    replace (c + 1 =? 0)%Z with false by (symmetry; apply Z.eqb_neq; lia).
    rewrite length_app. simpl List.length. rewrite Nat.add_1_r. simpl scan_left.
    assert (Hlk3 : L !! List.length pre = Some L_open).
    { rewrite HL2 at 1. rewrite <- app_assoc. now apply list_lookup_middle. }
    rewrite Hlk3. simpl String.eqb.
    replace (c + 1 - 1)%Z with c by lia.
    destruct (c =? 0)%Z eqn:E; [|reflexivity].
    apply Z.eqb_eq in E. now subst c.
  - simpl in Hwf.
    assert (Hlen : List.length pre + List.length (flat (Group e))
                   = S (List.length (pre ++ [L_open]) + List.length (flat e))).
    { simpl. rewrite !length_app. simpl. lia. }
    rewrite Hlen. simpl scan_left.
    assert (HL1 : L = (pre ++ [L_open]) ++ flat e ++ L_close :: rest).
    { subst L. simpl. repeat (rewrite <- app_assoc; simpl). reflexivity. }
    assert (Hlk : L !! (List.length (pre ++ [L_open]) + List.length (flat e))
                  = Some L_close).
    { rewrite HL1 at 1. rewrite app_assoc. apply list_lookup_middle.
      symmetry. apply length_app. }
    rewrite Hlk. simpl String.eqb at 1.
    rewrite (IH Hwf L _ (L_close :: rest) (c + 1)%Z HL1) by lia.
    replace (c + 1 =? 0)%Z with false by (symmetry; apply Z.eqb_neq; lia).
    rewrite length_app. simpl List.length. rewrite Nat.add_1_r. simpl scan_left.
    assert (Hlk3 : L !! List.length pre = Some L_open).
    { rewrite HL1 at 1. rewrite <- app_assoc. now apply list_lookup_middle. }
    rewrite Hlk3. simpl String.eqb.
    replace (c + 1 - 1)%Z with c by lia.
    destruct (c =? 0)%Z eqn:E; [|reflexivity].
    apply Z.eqb_eq in E. now subst c.
Qed.


Lemma scan_right_step (L : list string) (todo ptr : nat) (c : Z) (t : string) :
  L !! ptr = Some t ->
  scan_right L (S todo) ptr c
  = if String.eqb t L_open then scan_right L todo (S ptr) (c + 1)%Z
    else
      let c' := if String.eqb t L_close then (c - 1)%Z else c in
      if (c' =? 0)%Z then Return (py_insert (ptr + 1) L_close L, c')
      else scan_right L todo (S ptr) c'.
Proof. intros H. simpl. now rewrite H. Qed.

(** The forward scan over the lexemes of a term: with a zero count it
    inserts the closing parenthesis behind the term, with a positive
    count it passes over the term. *)
Lemma scan_right_term (e : term) :
  wf_term e ->
  forall (L pre rest : list string) (c : Z) (todo : nat),
    L = pre ++ flat e ++ rest -> (0 <= c)%Z ->
    List.length (flat e) <= todo ->
    scan_right L todo (List.length pre) c
    = if (c =? 0)%Z
      then Return (py_insert (List.length pre + List.length (flat e)) L_close L, 0%Z)
      else scan_right L (todo - List.length (flat e))
                      (List.length pre + List.length (flat e)) c.
Proof.
  induction e as [t | l IHl op r IHr | e IH]; intros Hwf L pre rest c todo HL Hc Htodo.
  - simpl in Hwf. destruct (is_atom_cases t Hwf) as (H1 & _ & H3 & _).
    simpl flat in *. simpl List.length in *.
    destruct todo as [|todo]; [lia|].
    assert (Hlk : L !! List.length pre = Some t)
      by (subst L; now apply list_lookup_middle).
    rewrite (scan_right_step _ _ _ _ _ Hlk), H1, H3. cbv zeta.
    destruct (c =? 0)%Z eqn:E.
    + apply Z.eqb_eq in E. now subst c.
    + simpl. rewrite Nat.sub_0_r. now rewrite Nat.add_1_r.
  - destruct Hwf as (Hwl & Hop & Hwr).
    destruct (wf_term_op_not_paren op Hop) as [Ho1 Ho2].
    assert (Hflat : List.length (flat (Bin l op r))
                    = List.length (flat l) + List.length (flat r) + 3).
    { simpl. rewrite !length_app. simpl. rewrite !length_app. simpl. lia. }
    rewrite Hflat in *.
    destruct todo as [|todo]; [lia|].
    assert (HL0 : L = pre ++ L_open :: flat l ++ op :: flat r ++ L_close :: rest).
    { subst L. simpl. repeat (rewrite <- app_assoc; simpl). reflexivity. }
    assert (Hlk0 : L !! List.length pre = Some L_open)
      by (rewrite HL0 at 1; now apply list_lookup_middle).
    rewrite (scan_right_step _ _ _ _ _ Hlk0). simpl String.eqb.
    (* the left operand *)
    assert (HL1 : L = (pre ++ [L_open]) ++ flat l ++ op :: flat r ++ L_close :: rest).
    { rewrite HL0 at 1. now rewrite <- app_assoc. }
    replace (S (List.length pre)) with (List.length (pre ++ [L_open]))
      by (rewrite length_app; simpl; lia).
    rewrite (IHl Hwl L _ _ (c + 1)%Z todo HL1) by lia.
    replace (c + 1 =? 0)%Z with false by (symmetry; apply Z.eqb_neq; lia).
    (* the operator *)
    destruct (todo - List.length (flat l)) as [|todo1] eqn:Et1; [lia|].
    assert (Hlk1 : L !! (List.length (pre ++ [L_open]) + List.length (flat l))
                   = Some op).
    { rewrite HL1 at 1. rewrite app_assoc. apply list_lookup_middle.
      symmetry. apply length_app. }
    rewrite (scan_right_step _ _ _ _ _ Hlk1), Ho1, Ho2. cbv zeta.
    replace (c + 1 =? 0)%Z with false by (symmetry; apply Z.eqb_neq; lia).
    (* the right operand *)
    assert (HL2 : L = (pre ++ L_open :: flat l ++ [op]) ++ flat r ++ L_close :: rest).
    { rewrite HL0 at 1. repeat (rewrite <- app_assoc; simpl). reflexivity. }
    replace (S (List.length (pre ++ [L_open]) + List.length (flat l)))
      with (List.length (pre ++ L_open :: flat l ++ [op]))
      by (rewrite !length_app; simpl; rewrite !length_app; simpl; lia).
    rewrite (IHr Hwr L _ _ (c + 1)%Z todo1 HL2) by lia.
    replace (c + 1 =? 0)%Z with false by (symmetry; apply Z.eqb_neq; lia).
    (* the closing parenthesis *)
    destruct (todo1 - List.length (flat r)) as [|todo2] eqn:Et2; [lia|].
    assert (Hlk2 : L !! (List.length (pre ++ L_open :: flat l ++ [op])
                         + List.length (flat r)) = Some L_close).
    { rewrite HL2 at 1. rewrite app_assoc. apply list_lookup_middle.
      symmetry. apply length_app. }
    rewrite (scan_right_step _ _ _ _ _ Hlk2). simpl String.eqb. cbv zeta.
    replace (c + 1 - 1)%Z with c by lia.
    assert (Hpos : List.length (pre ++ L_open :: flat l ++ [op])
                   + List.length (flat r) + 1
                   = List.length pre + (List.length (flat l) + List.length (flat r) + 3)).
    { rewrite !length_app. simpl. rewrite !length_app. simpl. lia. }
    rewrite Hpos.
    destruct (c =? 0)%Z eqn:E.
    + apply Z.eqb_eq in E. now subst c.
    + f_equal; lia.
  - simpl in Hwf.
    assert (Hflat : List.length (flat (Group e)) = List.length (flat e) + 2).
    { simpl. rewrite !length_app. simpl. lia. }
    rewrite Hflat in *.
    destruct todo as [|todo]; [lia|].
    assert (HL0 : L = pre ++ L_open :: flat e ++ L_close :: rest).
    { subst L. simpl. repeat (rewrite <- app_assoc; simpl). reflexivity. }
    assert (Hlk0 : L !! List.length pre = Some L_open)
      by (rewrite HL0 at 1; now apply list_lookup_middle).
    rewrite (scan_right_step _ _ _ _ _ Hlk0). simpl String.eqb.
    assert (HL1 : L = (pre ++ [L_open]) ++ flat e ++ L_close :: rest).
    { rewrite HL0 at 1. now rewrite <- app_assoc. }
    replace (S (List.length pre)) with (List.length (pre ++ [L_open]))
      by (rewrite length_app; simpl; lia).
    rewrite (IH Hwf L _ _ (c + 1)%Z todo HL1) by lia.
    replace (c + 1 =? 0)%Z with false by (symmetry; apply Z.eqb_neq; lia).
    destruct (todo - List.length (flat e)) as [|todo1] eqn:Et1; [lia|].
    assert (Hlk1 : L !! (List.length (pre ++ [L_open]) + List.length (flat e))
                   = Some L_close).
    { rewrite HL1 at 1. rewrite app_assoc. apply list_lookup_middle.
      symmetry. apply length_app. }
    rewrite (scan_right_step _ _ _ _ _ Hlk1). simpl String.eqb. cbv zeta.
    replace (c + 1 - 1)%Z with c by lia.
    assert (Hpos : List.length (pre ++ [L_open]) + List.length (flat e) + 1
                   = List.length pre + (List.length (flat e) + 2)).
    { rewrite !length_app. simpl. lia. }
    rewrite Hpos.
    destruct (c =? 0)%Z eqn:E.
    + apply Z.eqb_eq in E. now subst c.
    + f_equal; lia.
Qed.

(** Wrapping an operator that stands between two terms puts exactly
    these two terms and the operator in one pair of parentheses. *)
Lemma insertParanthesesAround_terms (l r : term) (op : string)
      (pre rest : list string) :
  wf_term l -> wf_term r ->
  insertParanthesesAround (pre ++ flat l ++ op :: flat r ++ rest)
                          (List.length pre + List.length (flat l))
  = Return (pre ++ flat (Bin l op r) ++ rest).
Proof.
  intros Hwl Hwr. unfold insertParanthesesAround.
  rewrite (scan_left_term l Hwl _ pre (op :: flat r ++ rest) 0%Z eq_refl)
    by lia.
  simpl Z.eqb. cbv iota. simpl obind. cbv iota.
  rewrite py_insert_app.
  set (L1 := pre ++ L_open :: flat l ++ op :: flat r ++ rest).
  assert (Hlen : List.length L1 = List.length pre + List.length (flat l)
                                  + 2 + List.length (flat r) + List.length rest).
  { unfold L1. rewrite !length_app. simpl. rewrite !length_app. simpl.
    rewrite !length_app. lia. }
  pose proof (flat_nonempty r) as Hr.
  replace (List.length L1 <=? List.length pre + List.length (flat l) + 2)%nat
    with false by (symmetry; apply Nat.leb_gt; lia).
  assert (HL1 : L1 = (pre ++ L_open :: flat l ++ [op]) ++ flat r ++ rest).
  { unfold L1. repeat (rewrite <- app_assoc; simpl). reflexivity. }
  replace (List.length pre + List.length (flat l) + 2)
    with (List.length (pre ++ L_open :: flat l ++ [op]))
    by (rewrite !length_app; simpl; rewrite !length_app; simpl; lia).
  rewrite (scan_right_term r Hwr L1 _ rest 0%Z _ HL1)
    by (try lia; rewrite Hlen, !length_app; simpl; rewrite !length_app; simpl; lia).
  simpl Z.eqb. cbv iota. simpl obind. cbv iota.
  rewrite HL1, app_assoc, <- length_app, py_insert_app.
  simpl. repeat (rewrite <- app_assoc; simpl). reflexivity.
Qed.


Lemma indices_from_app_free (p : string -> bool) (k : nat) (l1 l2 : list string) :
  Forall (fun t => p t = false) l1 ->
  indices_from p k (l1 ++ l2) = indices_from p (k + List.length l1) l2.
Proof.
  intros H. revert k. induction H as [|t l1 Ht _ IH]; intros k; simpl.
  - now rewrite Nat.add_0_r.
  - rewrite Ht, IH. f_equal. lia.
Qed.

(** One pass over a chain whose items hold no operator of the tier: each
    recorded index, shifted by two per earlier wrap, is the place of its
    operator, and the pass groups the chain from left to right. *)
Lemma wrap_from_chain (p : string -> bool) (rest : list (string * term)) :
  forall (pre : list string) (acc : term) (i k0 : nat),
    wf_term acc -> tail_ok p rest ->
    List.length pre + List.length (flat acc) = k0 + 2 * i ->
    wrap_from i (indices_from p k0 (flat_tail rest))
              (pre ++ flat acc ++ flat_tail rest)
    = Return (pre ++ flat_chain (group_tier p acc rest)).
Proof.
  induction rest as [|[op e] rest IH]; intros pre acc i k0 Hacc Hok Hlen.
  - simpl. unfold flat_chain. simpl. reflexivity.
  - inversion Hok as [|oe rest' (Hop & Hwe & Hfree) Hok' Heq]; subst.
    simpl in Hop, Hwe, Hfree.
    simpl flat_tail. simpl indices_from.
    rewrite (indices_from_app_free p (S k0) (flat e) _ Hfree).
    simpl group_tier.
    destruct (p op) eqn:Hp.
    + simpl wrap_from.
      replace (k0 + (i + (i + 0))) with (List.length pre + List.length (flat acc))
        by lia.
      rewrite (insertParanthesesAround_terms acc e op pre (flat_tail rest) Hacc Hwe).
      simpl obind.
      apply (IH pre (Bin acc op e) (S i) (S k0 + List.length (flat e))).
      * simpl. auto.
      * exact Hok'.
      * simpl. rewrite !length_app. simpl. rewrite !length_app. simpl. lia.
    + replace (pre ++ flat acc ++ op :: flat e ++ flat_tail rest)
        with ((pre ++ flat acc ++ [op]) ++ flat e ++ flat_tail rest)
        by (repeat (rewrite <- app_assoc; simpl); reflexivity).
      rewrite (IH (pre ++ flat acc ++ [op]) e i (S k0 + List.length (flat e))
                  Hwe Hok').
      * destruct (group_tier p e rest) as [e' r']. unfold flat_chain. simpl.
        repeat (rewrite <- app_assoc; simpl). reflexivity.
      * rewrite !length_app. simpl. lia.
Qed.

Lemma wrap_pass_chain (p : string -> bool) (e0 : term)
      (rest : list (string * term)) :
  wf_term e0 -> tier_free p e0 -> tail_ok p rest ->
  wrap_pass p (flat_chain (e0, rest))
  = Return (flat_chain (group_tier p e0 rest)).
Proof.
  intros Hw Hf Hok. unfold wrap_pass, indices_of, flat_chain. simpl.
  rewrite (indices_from_app_free p 0 (flat e0) _ Hf).
  exact (wrap_from_chain p rest [] e0 0 (List.length (flat e0)) Hw Hok
           ltac:(simpl; lia)).
Qed.

(** What a pass leaves: well-formed items, the operators of the other
    tiers in their order, and no operator of a lower tier inside an
    item. *)
Lemma tier_free_Bin (p : string -> bool) (l r : term) (op : string) :
  p L_open = false -> p L_close = false -> p op = false ->
  tier_free p l -> tier_free p r -> tier_free p (Bin l op r).
Proof.
  intros Ho Hc Hop Hl Hr. unfold tier_free in *. simpl.
  constructor; [exact Ho|]. apply Forall_app. split; [exact Hl|].
  constructor; [exact Hop|]. apply Forall_app. split; [exact Hr|].
  now constructor.
Qed.

Lemma group_tier_ok (p p' : string -> bool) (rest : list (string * term)) :
  p' L_open = false -> p' L_close = false ->
  (forall op, p op = true -> p' op = false) ->
  forall acc : term,
    wf_term acc -> tier_free p' acc -> tail_ok p' rest ->
    wf_term (fst (group_tier p acc rest))
    /\ tier_free p' (fst (group_tier p acc rest))
    /\ tail_ok p' (snd (group_tier p acc rest))
    /\ List.map fst (snd (group_tier p acc rest))
       = List.filter (fun op => negb (p op)) (List.map fst rest).
Proof.
  intros Ho Hc Hpp'.
  induction rest as [|[op e] rest IH]; intros acc Hw Hf Hok.
  - simpl. repeat split; auto.
  - inversion Hok as [|oe rest' (Hop & Hwe & Hfe) Hok' Heq]; subst.
    simpl in Hop, Hwe, Hfe. simpl group_tier. simpl List.map. simpl List.filter.
    destruct (p op) eqn:Hp; simpl negb; cbv iota.
    + apply IH; [simpl; auto | | exact Hok'].
      apply tier_free_Bin; auto.
    + destruct (IH e Hwe Hfe Hok') as (H1 & H2 & H3 & H4).
      destruct (group_tier p e rest) as [e' r']. simpl in *.
      repeat split; auto.
      * constructor; [|exact H3]. simpl. auto.
      * now rewrite H4.
Qed.

Lemma group_tier_all (p : string -> bool) (rest : list (string * term))
      (acc : term) :
  Forall (fun op => p op = true) (List.map fst rest) ->
  snd (group_tier p acc rest) = [].
Proof.
  revert acc. induction rest as [|[op e] rest IH]; intros acc H; simpl.
  - reflexivity.
  - inversion H as [|x l' Hop Hrest]; subst. simpl in Hop. rewrite Hop.
    now apply IH.
Qed.

Lemma tier_is_operator (t : string) :
  (is_pow t = true -> is_operator t = true)
  /\ (is_mul t = true -> is_operator t = true)
  /\ (is_add t = true -> is_operator t = true).
Proof.
  unfold is_pow, is_mul, is_add.
  repeat split; intros H;
    repeat (apply orb_prop in H; destruct H as [H|H]);
    apply String.eqb_eq in H; subst t; reflexivity.
Qed.

Lemma is_atom_tier_free (p : string -> bool) (t : string) :
  (forall s, p s = true -> is_operator s = true) ->
  is_atom t = true -> tier_free p (Atom t).
Proof.
  intros Hp Ht. destruct (is_atom_cases t Ht) as (_ & Hop & _).
  unfold tier_free. simpl. constructor; [|constructor].
  destruct (p t) eqn:E; [|reflexivity]. apply Hp in E. congruence.
Qed.

Lemma atoms_tail_ok (p : string -> bool) (rest : list (string * string)) :
  (forall s, p s = true -> is_operator s = true) ->
  Forall (fun ot => is_operator (fst ot) = true /\ is_atom (snd ot) = true) rest ->
  tail_ok p (atoms rest).
Proof.
  intros Hp H. unfold tail_ok, atoms. apply Forall_map.
  eapply Forall_impl; [exact H|]. intros [op t] [Hop Ht]. simpl in *.
  repeat split; auto. now apply is_atom_tier_free.
Qed.

Lemma operator_tier_cases (op : string) :
  is_operator op = true ->
  is_pow op = false -> is_mul op = false -> is_add op = true.
Proof.
  unfold is_operator, is_pow, is_mul, is_add. simpl.
  destruct (String.eqb op "+"), (String.eqb op "-"), (String.eqb op "*"),
    (String.eqb op "/"), (String.eqb op "^"); simpl; auto; discriminate.
Qed.

Lemma preprocess_atoms (t0 : string) (rest : list (string * string)) :
  is_atom t0 = true ->
  Forall (fun ot => is_operator (fst ot) = true /\ is_atom (snd ot) = true) rest ->
  preprocess (t0 :: flat_tail (atoms rest))
  = Return (flat (precedence_tree t0 rest))
  /\ wf_term (precedence_tree t0 rest).
Proof.
  intros Ht0 Hrest.
  assert (Tpow : forall s, is_pow s = true -> is_operator s = true)
    by (intros s; apply tier_is_operator).
  assert (Tmul : forall s, is_mul s = true -> is_operator s = true)
    by (intros s; apply tier_is_operator).
  assert (Tadd : forall s, is_add s = true -> is_operator s = true)
    by (intros s; apply tier_is_operator).
  assert (Hops : Forall (fun op => is_operator op = true) (List.map fst (atoms rest))).
  { unfold atoms. rewrite List.map_map. simpl. apply Forall_map.
    eapply Forall_impl; [exact Hrest|]. now intros [op t] [Hop _]. }
  (* the first pass, and what it leaves for the second and third *)
  pose proof (wrap_pass_chain is_pow (Atom t0) (atoms rest) Ht0
                (is_atom_tier_free _ _ Tpow Ht0) (atoms_tail_ok _ _ Tpow Hrest)) as P1.
  destruct (group_tier_ok is_pow is_mul (atoms rest) eq_refl eq_refl
              ltac:(intros op H; apply String.eqb_eq in H; now subst op)
              (Atom t0) Ht0 (is_atom_tier_free _ _ Tmul Ht0)
              (atoms_tail_ok _ _ Tmul Hrest)) as (W1 & F1m & O1m & M1).
  destruct (group_tier_ok is_pow is_add (atoms rest) eq_refl eq_refl
              ltac:(intros op H; apply String.eqb_eq in H; now subst op)
              (Atom t0) Ht0 (is_atom_tier_free _ _ Tadd Ht0)
              (atoms_tail_ok _ _ Tadd Hrest)) as (_ & F1a & O1a & _).
  unfold precedence_tree.
  destruct (group_tier is_pow (Atom t0) (atoms rest)) as [e1 r1] eqn:G1.
  simpl in W1, F1m, O1m, M1, F1a, O1a.
  (* the second pass *)
  pose proof (wrap_pass_chain is_mul e1 r1 W1 F1m O1m) as P2.
  destruct (group_tier_ok is_mul is_add r1 eq_refl eq_refl
              ltac:(intros op H; apply orb_prop in H; destruct H as [H|H];
                    apply String.eqb_eq in H; now subst op)
              e1 W1 F1a O1a) as (W2 & F2a & O2a & M2).
  destruct (group_tier is_mul e1 r1) as [e2 r2] eqn:G2.
  simpl in W2, F2a, O2a, M2.
  (* the third pass takes every operator that is left *)
  pose proof (wrap_pass_chain is_add e2 r2 W2 F2a O2a) as P3.
  assert (Hall : Forall (fun op => is_add op = true) (List.map fst r2)).
  { rewrite M2, M1. apply Forall_forall. intros op Hin.
    apply list_elem_of_In in Hin.
    apply List.filter_In in Hin. destruct Hin as [Hin Hm].
    apply List.filter_In in Hin. destruct Hin as [Hin Hpw].
    apply negb_true_iff in Hm, Hpw.
    apply operator_tier_cases; auto.
    rewrite Forall_forall in Hops. apply Hops. now apply list_elem_of_In. }
  pose proof (group_tier_all is_add r2 e2 Hall) as Hnil.
  assert (Hany : forall e : term, tier_free (fun _ => false) e)
    by (intros e; apply Forall_forall; reflexivity).
  destruct (group_tier_ok is_add (fun _ => false) r2 eq_refl eq_refl
              ltac:(reflexivity) e2 W2 (Hany e2)) as (W3 & _).
  { eapply Forall_impl; [exact O2a|]. intros [op e] (H1 & H2 & _).
    repeat split; auto. }
  split; [|exact W3].
  unfold preprocess.
  change (t0 :: flat_tail (atoms rest)) with (flat_chain (Atom t0, atoms rest)).
  rewrite P1. simpl obind. rewrite P2. simpl obind. rewrite P3.
  unfold flat_chain. rewrite Hnil. simpl. now rewrite app_nil_r.
Qed.

(** X8. On a parenthesis-free formula [t0 op1 t1 op2 t2 ...] of operands
    and operators, normalization succeeds and returns the fully
    parenthesized lexemes of its precedence tree: [^] grouped first, then
    [*] and [/], then [+] and [-], every tier from left to right. *)
Theorem preprocess_parenthesis_free (t0 : string) (rest : list (string * string)) :
  is_atom t0 = true ->
  Forall (fun ot => is_operator (fst ot) = true /\ is_atom (snd ot) = true) rest ->
  preprocess (t0 :: flat_tail (atoms rest))
  = Return (flat (precedence_tree t0 rest))
  /\ wf_term (precedence_tree t0 rest).
Proof. apply preprocess_atoms. Qed.


Lemma depth_inner (e : term) : depth e <= 2 * inner e + 1.
Proof. induction e as [t | l IHl op r IHr | e IH]; simpl; lia. Qed.

Lemma group_tier_inner (p : string -> bool) (rest : list (string * term))
      (acc : term) :
  inner (fst (group_tier p acc rest)) + tail_inner (snd (group_tier p acc rest))
  = inner acc + tail_inner rest.
Proof.
  revert acc. induction rest as [|[op e] rest IH]; intros acc; simpl.
  - reflexivity.
  - destruct (p op).
    + rewrite IH. simpl. lia.
    + specialize (IH e). destruct (group_tier p e rest) as [e' r']. simpl in *. lia.
Qed.

Lemma atoms_inner (rest : list (string * string)) :
  tail_inner (atoms rest) = List.length rest.
Proof. induction rest as [|[op t] rest IH]; simpl; [reflexivity | now rewrite IH]. Qed.

(** A formula with [n] operators has a precedence tree of depth at most
    [2 * n + 1]. *)
Lemma precedence_tree_depth (t0 : string) (rest : list (string * string)) :
  depth (precedence_tree t0 rest) <= 2 * List.length rest + 1.
Proof.
  unfold precedence_tree.
  pose proof (group_tier_inner is_pow (atoms rest) (Atom t0)) as H1.
  destruct (group_tier is_pow (Atom t0) (atoms rest)) as [e1 r1].
  pose proof (group_tier_inner is_mul r1 e1) as H2.
  destruct (group_tier is_mul e1 r1) as [e2 r2].
  pose proof (group_tier_inner is_add r2 e2) as H3.
  destruct (group_tier is_add e2 r2) as [e3 r3].
  rewrite atoms_inner in H1. simpl in *.
  pose proof (depth_inner e3). lia.
Qed.

(** X9. A parenthesis-free formula of operands and operators parses. On
    every sample array its evaluation returns the value of its precedence
    tree, a float or an array with one element per sample, when the
    interpreter grants more frames than the depth of that tree plus two,
    and raises [RecursionError] when it grants fewer; the depth is at
    most twice the number of operators plus one. *)
Theorem parse_parenthesis_free (formula : string) (t0 : string)
        (rest : list (string * string)) :
  lexems_of formula = t0 :: flat_tail (atoms rest) ->
  is_atom t0 = true ->
  Forall (fun ot => is_operator (fst ot) = true /\ is_atom (snd ot) = true) rest ->
  exists p, run_parse formula = Return p
    /\ depth (precedence_tree t0 rest) <= 2 * List.length rest + 1
    /\ forall frames x,
         (depth (precedence_tree t0 rest) + 2 < frames ->
          exists v, fst (AP_evaluate frames p x) = Return v
                    /\ denote (precedence_tree t0 rest) x = Return v
                    /\ shaped x v)
         /\ (frames <= depth (precedence_tree t0 rest) + 2 ->
             fst (AP_evaluate frames p x) = Raise RecursionError).
Proof.
  intros Hlex Ht0 Hrest.
  destruct (preprocess_atoms t0 rest Ht0 Hrest) as [Hpre Hwf].
  assert (Htok : tockenize formula = Return (flat (precedence_tree t0 rest)))
    by (unfold tockenize; now rewrite Hlex).
  destruct (parse_flat_term formula _ Htok Hwf) as (p & Hp & Hev).
  exists p. split; [exact Hp|]. split; [apply precedence_tree_depth|].
  intros frames x. rewrite Hev.
  destruct (denote_returns (precedence_tree t0 rest) x Hwf) as (v & Hv & Hs & _).
  destruct (Nat.ltb_spec (depth (precedence_tree t0 rest) + 2) frames) as [H|H];
    split; intros H'; try lia; [|reflexivity].
  exists v. auto.
Qed.

Lemma group_tier_none (p : string -> bool) (rest : list (string * term))
      (acc : term) :
  Forall (fun op => p op = false) (List.map fst rest) ->
  group_tier p acc rest = (acc, rest).
Proof.
  revert acc. induction rest as [|[op e] rest IH]; intros acc H; simpl.
  - reflexivity.
  - inversion H as [|x l' Hop Hrest]; subst. simpl in Hop. rewrite Hop.
    now rewrite (IH e Hrest).
Qed.

Lemma group_tier_fold (p : string -> bool) (rest : list (string * string))
      (acc : term) :
  Forall (fun ot => p (fst ot) = true) rest ->
  group_tier p acc (atoms rest)
  = (fold_left (fun a ot => Bin a (fst ot) (Atom (snd ot))) rest acc, []).
Proof.
  revert acc. induction rest as [|[op t] rest IH]; intros acc H; simpl.
  - reflexivity.
  - inversion H as [|x l' Hop Hrest]; subst. simpl in Hop. rewrite Hop.
    now apply IH.
Qed.

Lemma atoms_ops (rest : list (string * string)) :
  List.map fst (atoms rest) = List.map fst rest.
Proof. unfold atoms. rewrite List.map_map. reflexivity. Qed.

(** When all the operators belong to one tier, the precedence tree is
    the left-nested one. *)
Lemma single_tier_tree (p : string -> bool) (t0 : string)
      (rest : list (string * string)) :
  p = is_pow \/ p = is_mul \/ p = is_add ->
  Forall (fun ot => p (fst ot) = true) rest ->
  precedence_tree t0 rest = left_nest t0 rest.
Proof.
  intros Hp Hops. unfold precedence_tree, left_nest.
  assert (Hmap : forall q : string -> bool,
             (forall op, p op = true -> q op = false) ->
             Forall (fun op => q op = false) (List.map fst (atoms rest))).
  { intros q Hq. rewrite atoms_ops. apply Forall_map.
    eapply Forall_impl; [exact Hops|]. intros ot H. now apply Hq. }
  destruct Hp as [-> | [-> | ->]].
  - rewrite (group_tier_fold is_pow rest _ Hops). reflexivity.
  - rewrite (group_tier_none is_pow (atoms rest)).
    2:{ apply Hmap. intros op H. apply orb_prop in H.
        destruct H as [H|H]; apply String.eqb_eq in H; now subst op. }
    rewrite (group_tier_fold is_mul rest _ Hops). reflexivity.
  - rewrite (group_tier_none is_pow (atoms rest)).
    2:{ apply Hmap. intros op H. apply orb_prop in H.
        destruct H as [H|H]; apply String.eqb_eq in H; now subst op. }
    rewrite (group_tier_none is_mul (atoms rest)).
    2:{ apply Hmap. intros op H. apply orb_prop in H.
        destruct H as [H|H]; apply String.eqb_eq in H; now subst op. }
    rewrite (group_tier_fold is_add rest _ Hops). reflexivity.
Qed.

Lemma single_tier_operators (p : string -> bool) (rest : list (string * string)) :
  p = is_pow \/ p = is_mul \/ p = is_add ->
  Forall (fun ot => p (fst ot) = true /\ is_atom (snd ot) = true) rest ->
  Forall (fun ot => p (fst ot) = true) rest
  /\ Forall (fun ot => is_operator (fst ot) = true /\ is_atom (snd ot) = true) rest.
Proof.
  intros Hp Hrest. split.
  - eapply Forall_impl; [exact Hrest|]. simpl. intros ot [H _]. exact H.
  - eapply Forall_impl; [exact Hrest|]. simpl. intros ot [H1 H2].
    split; [|exact H2].
    destruct (tier_is_operator (fst ot)) as (A & B & C).
    destruct Hp as [-> | [-> | ->]]; auto.
Qed.

(** X10. When all the operators of a parenthesis-free formula belong to
    one tier, normalization nests them to the left, [^] included:
    [a ^ b ^ c] becomes [( ( a ^ b ) ^ c )]. *)
Theorem same_tier_groups_left (p : string -> bool) (t0 : string)
        (rest : list (string * string)) :
  p = is_pow \/ p = is_mul \/ p = is_add ->
  is_atom t0 = true ->
  Forall (fun ot => p (fst ot) = true /\ is_atom (snd ot) = true) rest ->
  preprocess (t0 :: flat_tail (atoms rest)) = Return (flat (left_nest t0 rest)).
Proof.
  intros Hp Ht0 Hrest.
  destruct (single_tier_operators p rest Hp Hrest) as [Hops Hwf].
  destruct (preprocess_atoms t0 rest Ht0 Hwf) as [Hpre _].
  rewrite Hpre. do 2 f_equal.
  now apply (single_tier_tree p).
Qed.

(** Every operator of a left-nested chain adds one level, the first one
    two: its right operand hangs under a placeholder. *)
Lemma fold_left_depth (rest : list (string * string)) (acc : term) :
  2 <= depth acc ->
  depth (fold_left (fun a ot => Bin a (fst ot) (Atom (snd ot))) rest acc)
  = depth acc + List.length rest.
Proof.
  revert acc. induction rest as [|ot rest IH]; intros acc Hacc; simpl.
  - lia.
  - rewrite IH; simpl; lia.
Qed.

Lemma left_nest_depth (t0 : string) (rest : list (string * string)) :
  rest <> [] -> depth (left_nest t0 rest) = List.length rest + 2.
Proof.
  destruct rest as [|ot rest]; [congruence|]. intros _.
  unfold left_nest. simpl fold_left. rewrite fold_left_depth; simpl; lia.
Qed.

(** X22. A parenthesis-free chain of [n >= 1] operators of one tier
    ([x+x+...+x]) parses, to a tree that leans to the left with one level
    per operator. Its evaluation returns the value of the left-nested
    expression, a float or an array with one element per sample, when the
    interpreter grants more than [n + 4] frames, and raises
    [RecursionError] otherwise: a chain of a thousand operators cannot be
    evaluated under Python's default limit of 1000. *)
Theorem chain_recursion_limit (p : string -> bool) (formula t0 : string)
        (rest : list (string * string)) :
  lexems_of formula = t0 :: flat_tail (atoms rest) ->
  p = is_pow \/ p = is_mul \/ p = is_add ->
  is_atom t0 = true ->
  Forall (fun ot => p (fst ot) = true /\ is_atom (snd ot) = true) rest ->
  rest <> [] ->
  exists pr, run_parse formula = Return pr
    /\ forall frames x,
         (List.length rest + 4 < frames ->
          exists v, fst (AP_evaluate frames pr x) = Return v
                    /\ denote (left_nest t0 rest) x = Return v /\ shaped x v)
         /\ (frames <= List.length rest + 4 ->
             fst (AP_evaluate frames pr x) = Raise RecursionError).
Proof.
  intros Hlex Hp Ht0 Hrest Hne.
  destruct (single_tier_operators p rest Hp Hrest) as [Hops Hall].
  destruct (preprocess_atoms t0 rest Ht0 Hall) as [Hpre Hwf].
  rewrite (single_tier_tree p t0 rest Hp Hops) in Hpre, Hwf.
  assert (Htok : tockenize formula = Return (flat (left_nest t0 rest)))
    by (unfold tockenize; now rewrite Hlex).
  destruct (parse_flat_term formula _ Htok Hwf) as (pr & Hpr & Hev).
  exists pr. split; [exact Hpr|]. intros frames x. rewrite Hev.
  rewrite (left_nest_depth t0 rest Hne).
  destruct (denote_returns (left_nest t0 rest) x Hwf) as (v & Hv & Hs & _).
  destruct (Nat.ltb_spec (List.length rest + 2 + 2) frames) as [H|H];
    split; intros H'; try lia; [|reflexivity].
  exists v. auto.
Qed.


(** * The limits validator *)

Lemma getitem_setitem (name : limit_name) (v : pyval) (o : limits) :
  getitem name (setitem name v o) = VReturn v.
Proof. now destruct name. Qed.

Lemma parse_limit_cases (name : limit_name) (o : limits) :
  parse_limit name o
  = match attr name o with
    | None => (VRaise (VAttributeError name), o)
    | Some v =>
        match float_of v with
        | None => (VRaise (VValueError
                     (String.append (name_str name) " is not a valid number")), o)
        | Some f => (VReturn (PFloat f), setitem name (PFloat f) o)
        end
    end.
Proof.
  unfold parse_limit. unfold getitem at 1.
  destruct (attr name o) as [v|] eqn:Ha; [|reflexivity].
  destruct (float_of v) as [f|]; [|reflexivity].
  now rewrite getitem_setitem.
Qed.

(** X11. A successful [parse] of a limit stores the float in place of the
    text and leaves the other limit alone; parsing the same limit again
    returns the same float and changes nothing. *)
Theorem parse_limit_idempotent (name : limit_name) (o o' : limits) (v : pyval) :
  parse_limit name o = (VReturn v, o') ->
  (exists f, v = PFloat f)
  /\ parse_limit name o' = (VReturn v, o')
  /\ getitem name o' = VReturn v
  /\ match name with
     | lower_limit => upper o' = upper o
     | upper_limit => lower o' = lower o
     end.
Proof.
  rewrite !parse_limit_cases.
  destruct (attr name o) as [w|]; [|discriminate].
  destruct (float_of w) as [g|]; [|discriminate].
  intros [= <- <-]. split; [now exists g|].
  destruct name; simpl; repeat split; reflexivity.
Qed.

(** X12. A [parse] that fails on the text of a limit raises
    [ValueError] naming the limit, leaves the object as it was, and
    switches the range check off: [validate] then returns without
    raising, whatever the other limit. *)
Theorem failed_parse_disables_validate (name : limit_name) (o o' : limits)
        (msg : string) :
  contains lower_limit o = true -> contains upper_limit o = true ->
  parse_limit name o = (VRaise (VValueError msg), o') ->
  o' = o
  /\ msg = String.append (name_str name) " is not a valid number"
  /\ validate o = VReturn tt.
Proof.
  rewrite parse_limit_cases. unfold contains, validate, getitem.
  destruct o as [[lo|] [up|]]; simpl; try discriminate. intros _ _.
  destruct name; simpl.
  - destruct lo as [s|l]; simpl; [|discriminate].
    destruct (pyfloat s); [discriminate|]. intros [= <- <-]. auto.
  - destruct up as [s|u]; simpl; [|discriminate].
    destruct (pyfloat s); [discriminate|]. intros [= <- <-].
    repeat split. now destruct lo.
Qed.

(** X13. Once both limits are parsed, [validate] raises
    [ValueError("From is greater than To")] exactly when
    [upper <= lower] holds for the two floats, and returns otherwise. *)
Theorem validate_after_parse (o o1 o2 : limits) (l u : float) :
  parse_limit lower_limit o = (VReturn (PFloat l), o1) ->
  parse_limit upper_limit o1 = (VReturn (PFloat u), o2) ->
  validate o2
  = if PrimFloat.leb u l then VRaise (VValueError "From is greater than To")
    else VReturn tt.
Proof.
  rewrite !parse_limit_cases. simpl.
  destruct (lower o) as [v|]; [|discriminate].
  destruct (float_of v) as [f|]; [|discriminate].
  intros [= -> <-]. simpl.
  destruct (upper o) as [w|]; [|discriminate].
  destruct (float_of w) as [g|]; [|discriminate].
  intros [= -> <-]. reflexivity.
Qed.


(** * The exceptions of [parse] *)

Lemma scan_left_raises (l : list string) (n : nat) (c : Z) (e : exn) :
  scan_left l n c = Raise e -> e = IndexError.
Proof.
  revert c. induction n as [|n IH]; intros c; simpl; [discriminate|].
  destruct (l !! n) as [t|]; [|now intros [= <-]].
  destruct (String.eqb t L_close); [apply IH|].
  destruct (_ =? 0)%Z; [discriminate | apply IH].
Qed.

Lemma scan_right_raises (l : list string) (todo ptr : nat) (c : Z) (e : exn) :
  scan_right l todo ptr c = Raise e -> e = IndexError.
Proof.
  revert ptr c. induction todo as [|n IH]; intros ptr c; simpl; [discriminate|].
  destruct (l !! ptr) as [t|]; [|now intros [= <-]].
  destruct (String.eqb t L_open); [apply IH|].
  destruct (_ =? 0)%Z; [discriminate | apply IH].
Qed.

Lemma insertParanthesesAround_raises (l : list string) (index : nat) (e : exn) :
  insertParanthesesAround l index = Raise e -> normalizer_exception e.
Proof.
  unfold insertParanthesesAround, normalizer_exception.
  destruct (scan_left l index 0) as [[l1 c1]|e1|] eqn:Hl; simpl; try discriminate.
  2:{ intros [= <-]. apply scan_left_raises in Hl. auto. }
  destruct (negb (c1 =? 0)%Z); [intros [= <-]; auto|].
  destruct (List.length l1 <=? index + 2)%nat; [discriminate|].
  destruct (scan_right l1 _ _ c1) as [[l2 c2]|e2|] eqn:Hr; simpl; try discriminate.
  2:{ intros [= <-]. apply scan_right_raises in Hr. auto. }
  destruct (negb (c2 =? 0)%Z); [intros [= <-]; auto | discriminate].
Qed.

Lemma wrap_from_raises (indices : list nat) (i : nat) (l : list string) (e : exn) :
  wrap_from i indices l = Raise e -> normalizer_exception e.
Proof.
  revert i l. induction indices as [|idx rest IH]; intros i l; simpl; [discriminate|].
  destruct (insertParanthesesAround l _) as [l1|e1|] eqn:H1; simpl; try discriminate.
  - apply IH.
  - intros [= <-]. eapply insertParanthesesAround_raises. exact H1.
Qed.

Lemma tockenize_raises (formula : string) (e : exn) :
  tockenize formula = Raise e -> normalizer_exception e.
Proof.
  unfold tockenize, preprocess, wrap_pass.
  generalize (lexems_of formula). intros l0.
  destruct (wrap_from 0 (indices_of is_pow l0) l0) as [l1|e1|] eqn:H1; simpl;
    try discriminate.
  2:{ intros [= <-]. eapply wrap_from_raises. exact H1. }
  destruct (wrap_from 0 (indices_of is_mul l1) l1) as [l2|e2|] eqn:H2; simpl;
    try discriminate.
  2:{ intros [= <-]. eapply wrap_from_raises. exact H2. }
  apply wrap_from_raises.
Qed.

Lemma parse_loop_raises (lexems : list string) (h h' : store)
      (st : addr * list addr) (e : exn) :
  wf_state h st -> parse_loop lexems st h = (Raise e, h') ->
  exists tk, In tk lexems /\ known tk = false /\ e = unknown_variable tk.
Proof.
  revert h st. induction lexems as [|tk rest IH]; intros h st Hst; simpl.
  - discriminate.
  - unfold mbind. destruct (parse_step st tk h) as [o1 h1] eqn:Hstep.
    pose proof (parse_step_wf _ _ _ _ _ Hst Hstep) as Hwf1.
    destruct o1 as [st1|e1|]; [| |destruct Hwf1].
    + intros Hloop. destruct (IH _ _ Hwf1 Hloop) as (t & Hin & Hrest).
      exists t. split; [now right | exact Hrest].
    + intros [= -> <-]. exists tk. split; [now left|].
      destruct (known tk) eqn:Hk.
      * destruct (parse_step_known h st tk Hst Hk) as (st' & h' & Hs & _).
        congruence.
      * rewrite (parse_step_unknown h st tk Hst Hk) in Hstep.
        split; [reflexivity | congruence].
Qed.

Lemma run_parse_raises (formula : string) (e : exn) :
  run_parse formula = Raise e ->
  normalizer_exception e \/ exists tk, known tk = false /\ e = unknown_variable tk.
Proof.
  unfold run_parse, parse, build, mbind, new_node, mlift. simpl.
  destruct (tockenize formula) as [lexems|e1|] eqn:Htok.
  - destruct (parse_loop lexems (0, []) [Node (TStr L_eq) None None])
      as [o h'] eqn:Hloop.
    destruct o as [[cur stack]|e1|].
    + cbn [snd]. destruct (0 <? List.length stack)%nat; simpl; [|discriminate].
      intros [= <-]. left. right. now left.
    + intros [= <-].
      destruct (parse_loop_raises _ _ _ _ _ wf_state_initial Hloop)
        as (tk & _ & Hk & He).
      right. now exists tk.
    + discriminate.
  - intros [= <-]. left. eapply tockenize_raises. exact Htok.
  - discriminate.
Qed.

(** X14. [parse] raises nothing but [SyntaxError] with one of its two
    messages, [NameError] and [IndexError]. When normalization fails,
    [parse] raises its exception: one of the two [SyntaxError]s or the
    [IndexError] of the backward scan. When normalization succeeds,
    [parse] raises the too-few-closing-parentheses [SyntaxError] or the
    [NameError] of a normalized lexeme that is no parenthesis, operator,
    [x] or number. *)
Theorem parse_exceptions (formula : string) (e : exn) :
  run_parse formula = Raise e ->
  match tockenize formula with
  | Raise e' => e = e' /\ normalizer_exception e
  | Return lexems =>
      e = SyntaxError "Too few closing parantheses"
      \/ exists tk, In tk lexems /\ known tk = false /\ e = unknown_variable tk
  | Stuck => False
  end.
Proof.
  unfold run_parse, parse, build, mbind, new_node, mlift. simpl.
  destruct (tockenize formula) as [lexems|e1|] eqn:Htok; [| |discriminate].
  - destruct (parse_loop lexems (0, []) [Node (TStr L_eq) None None])
      as [o h'] eqn:Hloop.
    destruct o as [[cur stack]|e1|]; [| |discriminate].
    + cbn [snd]. destruct (0 <? List.length stack)%nat; simpl; [|discriminate].
      intros [= <-]. now left.
    + intros [= <-]. right.
      exact (parse_loop_raises _ _ _ _ _ wf_state_initial Hloop).
  - intros [= <-]. split; [reflexivity|].
    eapply tockenize_raises. exact Htok.
Qed.

(** The [IndexError] does occur: three operators whose first two wraps
    insert less than the two parentheses the offsets count on. *)
Example index_error_reachable :
  run_parse "+x)+x()+(" = Raise IndexError.
Proof. reflexivity. Qed.

(** * [refresh] and the worker *)

Lemma check_limits_table (lower_text upper_text : string) :
  check_limits lower_text upper_text
  = VReturn
      match pyfloat lower_text, pyfloat upper_text with
      | Some l, Some u =>
          if PrimFloat.leb u l
          then Checked "From is greater than To" true true false (PFloat l) (PFloat u)
          else Checked EmptyString false false true (PFloat l) (PFloat u)
      | Some l, None =>
          Checked "upper_limit is not a valid number" false true false
                  (PFloat l) (PStr upper_text)
      | None, Some u =>
          Checked "lower_limit is not a valid number" true false false
                  (PStr lower_text) (PFloat u)
      | None, None =>
          Checked "upper_limit is not a valid number" true true false
                  (PStr lower_text) (PStr upper_text)
      end.
Proof.
  unfold check_limits. rewrite !parse_limit_cases. simpl.
  destruct (pyfloat lower_text) as [l|]; simpl;
    rewrite !parse_limit_cases; simpl;
    destruct (pyfloat upper_text) as [u|]; simpl; try reflexivity.
  unfold validate. simpl. now destruct (PrimFloat.leb u l).
Qed.

(** X15. [refresh] ends normally or with the [IndexError] of [parse]. It
    starts a worker exactly when it leaves the error label empty: then
    no input is red, both limits are numbers with the lower one not
    [>=] the upper one, and the worker holds the tree of the function
    and the samples between the limits. Without a worker the label holds
    a message. *)
Theorem refresh_outcomes (func lower_text upper_text : string) (d : display) :
  match refresh func lower_text upper_text d with
  | Refreshed d' None => error_label d' <> EmptyString
  | Refreshed d' (Some j) =>
      error_label d' = EmptyString
      /\ from_red d' = false /\ to_red d' = false /\ func_red d' = false
      /\ run_parse func = Return (job_parser j)
      /\ exists l u, pyfloat lower_text = Some l /\ pyfloat upper_text = Some u
                     /\ PrimFloat.leb u l = false
                     /\ job_x j = np_linspace l u
  | ParserRaises e => e = IndexError
  | ValidatorRaises _ => False
  | NoOutcome => False
  end.
Proof.
  unfold refresh. rewrite check_limits_table.
  destruct (pyfloat lower_text) as [l|], (pyfloat upper_text) as [u|]; simpl;
    try discriminate.
  destruct (PrimFloat.leb u l) eqn:Hle; simpl; [discriminate|].
  pose proof (run_parse_raises func) as Hr.
  pose proof (parse_never_stuck func) as Hs.
  destruct (run_parse func) as [p|e|]; [| |now contradiction Hs].
  - simpl. repeat split. exists l, u. auto.
  - destruct (Hr e eq_refl) as [[-> | [-> | ->]] | (tk & _ & ->)];
      simpl; try discriminate. reflexivity.
Qed.

(** X16. When a limit is not a number the function is not looked at:
    whatever it is, [refresh] starts no worker, keeps the colour of the
    function, paints the failing limits red and shows the message of
    the last limit that failed. *)
Theorem refresh_invalid_limit (func lower_text upper_text : string) (d : display) :
  pyfloat lower_text = None \/ pyfloat upper_text = None ->
  refresh func lower_text upper_text d
  = Refreshed
      (Display
         (match pyfloat upper_text with
          | None => "upper_limit is not a valid number"
          | Some _ => "lower_limit is not a valid number"
          end)
         (match pyfloat lower_text with None => true | Some _ => false end)
         (match pyfloat upper_text with None => true | Some _ => false end)
         (func_red d))
      None.
Proof.
  intros H. unfold refresh. rewrite check_limits_table.
  destruct (pyfloat lower_text) as [l|], (pyfloat upper_text) as [u|];
    try reflexivity.
  destruct H; discriminate.
Qed.

Lemma refresh_outcomes_parser (func lower_text upper_text : string)
      (d d' : display) (j : job) :
  refresh func lower_text upper_text d = Refreshed d' (Some j) ->
  run_parse func = Return (job_parser j).
Proof.
  unfold refresh. rewrite check_limits_table.
  destruct (pyfloat lower_text) as [l|], (pyfloat upper_text) as [u|]; simpl;
    try discriminate.
  destruct (PrimFloat.leb u l); simpl; [discriminate|].
  destruct (run_parse func) as [p|e|]; [| |discriminate].
  - now intros [= _ <-].
  - destruct e; discriminate.
Qed.

(** X17. A worker started by [refresh] emits the data signal with a
    float, a string or one value per sample, or the error signal with
    the message "Missing Operand", or lets a [KeyError], a [TypeError] or
    a [RecursionError] escape: [run] catches [ValueError] only. The
    [RecursionError] needs a tree deeper than the frames granted: it does
    not occur when these exceed the number of nodes created by more than
    one. *)
Theorem worker_outcomes (frames : nat) (func lower_text upper_text : string)
        (d d' : display) (j : job) :
  refresh func lower_text upper_text d = Refreshed d' (Some j) ->
  match run frames j with
  | Data y => shaped (job_x j) y
  | Error msg => msg = "Missing Operand"
  | RunRaises e =>
      ((exists key, e = KeyError key) \/ e = TypeError \/ e = RecursionError)
      /\ (e = RecursionError -> frames <= List.length (heap (job_parser j)) + 1)
  | RunStuck => False
  end.
Proof.
  intros Href.
  pose proof (refresh_outcomes_parser func lower_text upper_text d d' j Href) as Hp.
  unfold run.
  pose proof (evaluate_parsed_not_stuck frames func (job_parser j) (job_x j) Hp)
    as Hns.
  destruct (run_parse_wf _ _ Hp) as [Hwf Hlt].
  unfold AP_evaluate in *. destruct frames as [|frames].
  { simpl. split; [right; now right | intros _; lia]. }
  pose proof (evaluate_outcomes frames (ast (job_parser j)) (job_x j)
                (heap (job_parser j))) as Ho.
  pose proof (evaluate_enough_frames frames (ast (job_parser j)) (job_x j)
                (heap (job_parser j)) Hwf Hlt) as Hen.
  destruct (fst (evaluate _ _ _ _)) as [y|e|]; [exact Ho | | now contradiction Hns].
  destruct Ho as [-> | [[key ->] | [-> | ->]]].
  - reflexivity.
  - split; [left; now exists key | discriminate].
  - split; [right; now left | discriminate].
  - split; [right; now right|]. intros _.
    destruct (le_gt_dec (S frames) (List.length (heap (job_parser j)) + 1))
      as [Hle|Hgt]; [exact Hle|].
    exfalso. apply Hen; [lia | reflexivity].
Qed.


(** * Printing a tree *)

Lemma to_str_store (frames : nat) (self : addr) (h : store) :
  snd (to_str frames self h) = h.
Proof.
  revert self. induction frames as [|frames IH]; intros self; [reflexivity|].
  simpl. unfold mbind, read, mret.
  destruct (h !! self) as [n|] eqn:Hn; [|reflexivity].
  assert (Hsub : forall o : option addr,
             exists r, (match o with
                        | Some a => to_str frames a
                        | None => fun h0 => (Return EmptyString, h0)
                        end) h = (r, h)).
  { intros [a|]; [|eexists; reflexivity].
    pose proof (IH a) as Ha. destruct (to_str frames a h) as [r h1].
    simpl in Ha. subst h1. eexists; reflexivity. }
  destruct (Hsub (left n)) as [r1 ->].
  destruct r1 as [s1| |]; try reflexivity.
  rewrite Hn. simpl. rewrite Hn.
  destruct (Hsub (right n)) as [r2 ->].
  destruct r2; reflexivity.
Qed.

Lemma to_str_node (frames : nat) (self : addr) (h : store) (n : node) :
  h !! self = Some n ->
  fst (to_str (S frames) self h)
  = let? res := match left n with
                | Some a => fst (to_str frames a h)
                | None => Return EmptyString
                end in
    let? res' := match right n with
                 | Some a => fst (to_str frames a h)
                 | None => Return EmptyString
                 end in
    Return (String.append (String.append res (str_tok (token n))) res').
Proof.
  intros Hn. simpl. unfold mbind, read, mret. rewrite Hn.
  assert (Hsub : forall o : option addr,
             (match o with
              | Some a => to_str frames a
              | None => fun h0 => (Return EmptyString, h0)
              end) h
             = (match o with
                | Some a => fst (to_str frames a h)
                | None => Return EmptyString
                end, h)).
  { intros [a|]; [|reflexivity].
    pose proof (to_str_store frames a h) as Ha.
    destruct (to_str frames a h) as [r h1]. simpl in *. now subst. }
  rewrite (Hsub (left n)).
  destruct (match left n with Some a => fst (to_str frames a h) | None => _ end)
    as [s1| |]; try reflexivity.
  simpl. rewrite Hn. simpl. rewrite Hn. rewrite (Hsub (right n)).
  destruct (match right n with Some a => fst (to_str frames a h) | None => _ end);
    reflexivity.
Qed.

Lemma to_str_not_stuck (frames : nat) (self : addr) (h : store) :
  wf_store h -> self < List.length h ->
  fst (to_str frames self h) <> Stuck.
Proof.
  intros Hwf. revert self. induction frames as [|frames IH]; intros self Hlt.
  - discriminate.
  - destruct (lookup_lt_is_Some_2 h self Hlt) as [n Hn].
    rewrite (to_str_node _ _ _ _ Hn).
    assert (Hsub : forall c, left n = Some c \/ right n = Some c ->
               fst (to_str frames c h) <> Stuck).
    { intros c Hc. destruct (Hwf self n c Hn Hc). apply IH; lia. }
    destruct (left n) as [l|] eqn:Hl.
    + pose proof (Hsub l (or_introl eq_refl)) as H1.
      destruct (fst (to_str frames l h)); simpl; try discriminate; try congruence.
      destruct (right n) as [r|] eqn:Hr; [|discriminate].
      pose proof (Hsub r (or_intror eq_refl)) as H2.
      destruct (fst (to_str frames r h)); simpl; try discriminate; congruence.
    + simpl. destruct (right n) as [r|] eqn:Hr; [|discriminate].
      pose proof (Hsub r (or_intror eq_refl)) as H2.
      destruct (fst (to_str frames r h)); simpl; try discriminate; congruence.
Qed.

Lemma append_empty_r (s : string) : String.append s EmptyString = s.
Proof. induction s as [|c s IH]; simpl; [reflexivity | now rewrite IH]. Qed.

Lemma to_str_leaf (frames : nat) (c : addr) (h : store) (tk : tok) :
  h !! c = Some (Node tk None None) ->
  fst (to_str (S frames) c h) = Return (str_tok tk).
Proof.
  intros Hc. rewrite (to_str_node _ _ _ _ Hc). simpl.
  now rewrite append_empty_r.
Qed.

Lemma to_str_unary (frames : nat) (c l : addr) (h : store) (tk : tok) :
  h !! c = Some (Node tk (Some l) None) ->
  fst (to_str (S frames) c h)
  = let? res := fst (to_str frames l h) in Return (String.append res (str_tok tk)).
Proof.
  intros Hc. rewrite (to_str_node _ _ _ _ Hc). simpl.
  destruct (fst (to_str frames l h)); simpl; try reflexivity.
  now rewrite append_empty_r.
Qed.

Lemma to_str_binary (frames : nat) (c l r : addr) (h : store) (tk : tok) :
  h !! c = Some (Node tk (Some l) (Some r)) ->
  fst (to_str (S frames) c h)
  = let? res := fst (to_str frames l h) in
    let? res' := fst (to_str frames r h) in
    Return (String.append (String.append res (str_tok tk)) res').
Proof. intros Hc. now rewrite (to_str_node _ _ _ _ Hc). Qed.

(** The nodes that represent [e] print as [render e] when the nested
    calls granted reach the depth of [e], and [str] ends in
    [RecursionError] otherwise. *)
Lemma repr_to_str (e : term) (h : store) :
  forall (lo : nat) (c : addr) (frames : nat),
    repr lo h c e ->
    fst (to_str frames c h)
    = if (depth e <=? frames)%nat then Return (render e) else Raise RecursionError.
Proof.
  induction e as [t | l IHl op r IHr | e IH]; intros lo c frames Hrepr.
  - destruct frames as [|frames']; [reflexivity|].
    destruct Hrepr as [_ Hc]. now rewrite (to_str_leaf _ _ _ _ Hc).
  - destruct frames as [|frames']; [reflexivity|].
    destruct Hrepr as [_ (cl & b & cr & Hc & _ & Hb & Hl & Hr)].
    rewrite (to_str_binary _ _ _ _ _ _ Hc).
    rewrite (IHl lo cl frames' Hl).
    assert (Hright : fst (to_str frames' b h)
                     = if (S (depth r) <=? frames')%nat
                       then Return (String.append (render r) L_eq)
                       else Raise RecursionError).
    { destruct frames' as [|g]; [reflexivity|].
      rewrite (to_str_unary _ _ _ _ _ Hb), (IHr lo cr g Hr).
      change (S (depth r) <=? S g)%nat with (depth r <=? g)%nat.
      now destruct (depth r <=? g)%nat. }
    rewrite Hright. simpl depth.
    destruct (Nat.leb_spec (depth l) frames') as [H1|H1],
             (Nat.leb_spec (S (depth r)) frames') as [H2|H2],
             (Nat.leb_spec (S (Nat.max (depth l) (S (depth r)))) (S frames')) as [H3|H3];
      try lia; reflexivity.
  - destruct frames as [|frames']; [reflexivity|].
    destruct Hrepr as [_ (c' & Hc & He)].
    rewrite (to_str_unary _ _ _ _ _ Hc), (IH lo c' frames' He).
    change (depth (Group e) <=? S frames')%nat with (depth e <=? frames')%nat.
    now destruct (depth e <=? frames')%nat.
Qed.

(** X18. [str] on a tree built from a well-formed fully parenthesized
    expression lists its operands and operators from left to right, with
    the placeholder [=] after the right operand of every operation, after
    every group and at the end, provided the interpreter grants more
    nested calls than the depth of the expression; with fewer it raises
    [RecursionError]. Either way the tree is left unchanged. *)
Theorem str_fully_parenthesized (formula : string) (e : term) :
  tockenize formula = Return (flat e) ->
  wf_term e ->
  exists p, run_parse formula = Return p
            /\ forall frames,
                 (depth e < frames ->
                  to_str frames (ast p) (heap p)
                  = (Return (String.append (render e) L_eq), heap p))
                 /\ (frames <= depth e ->
                     to_str frames (ast p) (heap p)
                     = (Raise RecursionError, heap p)).
Proof.
  intros Htok Hwf.
  destruct (parse_flat_repr formula e Htok Hwf) as (p & c & Hp & Hroot & Hrep).
  exists p. split; [exact Hp|]. intros frames.
  pose proof (to_str_store frames (ast p) (heap p)) as Hst.
  assert (Hrun : fst (to_str frames (ast p) (heap p))
                 = if (depth e <? frames)%nat
                   then Return (String.append (render e) L_eq)
                   else Raise RecursionError).
  { destruct frames as [|frames']; [reflexivity|].
    rewrite (to_str_unary _ _ _ _ _ Hroot), (repr_to_str e (heap p) 1 c frames' Hrep).
    change (depth e <? S frames')%nat with (depth e <=? frames')%nat.
    now destruct (depth e <=? frames')%nat. }
  destruct (to_str frames (ast p) (heap p)) as [r h1].
  simpl in Hst, Hrun. subst h1 r.
  destruct (Nat.ltb_spec (depth e) frames) as [H|H]; split; intros H';
    try lia; reflexivity.
Qed.


(** X19. A deleted limit is gone for every method: [in] answers false,
    deleting it again and [parse] raise [AttributeError] and change
    nothing, and [validate] raises [AttributeError] when it reaches the
    missing attribute, that is for the lower limit always and for the
    upper limit only when the lower one is a float. *)
Theorem deleted_limit (name : limit_name) (o o' : limits) :
  delitem name o = VReturn o' ->
  contains name o' = false
  /\ delitem name o' = VRaise (VAttributeError name)
  /\ parse_limit name o' = (VRaise (VAttributeError name), o')
  /\ validate o'
     = match name with
       | lower_limit => VRaise (VAttributeError lower_limit)
       | upper_limit =>
           match lower o with
           | Some (PFloat _) => VRaise (VAttributeError upper_limit)
           | Some (PStr _) => VReturn tt
           | None => VRaise (VAttributeError lower_limit)
           end
       end.
Proof.
  unfold delitem. destruct name; simpl.
  - destruct (lower o); [|discriminate]. intros [= <-].
    rewrite parse_limit_cases. repeat split.
  - destruct (upper o); [|discriminate]. intros [= <-].
    rewrite parse_limit_cases. repeat split.
    unfold validate, getitem. simpl. now destruct (lower o) as [[s|f]|].
Qed.

(** X20. [_insertParanthesesAround] called on an operator that stands
    between two well-formed, fully parenthesized terms inserts one
    opening parenthesis in front of the left term and one closing
    parenthesis behind the right term, whatever surrounds them. *)
Theorem wrap_between_terms (l r : term) (op : string) (pre rest : list string) :
  wf_term l -> wf_term r ->
  insertParanthesesAround (pre ++ flat l ++ op :: flat r ++ rest)
                          (List.length pre + List.length (flat l))
  = Return (pre ++ L_open :: flat l ++ op :: flat r ++ L_close :: rest).
Proof.
  intros Hl Hr. rewrite (insertParanthesesAround_terms l r op pre rest Hl Hr).
  simpl. repeat (rewrite <- app_assoc; simpl). reflexivity.
Qed.


End Parser.

(** ** Concrete instances *)

Lemma unclosed_groups_rejected_witness :
  tockenize "(x" = Return ["("; "x"]
  /\ opens_tracked true ["("; "x"] = true
  /\ count_tok L_close ["("; "x"] < count_tok L_open ["("; "x"]
  /\ exists e, run_parse float_of_digits "(x" = Raise e
       /\ (e = SyntaxError "Too few closing parantheses"
           \/ exists tk, In tk ["("; "x"] /\ float_of_digits tk = None
                         /\ e = unknown_variable tk).
Proof.
  split; [reflexivity|]. split; [reflexivity|].
  split; [apply Nat.lt_0_1|].
  apply (unclosed_groups_rejected float_of_digits "(x" ["("; "x"]);
    [reflexivity | reflexivity | apply Nat.lt_0_1].
Defined.

Lemma renormalize_adds_parens_witness :
  preprocess ["3"; "+"; "x"] = Return ["("; "3"; "+"; "x"; ")"]
  /\ preprocess ["("; "3"; "+"; "x"; ")"]
     = Return ["("; "("; "3"; "+"; "x"; ")"; ")"]
  /\ adds_parens ["("; "3"; "+"; "x"; ")"] ["("; "("; "3"; "+"; "x"; ")"; ")"]
  /\ (Forall (fun t => is_operator t = false) ["("; "3"; "+"; "x"; ")"] ->
      ["("; "("; "3"; "+"; "x"; ")"; ")"] = ["("; "3"; "+"; "x"; ")"]).
Proof.
  split; [reflexivity|]. split; [reflexivity|].
  apply (renormalize_adds_parens ["3"; "+"; "x"] ["("; "3"; "+"; "x"; ")"]
           ["("; "("; "3"; "+"; "x"; ")"; ")"]);
    reflexivity.
Defined.

Lemma precedence_example_witness :
  float_of_digits "3" = Some 3%float
  /\ float_of_digits "2" = Some 2%float
  /\ tockenize "3 + x * 2" = Return ["("; "3"; "+"; "("; "x"; "*"; "2"; ")"; ")"]
  /\ parse_then_evaluate float_of_digits small_power no_text_loop (8 + 0)
       "3 + x * 2" [1; 2; 3; 4; 5]%float
     = Return (VArray [5; 7; 9; 11; 13]%float).
Proof.
  split; [reflexivity|]. split; [reflexivity|].
  apply (precedence_example float_of_digits small_power no_text_loop 0);
    reflexivity.
Defined.

Lemma evaluate_leaves_tree_unchanged_witness :
  run_parse float_of_digits "3 + x" = Return sum_tree
  /\ evaluate_each small_power no_text_loop 1000 sum_tree [[1; 2]; [4]; [1; 2]]%float
     = (List.map (fun x => fst (AP_evaluate small_power no_text_loop 1000 sum_tree x))
          [[1; 2]; [4]; [1; 2]]%float,
        sum_tree)
  /\ (forall x, snd (AP_evaluate small_power no_text_loop 1000 sum_tree x)
                = heap sum_tree)
  /\ (forall x, fst (AP_evaluate small_power no_text_loop 1000 sum_tree x) <> Stuck).
Proof.
  split; [reflexivity|].
  apply (evaluate_leaves_tree_unchanged float_of_digits small_power no_text_loop 1000
           "3 + x" sum_tree [[1; 2]; [4]; [1; 2]]%float).
  reflexivity.
Defined.

(** Two lexemes can meet as the operands of an addition: in [)(+x+++]
    two of the operators have no left operand, so their nodes evaluate to
    their own lexemes. What follows is numpy's: [TypeError] when [add]
    has no loop for strings, their concatenation when it has one. *)
Example lexeme_operands (frames : nat) (x : list float) :
  parse_then_evaluate float_of_digits small_power no_text_loop
    (7 + frames) ")(+x+++" x = Raise TypeError
  /\ parse_then_evaluate float_of_digits small_power text_concatenation
       (7 + frames) ")(+x+++" x = Return (VStr "++").
Proof. split; reflexivity. Qed.

(** ** Counterexamples *)

(** C5 as stated fails. Normalizing [3 + x] succeeds, and normalizing the
    result again succeeds with one more pair of parentheses. *)
Lemma renormalize_not_identity :
  preprocess ["3"; "+"; "x"] = Return ["("; "3"; "+"; "x"; ")"]
  /\ preprocess ["("; "3"; "+"; "x"; ")"]
     = Return ["("; "("; "3"; "+"; "x"; ")"; ")"]
  /\ ["("; "("; "3"; "+"; "x"; ")"; ")"] <> ["("; "3"; "+"; "x"; ")"].
Proof. repeat split; try reflexivity. discriminate. Qed.

(** C6 as stated fails. A tab is white space and is not removed: the
    first lexeme of [3<TAB>+x] ends with it. *)
Lemma tab_survives_tockenize :
  lexems_of (String "3" (String "009" "+x"))
  = [String "3" (String "009" EmptyString); "+"; "x"]
  /\ is_whitespace "009" = true
  /\ string_forallb (fun c => negb (is_whitespace c))
       (String "3" (String "009" EmptyString)) = false.
Proof. repeat split; reflexivity. Qed.

(** ** Concrete instances of the further properties *)

Arguments VReturn {A} a.
Arguments VRaise {A} e.

Lemma constant_formula_scalar_witness :
  run_parse float_of_digits "3"
  = Return (Parsed [Node (TStr "=") (Some 1) None; Node (TFloat 3) None None] 0)
  /\ ~ In L_x (lexems_of "3")
  /\ match fst (AP_evaluate small_power no_text_loop 1000
                  (Parsed [Node (TStr "=") (Some 1) None; Node (TFloat 3) None None] 0)
                  [1; 2]%float) with
     | Return v => is_array v = false
     | _ => True
     end.
Proof.
  assert (Hx : ~ In L_x (lexems_of "3")) by (simpl; intros [H|[]]; discriminate).
  split; [reflexivity|]. split; [exact Hx|].
  apply (constant_formula_scalar float_of_digits small_power no_text_loop 1000 "3");
    [reflexivity | exact Hx].
Defined.

Lemma unknown_lexeme_reported_witness :
  tockenize "z + 10" = Return ["("; "z"; "+"; "10"; ")"]
  /\ (forall pre tk post,
         ["("; "z"; "+"; "10"; ")"] = pre ++ tk :: post ->
         Forall (fun t => known float_of_digits t = true) pre ->
         known float_of_digits tk = false ->
         run_parse float_of_digits "z + 10" = Raise (unknown_variable tk))
  /\ (Forall (fun t => known float_of_digits t = true) ["("; "z"; "+"; "10"; ")"] ->
      (exists p, run_parse float_of_digits "z + 10" = Return p)
      \/ run_parse float_of_digits "z + 10"
         = Raise (SyntaxError "Too few closing parantheses")).
Proof.
  split; [reflexivity|].
  apply (unknown_lexeme_reported float_of_digits "z + 10"). reflexivity.
Defined.

Lemma parse_store_size_witness :
  tockenize "3 + x" = Return ["("; "3"; "+"; "x"; ")"]
  /\ run_parse float_of_digits "3 + x" = Return sum_tree
  /\ List.length (heap sum_tree)
     = 1 + List.length (List.filter allocates ["("; "3"; "+"; "x"; ")"]).
Proof.
  split; [reflexivity|]. split; [reflexivity|].
  apply (parse_store_size float_of_digits "3 + x"); reflexivity.
Defined.


Lemma parse_fully_parenthesized_witness :
  tockenize "3 + x" = Return (flat (Bin (Atom "3") "+" (Atom "x")))
  /\ wf_term float_of_digits (Bin (Atom "3") "+" (Atom "x"))
  /\ exists p, run_parse float_of_digits "3 + x" = Return p
       /\ forall frames x,
            (depth (Bin (Atom "3") "+" (Atom "x")) + 2 < frames ->
             exists v, fst (AP_evaluate small_power no_text_loop frames p x) = Return v
               /\ denote float_of_digits small_power no_text_loop
                    (Bin (Atom "3") "+" (Atom "x")) x = Return v
               /\ shaped x v)
            /\ (frames <= depth (Bin (Atom "3") "+" (Atom "x")) + 2 ->
                fst (AP_evaluate small_power no_text_loop frames p x)
                = Raise RecursionError).
Proof.
  assert (Hwf : wf_term float_of_digits (Bin (Atom "3") "+" (Atom "x")))
    by (simpl; repeat split; reflexivity).
  split; [reflexivity|]. split; [exact Hwf|].
  apply (parse_fully_parenthesized float_of_digits small_power no_text_loop "3 + x");
    [reflexivity | exact Hwf].
Defined.

Lemma preprocess_parenthesis_free_witness :
  is_atom float_of_digits "3" = true
  /\ Forall (fun ot => is_operator (fst ot) = true
                       /\ is_atom float_of_digits (snd ot) = true)
            [("+", "x"); ("*", "2")]
  /\ preprocess ("3" :: flat_tail (atoms [("+", "x"); ("*", "2")]))
     = Return (flat (precedence_tree "3" [("+", "x"); ("*", "2")]))
  /\ wf_term float_of_digits (precedence_tree "3" [("+", "x"); ("*", "2")]).
Proof.
  assert (H : Forall (fun ot => is_operator (fst ot) = true
                                /\ is_atom float_of_digits (snd ot) = true)
                     [("+", "x"); ("*", "2")])
    by (repeat constructor).
  split; [reflexivity|]. split; [exact H|].
  apply (preprocess_parenthesis_free float_of_digits "3"); [reflexivity | exact H].
Defined.

Lemma parse_parenthesis_free_witness :
  lexems_of "3 + x * 2" = "3" :: flat_tail (atoms [("+", "x"); ("*", "2")])
  /\ is_atom float_of_digits "3" = true
  /\ Forall (fun ot => is_operator (fst ot) = true
                       /\ is_atom float_of_digits (snd ot) = true)
            [("+", "x"); ("*", "2")]
  /\ exists p, run_parse float_of_digits "3 + x * 2" = Return p
       /\ depth (precedence_tree "3" [("+", "x"); ("*", "2")])
          <= 2 * List.length [("+", "x"); ("*", "2")] + 1
       /\ forall frames x,
            (depth (precedence_tree "3" [("+", "x"); ("*", "2")]) + 2 < frames ->
             exists v,
               fst (AP_evaluate small_power no_text_loop frames p x) = Return v
               /\ denote float_of_digits small_power no_text_loop
                    (precedence_tree "3" [("+", "x"); ("*", "2")]) x = Return v
               /\ shaped x v)
            /\ (frames <= depth (precedence_tree "3" [("+", "x"); ("*", "2")]) + 2 ->
                fst (AP_evaluate small_power no_text_loop frames p x)
                = Raise RecursionError).
Proof.
  assert (H : Forall (fun ot => is_operator (fst ot) = true
                                /\ is_atom float_of_digits (snd ot) = true)
                     [("+", "x"); ("*", "2")])
    by (repeat constructor).
  split; [reflexivity|]. split; [reflexivity|]. split; [exact H|].
  apply (parse_parenthesis_free float_of_digits small_power no_text_loop
           "3 + x * 2" "3");
    [reflexivity | reflexivity | exact H].
Defined.

Lemma same_tier_groups_left_witness :
  (is_pow = is_pow \/ is_pow = is_mul \/ is_pow = is_add)
  /\ is_atom float_of_digits "x" = true
  /\ Forall (fun ot => is_pow (fst ot) = true
                       /\ is_atom float_of_digits (snd ot) = true)
            [("^", "2"); ("^", "3")]
  /\ preprocess ("x" :: flat_tail (atoms [("^", "2"); ("^", "3")]))
     = Return ["("; "("; "x"; "^"; "2"; ")"; "^"; "3"; ")"].
Proof.
  assert (H : Forall (fun ot => is_pow (fst ot) = true
                                /\ is_atom float_of_digits (snd ot) = true)
                     [("^", "2"); ("^", "3")])
    by (repeat constructor).
  split; [now left|]. split; [reflexivity|]. split; [exact H|].
  apply (same_tier_groups_left float_of_digits is_pow "x" [("^", "2"); ("^", "3")]);
    [now left | reflexivity | exact H].
Defined.

Lemma parse_limit_idempotent_witness :
  parse_limit float_of_digits lower_limit (LimitsValidator (PStr "0") (PStr "10"))
  = (VReturn (PFloat 0), Limits (Some (PFloat 0)) (Some (PStr "10")))
  /\ (exists f, PFloat 0 = PFloat f)
  /\ parse_limit float_of_digits lower_limit
       (Limits (Some (PFloat 0)) (Some (PStr "10")))
     = (VReturn (PFloat 0), Limits (Some (PFloat 0)) (Some (PStr "10")))
  /\ getitem lower_limit (Limits (Some (PFloat 0)) (Some (PStr "10")))
     = VReturn (PFloat 0)
  /\ upper (Limits (Some (PFloat 0)) (Some (PStr "10")))
     = upper (LimitsValidator (PStr "0") (PStr "10")).
Proof.
  split; [reflexivity|].
  apply (parse_limit_idempotent float_of_digits lower_limit
           (LimitsValidator (PStr "0") (PStr "10"))).
  reflexivity.
Defined.

Lemma failed_parse_disables_validate_witness :
  contains lower_limit (LimitsValidator (PStr "not a number") (PStr "10")) = true
  /\ contains upper_limit (LimitsValidator (PStr "not a number") (PStr "10")) = true
  /\ parse_limit float_of_digits lower_limit
       (LimitsValidator (PStr "not a number") (PStr "10"))
     = (VRaise (VValueError "lower_limit is not a valid number"),
        LimitsValidator (PStr "not a number") (PStr "10"))
  /\ LimitsValidator (PStr "not a number") (PStr "10")
     = LimitsValidator (PStr "not a number") (PStr "10")
  /\ "lower_limit is not a valid number"
     = String.append (name_str lower_limit) " is not a valid number"
  /\ validate (LimitsValidator (PStr "not a number") (PStr "10")) = VReturn tt.
Proof.
  split; [reflexivity|]. split; [reflexivity|]. split; [reflexivity|].
  apply (failed_parse_disables_validate float_of_digits lower_limit
           (LimitsValidator (PStr "not a number") (PStr "10")));
    reflexivity.
Defined.

Lemma validate_after_parse_witness :
  parse_limit float_of_digits lower_limit (LimitsValidator (PStr "0") (PStr "10"))
  = (VReturn (PFloat 0), Limits (Some (PFloat 0)) (Some (PStr "10")))
  /\ parse_limit float_of_digits upper_limit
       (Limits (Some (PFloat 0)) (Some (PStr "10")))
     = (VReturn (PFloat 10), Limits (Some (PFloat 0)) (Some (PFloat 10)))
  /\ validate (Limits (Some (PFloat 0)) (Some (PFloat 10)))
     = if PrimFloat.leb 10 0
       then VRaise (VValueError "From is greater than To")
       else VReturn tt.
Proof.
  split; [reflexivity|]. split; [reflexivity|].
  apply (validate_after_parse float_of_digits
           (LimitsValidator (PStr "0") (PStr "10"))
           (Limits (Some (PFloat 0)) (Some (PStr "10"))));
    reflexivity.
Defined.

Lemma parse_exceptions_witness :
  run_parse float_of_digits "z + 10" = Raise (NameError "Unknown variable ('z')")
  /\ match tockenize "z + 10" with
     | Raise e' => NameError "Unknown variable ('z')" = e'
                   /\ normalizer_exception (NameError "Unknown variable ('z')")
     | Return lexems =>
         NameError "Unknown variable ('z')"
         = SyntaxError "Too few closing parantheses"
         \/ exists tk, In tk lexems /\ known float_of_digits tk = false
                       /\ NameError "Unknown variable ('z')" = unknown_variable tk
     | Stuck => False
     end.
Proof.
  split; [reflexivity|].
  apply (parse_exceptions float_of_digits "z + 10"). reflexivity.
Defined.

Lemma evaluate_result_shape_witness :
  run_parse float_of_digits "3 + x" = Return sum_tree
  /\ match fst (AP_evaluate small_power no_text_loop 1000 sum_tree [1; 2]%float) with
     | Return v => shaped [1; 2]%float v
     | Raise e =>
         evaluate_exception e
         /\ (e = RecursionError -> 1000 <= List.length (heap sum_tree) + 1)
     | Stuck => False
     end.
Proof.
  split; [reflexivity|].
  apply (evaluate_result_shape float_of_digits small_power no_text_loop 1000 "3 + x").
  reflexivity.
Defined.

Lemma refresh_invalid_limit_witness :
  (float_of_digits "not a number" = None \/ float_of_digits "10" = None)
  /\ refresh float_of_digits linspace_501 "x" "not a number" "10"
       (Display EmptyString false false false)
     = Refreshed (Display "lower_limit is not a valid number" true false false) None.
Proof.
  split; [now left|].
  apply (refresh_invalid_limit float_of_digits linspace_501 "x" "not a number" "10"
           (Display EmptyString false false false)).
  now left.
Defined.

Lemma worker_outcomes_witness :
  refresh float_of_digits linspace_501 "3 + x" "0" "10"
    (Display EmptyString false false false)
  = Refreshed (Display EmptyString false false false)
              (Some (Job sum_tree (linspace_501 0 10)))
  /\ match run small_power no_text_loop 1000 (Job sum_tree (linspace_501 0 10)) with
     | Data y => shaped (linspace_501 0 10) y
     | Error msg => msg = "Missing Operand"
     | RunRaises e =>
         ((exists key, e = KeyError key) \/ e = TypeError \/ e = RecursionError)
         /\ (e = RecursionError
             -> 1000 <= List.length (heap (job_parser (Job sum_tree (linspace_501 0 10)))) + 1)
     | RunStuck => False
     end.
Proof.
  split; [reflexivity|].
  apply (worker_outcomes float_of_digits small_power no_text_loop linspace_501 1000
           "3 + x" "0" "10"
           (Display EmptyString false false false)
           (Display EmptyString false false false)
           (Job sum_tree (linspace_501 0 10))).
  reflexivity.
Defined.

Lemma str_fully_parenthesized_witness :
  tockenize "3 + x" = Return (flat (Bin (Atom "3") "+" (Atom "x")))
  /\ wf_term float_of_digits (Bin (Atom "3") "+" (Atom "x"))
  /\ exists p, run_parse float_of_digits "3 + x" = Return p
       /\ forall frames,
            (depth (Bin (Atom "3") "+" (Atom "x")) < frames ->
             to_str float_str frames (ast p) (heap p)
             = (Return (String.append
                          (render float_of_digits float_str
                             (Bin (Atom "3") "+" (Atom "x"))) L_eq),
                heap p))
            /\ (frames <= depth (Bin (Atom "3") "+" (Atom "x")) ->
                to_str float_str frames (ast p) (heap p)
                = (Raise RecursionError, heap p)).
Proof.
  assert (Hwf : wf_term float_of_digits (Bin (Atom "3") "+" (Atom "x")))
    by (simpl; repeat split; reflexivity).
  split; [reflexivity|]. split; [exact Hwf|].
  apply (str_fully_parenthesized float_of_digits float_str "3 + x");
    [reflexivity | exact Hwf].
Defined.


Lemma deleted_limit_witness :
  delitem upper_limit (LimitsValidator (PStr "0") (PStr "10"))
  = VReturn (Limits (Some (PStr "0")) None)
  /\ contains upper_limit (Limits (Some (PStr "0")) None) = false
  /\ delitem upper_limit (Limits (Some (PStr "0")) None)
     = VRaise (VAttributeError upper_limit)
  /\ parse_limit float_of_digits upper_limit (Limits (Some (PStr "0")) None)
     = (VRaise (VAttributeError upper_limit), Limits (Some (PStr "0")) None)
  /\ validate (Limits (Some (PStr "0")) None) = VReturn tt.
Proof.
  split; [reflexivity|].
  apply (deleted_limit float_of_digits upper_limit
           (LimitsValidator (PStr "0") (PStr "10"))).
  reflexivity.
Defined.

Lemma wrap_between_terms_witness :
  wf_term float_of_digits (Group (Atom "x"))
  /\ wf_term float_of_digits (Bin (Atom "2") "^" (Atom "3"))
  /\ insertParanthesesAround
       (["1"; "+"] ++ flat (Group (Atom "x")) ++ "*"
          :: flat (Bin (Atom "2") "^" (Atom "3")) ++ ["-"; "4"])
       (List.length ["1"; "+"] + List.length (flat (Group (Atom "x"))))
     = Return (["1"; "+"] ++ L_open :: flat (Group (Atom "x")) ++ "*"
                 :: flat (Bin (Atom "2") "^" (Atom "3")) ++ L_close :: ["-"; "4"]).
Proof.
  assert (H1 : wf_term float_of_digits (Group (Atom "x"))) by reflexivity.
  assert (H2 : wf_term float_of_digits (Bin (Atom "2") "^" (Atom "3")))
    by (simpl; repeat split; reflexivity).
  split; [exact H1|]. split; [exact H2|].
  apply (wrap_between_terms float_of_digits (Group (Atom "x"))
           (Bin (Atom "2") "^" (Atom "3")) "*" ["1"; "+"] ["-"; "4"] H1 H2).
Defined.

Lemma chain_recursion_limit_witness :
  lexems_of "x+x-x" = "x" :: flat_tail (atoms [("+", "x"); ("-", "x")])
  /\ (is_add = is_pow \/ is_add = is_mul \/ is_add = is_add)
  /\ is_atom float_of_digits "x" = true
  /\ Forall (fun ot => is_add (fst ot) = true
                       /\ is_atom float_of_digits (snd ot) = true)
            [("+", "x"); ("-", "x")]
  /\ [("+", "x"); ("-", "x")] <> []
  /\ exists pr, run_parse float_of_digits "x+x-x" = Return pr
       /\ forall frames x,
            (List.length [("+", "x"); ("-", "x")] + 4 < frames ->
             exists v,
               fst (AP_evaluate small_power no_text_loop frames pr x) = Return v
               /\ denote float_of_digits small_power no_text_loop
                    (left_nest "x" [("+", "x"); ("-", "x")]) x = Return v
               /\ shaped x v)
            /\ (frames <= List.length [("+", "x"); ("-", "x")] + 4 ->
                fst (AP_evaluate small_power no_text_loop frames pr x)
                = Raise RecursionError).
Proof.
  assert (H : Forall (fun ot => is_add (fst ot) = true
                                /\ is_atom float_of_digits (snd ot) = true)
                     [("+", "x"); ("-", "x")])
    by (repeat constructor).
  assert (Hne : [("+", "x"); ("-", "x")] <> ([] : list (string * string)))
    by discriminate.
  split; [reflexivity|]. split; [now right; right|]. split; [reflexivity|].
  split; [exact H|]. split; [exact Hne|].
  apply (chain_recursion_limit float_of_digits small_power no_text_loop is_add
           "x+x-x" "x" [("+", "x"); ("-", "x")]);
    [reflexivity | now right; right | reflexivity | exact H | exact Hne].
Defined.
